(** * portmap-client: the WireGuard tunnel lifecycle

    A shallow embedding of [internal/wireguard/config.go],
    [internal/wireguard/setup.go] and of the connect command's set-up and
    monitor loop, with the properties of the tunnel lifecycle stated over it.

    Go strings are byte strings: they are modelled as [string], one [ascii]
    per byte.  Go's [error] values are represented by their message text;
    [nil] is [None]. *)

From Stdlib Require Import ZArith List String Ascii Bool Lia.
From Stdlib Require Import DecimalString DecimalPos.
Import ListNotations.

Local Open Scope string_scope.
Local Open Scope Z_scope.

(** ** The parts of Go's standard library the code calls *)

Module GoStrings.

(** White space is that of [unicode.IsSpace], which [strings.TrimSpace] and
    [strings.Fields] use.  A text is a sequence of bytes read as UTF-8, and
    a white-space rune stands at a place exactly when the bytes there are
    its encoding: an encoding starts with a byte that is no continuation
    byte, so none starts inside another rune, and a sequence that is no
    valid encoding reads as the replacement rune, which is no white space.

    One byte: tab, line feed, vertical tab, form feed, carriage return and
    space. *)
Definition isSpace1 (c : ascii) : bool :=
  let n := nat_of_ascii c in
  ((9 <=? n)%nat && (n <=? 13)%nat) || (n =? 32)%nat.

(** Two bytes: U+0085 (C2 85) and U+00A0 (C2 A0). *)
Definition isSpace2 (c1 c2 : ascii) : bool :=
  let n1 := nat_of_ascii c1 in
  let n2 := nat_of_ascii c2 in
  ((n1 =? 194) && ((n2 =? 133) || (n2 =? 160)))%nat.

(** Three bytes: U+1680 (E1 9A 80), U+2000 to U+200A (E2 80 80 to E2 80 8A),
    U+2028, U+2029 and U+202F (E2 80 A8, E2 80 A9, E2 80 AF), U+205F
    (E2 81 9F) and U+3000 (E3 80 80). *)
Definition isSpace3 (c1 c2 c3 : ascii) : bool :=
  let n1 := nat_of_ascii c1 in
  let n2 := nat_of_ascii c2 in
  let n3 := nat_of_ascii c3 in
  (((n1 =? 225) && (n2 =? 154) && (n3 =? 128))
   || ((n1 =? 226) && (n2 =? 128)
       && (((128 <=? n3) && (n3 <=? 138)) || (n3 =? 168) || (n3 =? 169) || (n3 =? 175)))
   || ((n1 =? 226) && (n2 =? 129) && (n3 =? 159))
   || ((n1 =? 227) && (n2 =? 128) && (n3 =? 128)))%nat.

(** [strings.TrimLeftFunc s unicode.IsSpace]: the runes in front are taken
    off while they are white space. *)
Fixpoint TrimLeft (s : string) : string :=
  match s with
  | EmptyString => EmptyString
  | String c1 s1 =>
      if isSpace1 c1 then TrimLeft s1
      else
        match s1 with
        | EmptyString => s
        | String c2 s2 =>
            if isSpace2 c1 c2 then TrimLeft s2
            else
              match s2 with
              | EmptyString => s
              | String c3 s3 => if isSpace3 c1 c2 c3 then TrimLeft s3 else s
              end
        end
  end.

(** The same from the end, on the bytes back to front: the last rune is
    taken off while it is white space. *)
Fixpoint trimBack (r : list ascii) : list ascii :=
  match r with
  | [] => []
  | c1 :: r1 =>
      if isSpace1 c1 then trimBack r1
      else
        match r1 with
        | [] => r
        | c2 :: r2 =>
            if isSpace2 c2 c1 then trimBack r2
            else
              match r2 with
              | [] => r
              | c3 :: r3 => if isSpace3 c3 c2 c1 then trimBack r3 else r
              end
        end
  end.

(** [strings.TrimRightFunc s unicode.IsSpace] *)
Definition TrimRight (s : string) : string :=
  string_of_list_ascii (rev (trimBack (rev (list_ascii_of_string s)))).

(** [strings.TrimSpace] *)
Definition TrimSpace (s : string) : string := TrimRight (TrimLeft s).

(** [strings.HasPrefix s p] *)
Fixpoint HasPrefix (s p : string) : bool :=
  match p, s with
  | EmptyString, _ => true
  | String _ _, EmptyString => false
  | String a p', String b s' => Ascii.eqb a b && HasPrefix s' p'
  end.

Fixpoint drop (n : nat) (s : string) : string :=
  match n, s with
  | O, _ => s
  | S _, EmptyString => EmptyString
  | S n', String _ s' => drop n' s'
  end.

(** [strings.TrimPrefix s p] *)
Definition TrimPrefix (s p : string) : string :=
  if HasPrefix s p then drop (String.length p) s else s.

(** [strings.Contains s sub] *)
Fixpoint Contains (s sub : string) : bool :=
  HasPrefix s sub ||
  match s with
  | EmptyString => false
  | String _ s' => Contains s' sub
  end.

(** [strings.Split s sep] for a one-byte separator, which is what every
    call site passes (",", "/" and the line feed).  The result is never
    empty: a string without the separator, the empty string included, comes
    back as the one-element slice holding it. *)
Fixpoint Split (s : string) (sep : ascii) : list string :=
  match s with
  | EmptyString => [EmptyString]
  | String c s' =>
      if Ascii.eqb c sep then EmptyString :: Split s' sep
      else match Split s' sep with
           | [] => [String c EmptyString]
           | w :: ws => String c w :: ws
           end
  end.

(** [strings.Fields]: the maximal runs of bytes between white-space runes.
    [cur] is the field that is being read. *)
Definition endField (cur : option string) (rest : list string) : list string :=
  match cur with
  | Some w => w :: rest
  | None => rest
  end.

Definition addByte (cur : option string) (c : ascii) : option string :=
  Some (match cur with
        | Some w => w ++ String c EmptyString
        | None => String c EmptyString
        end).

Fixpoint fields_aux (s : string) (cur : option string) : list string :=
  match s with
  | EmptyString => endField cur []
  | String c1 s1 =>
      if isSpace1 c1 then endField cur (fields_aux s1 None)
      else
        match s1 with
        | EmptyString => fields_aux s1 (addByte cur c1)
        | String c2 s2 =>
            if isSpace2 c1 c2 then endField cur (fields_aux s2 None)
            else
              match s2 with
              | EmptyString => fields_aux s1 (addByte cur c1)
              | String c3 s3 =>
                  if isSpace3 c1 c2 c3 then endField cur (fields_aux s3 None)
                  else fields_aux s1 (addByte cur c1)
              end
        end
  end.

Definition Fields (s : string) : list string := fields_aux s None.

Definition LF : ascii := ascii_of_nat 10.
Definition nl : string := String LF EmptyString.

End GoStrings.

Module Strconv.

Definition digit (c : ascii) : option Z :=
  let n := nat_of_ascii c in
  if ((48 <=? n)%nat && (n <=? 57)%nat)%bool then Some (Z.of_nat n - 48) else None.

Definition maxUint64 : Z := 2 ^ 64 - 1.

(** Accumulates decimal digits left to right; [None] is a syntax error. *)
Fixpoint digits (s : string) (acc : Z) : option Z :=
  match s with
  | EmptyString => Some acc
  | String c s' =>
      match digit c with
      | Some d => digits s' (10 * acc + d)
      | None => None
      end
  end.

(** [maxUint64/10 + 1]: from here on another digit overflows. *)
Definition cutoff : Z := maxUint64 / 10 + 1.

(** The loop of [ParseUint] over the bytes of the text, on the number read so
    far.  A byte that is no digit is a syntax error, with value 0; a number
    that leaves 64 bits is a range error, with value [maxUint64], and ends
    the loop where it is found. *)
Fixpoint parseLoop (s : string) (n : Z) : Z * bool :=
  match s with
  | EmptyString => (n, false)
  | String c s' =>
      match digit c with
      | None => (0, true)
      | Some d =>
          if cutoff <=? n then (maxUint64, true)
          else
            let n1 := 10 * n + d in
            if maxUint64 <? n1 then (maxUint64, true)
            else parseLoop s' n1
      end
  end.

(** [strconv.ParseUint s 10 64]: the value and whether an error came with
    it.  The empty string is a syntax error. *)
Definition ParseUint (s : string) : Z * bool :=
  match s with
  | EmptyString => (0, true)
  | _ => parseLoop s 0
  end.

(** The [%d] verb of [fmt] on an integer. *)
Definition Itoa (z : Z) : string := NilZero.string_of_int (Z.to_int z).

End Strconv.

Module Base64.

(** The standard alphabet, as the decode map of [base64.StdEncoding]. *)
Definition decodeMap (c : ascii) : option Z :=
  let n := Z.of_nat (nat_of_ascii c) in
  if (65 <=? n) && (n <=? 90) then Some (n - 65)
  else if (97 <=? n) && (n <=? 122) then Some (n - 71)
  else if (48 <=? n) && (n <=? 57) then Some (n + 4)
  else if n =? 43 then Some 62
  else if n =? 47 then Some 63
  else None.

Definition isPad (c : ascii) : bool := Ascii.eqb c "="%char.

Definition isNewline (c : ascii) : bool :=
  Ascii.eqb c (ascii_of_nat 10) || Ascii.eqb c (ascii_of_nat 13).

(** The 24-bit value of a quantum and its three bytes. *)
Definition quantum (v1 v2 v3 v4 : Z) : Z :=
  Z.lor (Z.lor (Z.lor (Z.shiftl v1 18) (Z.shiftl v2 12)) (Z.shiftl v3 6)) v4.

Definition byte0 (val : Z) : Z := Z.land (Z.shiftr val 16) 255.
Definition byte1 (val : Z) : Z := Z.land (Z.shiftr val 8) 255.
Definition byte2 (val : Z) : Z := Z.land val 255.

(** What decoding gives: the bytes, or the error [CorruptInputError] with
    the index of the input byte it was found at. *)
Inductive decoded : Type :=
| Decoded (bytes : list Z)
| CorruptInputError (offset : Z).

(** The bytes of a quantum in front of what the rest of the input gives; an
    error further on is the result. *)
Definition andThen (bytes : list Z) (d : decoded) : decoded :=
  match d with
  | Decoded rest => Decoded (bytes ++ rest)
  | CorruptInputError n => CorruptInputError n
  end.

(** The line feeds and carriage returns in front are passed over. *)
Fixpoint skipNewlines (src : list ascii) (si : Z) : list ascii * Z :=
  match src with
  | c :: rest => if isNewline c then skipNewlines rest (si + 1) else (src, si)
  | [] => ([], si)
  end.

(** After the padding only line feeds and carriage returns may follow. *)
Definition afterPadding (src : list ascii) (si : Z) (bytes : list Z) : decoded :=
  match skipNewlines src si with
  | ([], _) => Decoded bytes
  | (_ :: _, si') => CorruptInputError si'
  end.

(** [Decode] with [decodeQuantum]: [src] is the input from index [si] on,
    [dbuf] the six-bit values read so far of the quantum at hand (there are
    [j] of them).  Four values give three bytes and the next quantum starts.
    Line feeds and carriage returns are passed over wherever they stand.
    The input may end between two quanta only.  Padding is accepted as the
    third and fourth or as the fourth character of a quantum, and ends the
    input.  The unused low bits of a padded quantum are not checked (the
    encoding is not strict). *)
Fixpoint decodeLoop (src : list ascii) (si : Z) (dbuf : list Z) : decoded :=
  match src with
  | [] =>
      match dbuf with
      | [] => Decoded []
      | _ => CorruptInputError (si - Z.of_nat (List.length dbuf))
      end
  | c :: rest =>
      match decodeMap c with
      | Some out =>
          match dbuf with
          | [v1; v2; v3] =>
              let val := quantum v1 v2 v3 out in
              andThen [byte0 val; byte1 val; byte2 val] (decodeLoop rest (si + 1) [])
          | _ => decodeLoop rest (si + 1) (dbuf ++ [out])
          end
      | None =>
          if isNewline c then decodeLoop rest (si + 1) dbuf
          else if negb (isPad c) then CorruptInputError si
          else
            match dbuf with
            | [v1; v2] =>
                match skipNewlines rest (si + 1) with
                | ([], si') => CorruptInputError si'
                | (c' :: rest', si') =>
                    if negb (isPad c') then CorruptInputError (si' - 1)
                    else afterPadding rest' (si' + 1) [byte0 (quantum v1 v2 0 0)]
                end
            | [v1; v2; v3] =>
                let val := quantum v1 v2 v3 0 in
                afterPadding rest (si + 1) [byte0 val; byte1 val]
            | _ => CorruptInputError si    (* padding in the first or second place *)
            end
      end
  end.

(** [base64.StdEncoding.DecodeString] *)
Definition DecodeString (s : string) : decoded :=
  decodeLoop (list_ascii_of_string s) 0 [].

(** The text of a [CorruptInputError]. *)
Definition errorText (offset : Z) : string :=
  "illegal base64 data at input byte " ++ Strconv.Itoa offset.

End Base64.

Module Hex.

Definition hextable : string := "0123456789abcdef".

Definition hexdigit (n : Z) : ascii :=
  match String.get (Z.to_nat n) hextable with
  | Some c => c
  | None => "0"%char
  end.

(** [hex.EncodeToString]: two lower-case digits per byte. *)
Fixpoint EncodeToString (bs : list Z) : string :=
  match bs with
  | [] => EmptyString
  | b :: bs' =>
      String (hexdigit (Z.shiftr b 4))
        (String (hexdigit (Z.land b 15)) (EncodeToString bs'))
  end.

End Hex.

(** A Go result with an [error]: the value, or the error's text. *)
Inductive result (A : Type) : Type :=
| Ok (a : A)
| Err (msg : string).
Arguments Ok {A} a.
Arguments Err {A} msg.

(** Go's [error]; [None] is [nil]. *)
Definition error := option string.

Module Net.

Definition IP := list Z.
Definition IPMask := list Z.

Record IPNet := { IPNet_IP : IP; Mask : IPMask }.

End Net.

(** What the code takes from libraries whose text is not part of the
    program: package [net], the integer syntax of [ini]'s [MustInt] and the
    byte-count formatter of [go-humanize]. *)
Class Lib := {
  (** [net.ParseCIDR]: the address and its network, or no result on error *)
  ParseCIDR : string -> option (Net.IP * Net.IPNet);
  (** [net.ParseIP]: [None] is the nil address *)
  ParseIP : string -> option Net.IP;
  (** [net.IP.String] *)
  IPString : Net.IP -> string;
  (** [Key.Int] of ini: [strconv.ParseInt] in base 0 *)
  KeyInt : string -> option Z;
  (** [humanize.Bytes] *)
  humanizeBytes : Z -> string
}.

(** ** internal/config: the parsed tunnel definition *)

Module Config.

Record InterfaceConfig := {
  PrivateKey : string;
  Address : string;
  DNS : string
}.

Record PeerConfig := {
  PublicKey : string;
  AllowedIPs : list string;
  Endpoint : string;
  PersistentKeepalive : Z
}.

Record WireguardConfig := {
  Interface : InterfaceConfig;
  Peer : PeerConfig
}.

End Config.

(** ** internal/wireguard/config.go *)

Module Ini.

(** A loaded file: its sections by name, each with its keys. *)
Definition Section := list (string * string).
Definition File := list (string * Section).

Fixpoint lookup {A} (k : string) (l : list (string * A)) : option A :=
  match l with
  | [] => None
  | (k', v) :: l' => if String.eqb k k' then Some v else lookup k l'
  end.

(** [cfg.Section(name)]: a section that is absent reads as an empty one. *)
Definition GetSection (f : File) (name : string) : Section :=
  match lookup name f with
  | Some s => s
  | None => []
  end.

(** [section.Key(name).String()]: a key that is absent reads as "". *)
Definition KeyString (s : Section) (name : string) : string :=
  match lookup name s with
  | Some v => v
  | None => EmptyString
  end.

(** [section.Key(name).MustInt(d)] *)
Definition MustInt `{Lib} (s : Section) (name : string) (d : Z) : Z :=
  match KeyInt (KeyString s name) with
  | Some v => v
  | None => d
  end.

End Ini.

Module ParseCfg.
Import Config Ini GoStrings.

(** [ParseConfig], given what [ini.Load(path)] returned. *)
Definition ParseConfig `{Lib} (loaded : result Ini.File)
  : result (WireguardConfig * string) :=
  match loaded with
  | Err e => Err ("failed to load config: " ++ e)
  | Ok cfg =>
      let configID := KeyString (GetSection cfg "portmap") "config_id" in
      if String.eqb configID "" then
        Err "config_id not found in [portmap] section"
      else
        let interfaceSection := GetSection cfg "Interface" in
        let privateKey := KeyString interfaceSection "PrivateKey" in
        let address := KeyString interfaceSection "Address" in
        let dns := KeyString interfaceSection "DNS" in
        let peerSection := GetSection cfg "Peer" in
        let publicKey := KeyString peerSection "PublicKey" in
        let allowedIPs := Split (KeyString peerSection "AllowedIPs") ","%char in
        let endpoint := KeyString peerSection "Endpoint" in
        let keepalive := MustInt peerSection "PersistentKeepalive" 25 in
        if String.eqb privateKey "" then Err "missing private key"
        else if String.eqb address "" then Err "missing interface address"
        else if String.eqb publicKey "" then Err "missing peer public key"
        else if String.eqb endpoint "" then Err "missing peer endpoint"
        else if (List.length allowedIPs =? 0)%nat then Err "missing allowed IPs"
        else
          Ok ({| Interface := {| PrivateKey := privateKey;
                                 Address := address;
                                 DNS := dns |};
                 Peer := {| PublicKey := publicKey;
                            AllowedIPs := allowedIPs;
                            Endpoint := endpoint;
                            PersistentKeepalive := keepalive |} |},
              configID)
  end.

End ParseCfg.

(** ** The world outside the process

    Device calls, sub-processes and terminal output are recorded, in order, in
    a trace; what each call answers is given by the environment. *)

Module World.

Inductive Event : Type :=
| EvCreateTUN (name : string) (mtu : Z)  (* tun.CreateTUN *)
| EvTunName                              (* tunDevice.Name *)
| EvNewDevice                            (* device.NewDevice *)
| EvIpcSet (uapi : string)               (* dev.IpcSet *)
| EvUp                                   (* dev.Up *)
| EvClose                                (* dev.Close *)
| EvIpcGet                               (* dev.IpcGet *)
| EvExec (argv : list string)            (* exec.Command(...) run to its end *)
| EvPrint (text : string)                (* fmt.Print, Printf, Println *)
| EvExit (code : Z).                     (* os.Exit *)

Definition Trace := list Event.

Record Env := {
  GOOS : string;                                   (* runtime.GOOS *)
  CreateTUN_result : string -> Z -> error;
  TunName_result : string -> result string;        (* by requested name *)
  IpcSet_result : string -> error;
  Up_result : error;
  IpcGet_result : Trace -> result string;
  Exec_result : Trace -> list string -> string * error  (* combined output *)
}.

(** How a computation ends: with a value, in a run-time panic, or with the
    process gone through [os.Exit]. *)
Inductive outcome (A : Type) : Type :=
| Val (a : A)
| Panic (msg : string)
| Exited (code : Z).
Arguments Val {A} a.
Arguments Panic {A} msg.
Arguments Exited {A} code.

Definition M (A : Type) : Type := Trace -> outcome A * Trace.

Definition ret {A} (a : A) : M A := fun t => (Val a, t).

Definition bind {A B} (m : M A) (k : A -> M B) : M B :=
  fun t =>
    match m t with
    | (Val a, t') => k a t'
    | (Panic msg, t') => (Panic msg, t')
    | (Exited c, t') => (Exited c, t')
    end.

Definition emit (e : Event) : M unit := fun t => (Val tt, (t ++ [e])%list).

Definition panic {A} (msg : string) : M A := fun t => (Panic msg, t).

(** [os.Exit] *)
Definition exit {A} (code : Z) : M A :=
  fun t => (Exited code, (t ++ [EvExit code])%list).

(** [cmd.CombinedOutput()] (and [cmd.Run()], which drops the output) *)
Definition exec (env : Env) (argv : list string) : M (string * error) :=
  fun t => (Val (Exec_result env t argv), (t ++ [EvExec argv])%list).

(** [dev.IpcGet()] *)
Definition ipcGet (env : Env) : M (result string) :=
  fun t => (Val (IpcGet_result env t), (t ++ [EvIpcGet])%list).

Definition print (s : string) : M unit := emit (EvPrint s).

(** [s[i]] on a slice: out of range is a run-time panic. *)
Definition index {A} (s : list A) (i : nat) : M A :=
  match nth_error s i with
  | Some a => ret a
  | None => panic "index out of range"
  end.

(** The events a computation adds to an empty trace, and its outcome. *)
Definition run {A} (m : M A) : outcome A * Trace := m [].

End World.

Declare Scope go_scope.
Delimit Scope go_scope with go.
Notation "x <- m ;; k" := (World.bind m (fun x => k))
  (at level 61, m at next level, right associativity) : go_scope.
Notation "' pat <- m ;; k" := (World.bind m (fun x => match x with pat => k end))
  (at level 61, pat pattern, m at next level, right associativity) : go_scope.
Notation "m ;;; k" := (World.bind m (fun _ => k))
  (at level 61, right associativity) : go_scope.

(** ** internal/wireguard/setup.go *)

Module Wireguard.
Import Config GoStrings World.
Local Open Scope go_scope.

(** [device.DefaultMTU] of wireguard-go *)
Definition DefaultMTU : Z := 1420.

(** A [*device.Device]: the device built on the tunnel of that name. *)
Record Device := { tun : string }.

Record Manager := {
  config : WireguardConfig;
  device : option Device;       (* [None] is the nil pointer *)
  interfaceName : string
}.

Definition NewManager (cfg : WireguardConfig) : Manager :=
  {| config := cfg; device := None; interfaceName := "" |}.

Definition getTunnelName (env : Env) : string :=
  if String.eqb (GOOS env) "darwin" then "utun"
  else if String.eqb (GOOS env) "windows" then "wg0"
  else "wg0".

Definition convertKey (b64Key : string) : result string :=
  let b64Key := TrimSpace b64Key in
  match Base64.DecodeString b64Key with
  | Base64.CorruptInputError n =>
      Err ("failed to decode base64 key: " ++ Base64.errorText n)
  | Base64.Decoded keyBytes => Ok (Hex.EncodeToString keyBytes)
  end.

(** The text handed to [IpcSet]. *)
Definition uapiConfig (privateKey publicKey endpoint allowedIP : string)
    (keepalive : Z) : string :=
  "private_key=" ++ privateKey ++ nl ++
  "public_key=" ++ publicKey ++ nl ++
  "endpoint=" ++ endpoint ++ nl ++
  "allowed_ip=" ++ allowedIP ++ nl ++
  "persistent_keepalive_interval=" ++ Strconv.Itoa keepalive ++ nl.

(** The bind and the logger that the source builds before the device have
    no effect of their own and are left out.  The source calls [dev.Up()]
    as a statement: what it returns is dropped. *)
Definition setupWireguardDevice (env : Env) (m : Manager)
  : M (result (Device * string)) :=
  let tunnelName := getTunnelName env in
  emit (EvCreateTUN tunnelName DefaultMTU) ;;;
  match CreateTUN_result env tunnelName DefaultMTU with
  | Some err =>
      ret (Err ("failed to create TUN device on " ++ GOOS env ++ ": " ++ err))
  | None =>
      emit EvTunName ;;;
      match TunName_result env tunnelName with
      | Err err => ret (Err ("failed to get interface name: " ++ err))
      | Ok actualName =>
          emit EvNewDevice ;;;
          let dev := {| tun := actualName |} in
          match convertKey (PrivateKey (Interface (config m))) with
          | Err err => ret (Err ("invalid private key: " ++ err))
          | Ok privateKey =>
              match convertKey (PublicKey (Peer (config m))) with
              | Err err => ret (Err ("invalid public key: " ++ err))
              | Ok publicKey =>
                  allowed0 <- index (AllowedIPs (Peer (config m))) 0 ;;
                  let uapi :=
                    uapiConfig privateKey publicKey
                      (TrimSpace (Endpoint (Peer (config m))))
                      (TrimSpace allowed0)
                      (PersistentKeepalive (Peer (config m))) in
                  emit (EvIpcSet uapi) ;;;
                  match IpcSet_result env uapi with
                  | Some err =>
                      ret (Err ("failed to configure device: " ++ err))
                  | None =>
                      emit EvUp ;;;
                      ret (Ok (dev, actualName))
                  end
              end
          end
      end
  end.

(** ["%d.%d.%d.%d"] of the first four bytes of a mask *)
Definition maskString (mask : Net.IPMask) : M string :=
  m0 <- index mask 0 ;;
  m1 <- index mask 1 ;;
  m2 <- index mask 2 ;;
  m3 <- index mask 3 ;;
  ret (Strconv.Itoa m0 ++ "." ++ Strconv.Itoa m1 ++ "."
       ++ Strconv.Itoa m2 ++ "." ++ Strconv.Itoa m3).

(** The text of the error of [net.ParseCIDR] *)
Definition cidrError (s : string) : string := "invalid CIDR address: " ++ s.

Definition configureIPAddress `{Lib} (env : Env) (m : Manager) : M error :=
  let address := Address (Interface (config m)) in
  match ParseCIDR address with
  | None => ret (Some ("invalid IP address format: " ++ cidrError address))
  | Some (ip, ipNet) =>
      if String.eqb (GOOS env) "darwin" then
        let peerIP := ip in
        maskStr <- maskString (Net.Mask ipNet) ;;
        '(out, err) <- exec env ["ifconfig"; interfaceName m; "inet";
                                 IPString ip; IPString peerIP;
                                 "netmask"; maskStr] ;;
        match err with
        | Some e => ret (Some ("failed to set IP address: " ++ e ++ ": " ++ out))
        | None => ret None
        end
      else if String.eqb (GOOS env) "linux" then
        '(out, err) <- exec env ["ip"; "link"; "set"; interfaceName m; "up"] ;;
        match err with
        | Some e => ret (Some ("failed to bring up interface: " ++ e ++ ": " ++ out))
        | None =>
            '(out, err) <- exec env ["ip"; "addr"; "add"; "dev";
                                     interfaceName m; address] ;;
            match err with
            | Some e => ret (Some ("failed to set IP address: " ++ e ++ ": " ++ out))
            | None => ret None
            end
        end
      else if String.eqb (GOOS env) "windows" then
        maskStr <- maskString (Net.Mask ipNet) ;;
        '(out, err) <- exec env ["netsh"; "interface"; "ip"; "set"; "address";
                                 interfaceName m; "static"; IPString ip; maskStr] ;;
        match err with
        | Some e => ret (Some ("failed to set IP address: " ++ e ++ ": " ++ out))
        | None => ret None
        end
      else ret None
  end.

(** isValidIP checks if the given string is a valid IP/CIDR *)
Definition isValidIP `{Lib} (ipStr : string) : bool :=
  match ParseCIDR ipStr with
  | Some _ => true
  | None => match ParseIP ipStr with Some _ => true | None => false end
  end.

Definition isDigit (c : ascii) : bool :=
  let n := nat_of_ascii c in ((48 <=? n)%nat && (n <=? 57)%nat)%bool.

Fixpoint allDigits (s : string) : bool :=
  match s with
  | EmptyString => true
  | String c s' => isDigit c && allDigits s'
  end.

(** One alternative of the pattern: the prefix, then one digit or more up
    to the end of the text. *)
Definition matchPrefixDigits (prefix name : string) : bool :=
  HasPrefix name prefix &&
  let rest := drop (String.length prefix) name in
  negb (String.eqb rest "") && allDigits rest.

(** isValidInterfaceName: the pattern [^(utun|wg|tun)[0-9]+$] *)
Definition isValidInterfaceName (name : string) : bool :=
  matchPrefixDigits "utun" name
  || matchPrefixDigits "wg" name
  || matchPrefixDigits "tun" name.

(** The index column of the first line of the interface listing that
    contains the name and has a field at all; "" when there is none. *)
Fixpoint findIndex (lines : list string) (name : string) : string :=
  match lines with
  | [] => ""
  | line :: rest =>
      if Contains line name then
        match Fields line with
        | idx :: _ => idx
        | [] => findIndex rest name
        end
      else findIndex rest name
  end.

(** [strings.Split(s, "/")[0]]; a split is never empty. *)
Definition beforeSlash (s : string) : string :=
  match Split s "/"%char with
  | x :: _ => x
  | [] => ""
  end.

(** The body of the loop of [addRoutes], for one allowed range. *)
Definition addRoutes_body `{Lib} (env : Env) (m : Manager) (allowedIP : string)
  : M error :=
  if negb (isValidIP allowedIP) then
    ret (Some ("invalid IP address: " ++ allowedIP))
  else if negb (isValidInterfaceName (interfaceName m)) then
    ret (Some ("invalid interface name: " ++ interfaceName m))
  else if String.eqb (GOOS env) "darwin" then
    '(out, err) <- exec env ["route"; "add"; "-net"; allowedIP;
                             "-interface"; interfaceName m] ;;
    match err with
    | Some e => ret (Some ("failed to add route " ++ allowedIP ++ ": " ++ e ++ ": " ++ out))
    | None => ret None
    end
  else if String.eqb (GOOS env) "linux" then
    '(out, err) <- exec env ["ip"; "route"; "add"; allowedIP;
                             "dev"; interfaceName m] ;;
    match err with
    | Some e => ret (Some ("failed to add route " ++ allowedIP ++ ": " ++ e ++ ": " ++ out))
    | None => ret None
    end
  else if String.eqb (GOOS env) "windows" then
    '(output, err) <- exec env ["netsh"; "interface"; "ipv4"; "show"; "interfaces"] ;;
    match err with
    | Some e => ret (Some ("failed to get interface index: " ++ e ++ ": " ++ output))
    | None =>
        let lines := Split output LF in
        let idx := findIndex lines (interfaceName m) in
        if String.eqb idx "" then
          ret (Some ("could not find interface index for " ++ interfaceName m))
        else
          match ParseCIDR allowedIP with
          | None => ret (Some ("invalid CIDR format: " ++ cidrError allowedIP))
          | Some (_, ipNet) =>
              let network := IPString (Net.IPNet_IP ipNet) in
              let mask := IPString (Net.Mask ipNet) in
              let gateway := beforeSlash (Address (Interface (config m))) in
              '(out, err) <- exec env ["route"; "add"; network; "mask"; mask;
                                       gateway; "metric"; "1"; "IF"; idx] ;;
              match err with
              | Some e => ret (Some ("failed to add route " ++ allowedIP ++ ": " ++ e ++ ": " ++ out))
              | None => ret None
              end
          end
    end
  else ret None.

(** The loop over the allowed ranges: the first error ends it. *)
Fixpoint addRoutes_loop `{Lib} (env : Env) (m : Manager) (ips : list string)
  : M error :=
  match ips with
  | [] => ret None
  | allowedIP :: rest =>
      err <- addRoutes_body env m allowedIP ;;
      match err with
      | Some e => ret (Some e)
      | None => addRoutes_loop env m rest
      end
  end.

Definition addRoutes `{Lib} (env : Env) (m : Manager) : M error :=
  addRoutes_loop env m (AllowedIPs (Peer (config m))).

(** [Setup] stores the device and the name in the manager, which it has by
    pointer: the manager as it is left comes back with the error. *)
Definition Setup `{Lib} (env : Env) (m : Manager) : M (Manager * error) :=
  r <- setupWireguardDevice env m ;;
  match r with
  | Err err => ret (m, Some err)
  | Ok (dev, name) =>
      let m := {| config := config m; device := Some dev; interfaceName := name |} in
      err <- configureIPAddress env m ;;
      match err with
      | Some e => ret (m, Some e)
      | None =>
          err <- addRoutes env m ;;
          match err with
          | Some e => ret (m, Some e)
          | None => ret (m, None)
          end
      end
  end.

Definition Cleanup (env : Env) (m : Manager) : M unit :=
  match device m with
  | Some _ => emit EvClose
  | None => ret tt
  end ;;;
  if String.eqb (GOOS env) "darwin" then
    exec env ["ifconfig"; interfaceName m; "down"] ;;; ret tt
  else if String.eqb (GOOS env) "linux" then
    exec env ["ip"; "link"; "del"; interfaceName m] ;;; ret tt
  else if String.eqb (GOOS env) "windows" then
    exec env ["netsh"; "interface"; "delete"; interfaceName m] ;;; ret tt
  else ret tt.

(** One line of the status text, on the counters read so far: the value of
    [ParseUint] is stored and its error dropped. *)
Definition statsLine (acc : Z * Z) (line : string) : Z * Z :=
  let '(rx, tx) := acc in
  if HasPrefix line "rx_bytes=" then
    (fst (Strconv.ParseUint (TrimPrefix line "rx_bytes=")), tx)
  else if HasPrefix line "tx_bytes=" then
    (rx, fst (Strconv.ParseUint (TrimPrefix line "tx_bytes=")))
  else (rx, tx).

Definition parseStats (stats : string) : Z * Z :=
  fold_left statsLine (Split stats LF) (0, 0).

Definition GetTrafficStats (env : Env) (m : Manager) : M (Z * Z) :=
  match device m with
  | None => ret (0, 0)
  | Some _ =>
      r <- ipcGet env ;;
      match r with
      | Err _ => ret (0, 0)
      | Ok stats => ret (parseStats stats)
      end
  end.

Definition GetInterfaceName (m : Manager) : string := interfaceName m.

End Wireguard.

(** ** cmd/connect: the command, from the tunnel set-up on

    The lines before the set-up parse the configuration and ask the API for
    the mapping rules; the configuration, the server host name and the rule
    lines they leave are arguments here. *)

Module Connect.
Import Config GoStrings World Wireguard.
Local Open Scope go_scope.

Definition ESC : ascii := ascii_of_nat 27.

(** ["\033[2F\033[J"]: two lines up, then erase to the end of the screen *)
Definition clearTwoLines : string :=
  String ESC "[2F" ++ String ESC "[J".

Definition renderTraffic `{Lib} (rx tx : Z) : M unit :=
  print clearTwoLines ;;;
  print ("↓ " ++ humanizeBytes rx ++ " received" ++ nl) ;;;
  print ("↑ " ++ humanizeBytes tx ++ " sent" ++ nl).

(** What wakes the background task: its [select] has two cases. *)
Inductive Wake : Type := Signal | Tick.

(** The [ticker.C] case, on the last counters shown. *)
Definition onTick `{Lib} (env : Env) (serviceMode : bool)
    (mappingRules : list string) (mgr : Manager) (last : Z * Z) : M (Z * Z) :=
  let '(lastRx, lastTx) := last in
  if negb serviceMode && (0 <? List.length mappingRules)%nat then
    '(rxBytes, txBytes) <- GetTrafficStats env mgr ;;
    if negb (rxBytes =? lastRx) || negb (txBytes =? lastTx) then
      renderTraffic rxBytes txBytes ;;;
      ret (rxBytes, txBytes)
    else ret (lastRx, lastTx)
  else ret (lastRx, lastTx).

(** The [sigChan] case; the manager is never nil once set up. *)
Definition onSignal (env : Env) (serviceMode : bool) (mgr : Manager) : M unit :=
  (if negb serviceMode then print (nl ++ "⚡ Disconnecting..." ++ nl) else ret tt) ;;;
  Cleanup env mgr ;;;
  exit 0.

(** The background task over the wake-ups it gets, in order.  It starts
    with both counters at 0. *)
Fixpoint monitor `{Lib} (env : Env) (serviceMode : bool)
    (mappingRules : list string) (mgr : Manager) (wakes : list Wake)
    (last : Z * Z) : M (Z * Z) :=
  match wakes with
  | [] => ret last
  | Signal :: _ => onSignal env serviceMode mgr ;;; ret last
  | Tick :: rest =>
      last' <- onTick env serviceMode mappingRules mgr last ;;
      monitor env serviceMode mappingRules mgr rest last'
  end.

Fixpoint printRules (rules : list string) : M unit :=
  match rules with
  | [] => ret tt
  | rule :: rest => print (rule ++ nl) ;;; printRules rest
  end.

(** [RunE] from [NewManager] on.  [Some e] is the error it returns; while
    the wake-ups last it does not return. *)
Definition RunE `{Lib} (env : Env) (serviceMode : bool)
    (serverHostname : string) (mappingRules : list string)
    (cfg : WireguardConfig) (wakes : list Wake) : M error :=
  '(mgr, err) <- Setup env (NewManager cfg) ;;
  match err with
  | Some e => ret (Some e)
  | None =>
      print (nl ++ "✓ Connected to " ++ serverHostname ++ " via "
             ++ GetInterfaceName mgr ++ nl) ;;;
      (if negb serviceMode then
         print (nl ++ "Press Ctrl+C to disconnect" ++ nl) ;;;
         if (0 <? List.length mappingRules)%nat then
           print (nl ++ "✓ Available mapping rules:" ++ nl) ;;;
           printRules mappingRules ;;;
           print (nl ++ "↓ 0 B received" ++ nl) ;;;
           print ("↑ 0 B sent" ++ nl)
         else ret tt
       else ret tt) ;;;
      monitor env serviceMode mappingRules mgr wakes (0, 0) ;;;
      ret None
  end.

End Connect.

(** ** An instance of the libraries, for dotted-decimal IPv4 text

    The properties below hold for every [Lib].  To run the embedding on a
    concrete configuration the library functions are instantiated on IPv4
    text: four decimal octets, and for a CIDR a prefix length up to 32. *)

Module IPv4.
Import GoStrings.

(** One octet: one to three digits, no leading zero, at most 255. *)
Definition octet (s : string) : option Z :=
  if (String.length s =? 0)%nat || (3 <? String.length s)%nat then None
  else if HasPrefix s "0" && negb (String.eqb s "0") then None
  else match Strconv.digits s 0 with
       | Some v => if v <=? 255 then Some v else None
       | None => None
       end.

Definition parseIP (s : string) : option Net.IP :=
  match Split s "."%char with
  | [a; b; c; d] =>
      match octet a, octet b, octet c, octet d with
      | Some a, Some b, Some c, Some d => Some [a; b; c; d]
      | _, _, _, _ => None
      end
  | _ => None
  end.

(** The four bytes of the mask of a prefix length. *)
Definition cidrMask (ones : Z) : Net.IPMask :=
  let m := Z.shiftl (Z.ones ones) (32 - ones) in
  [Z.land (Z.shiftr m 24) 255; Z.land (Z.shiftr m 16) 255;
   Z.land (Z.shiftr m 8) 255; Z.land m 255].

Fixpoint maskIP (ip : Net.IP) (mask : Net.IPMask) : Net.IP :=
  match ip, mask with
  | a :: ip', m :: mask' => Z.land a m :: maskIP ip' mask'
  | _, _ => []
  end.

Definition parseCIDR (s : string) : option (Net.IP * Net.IPNet) :=
  match Split s "/"%char with
  | [addr; pfx] =>
      match parseIP addr, Strconv.digits pfx 0 with
      | Some ip, Some n =>
          if negb (String.eqb pfx "") && (n <=? 32) then
            let mask := cidrMask n in
            Some (ip, {| Net.IPNet_IP := maskIP ip mask; Net.Mask := mask |})
          else None
      | _, _ => None
      end
  | _ => None
  end.

Definition ipString (ip : Net.IP) : string :=
  match ip with
  | [a; b; c; d] =>
      Strconv.Itoa a ++ "." ++ Strconv.Itoa b ++ "."
      ++ Strconv.Itoa c ++ "." ++ Strconv.Itoa d
  | _ => "?"
  end.

(** Decimal integers with an optional sign. *)
Definition keyInt (s : string) : option Z :=
  match s with
  | EmptyString => None
  | String "-"%char (String c r) => option_map Z.opp (Strconv.digits (String c r) 0)
  | String "+"%char (String c r) => Strconv.digits (String c r) 0
  | _ => Strconv.digits s 0
  end.

(** The count in bytes, without the scaling to larger units. *)
Definition bytesText (n : Z) : string := Strconv.Itoa n ++ " B".

#[export] Instance lib : Lib := {|
  ParseCIDR := parseCIDR;
  ParseIP := parseIP;
  IPString := ipString;
  KeyInt := keyInt;
  humanizeBytes := bytesText
|}.

End IPv4.

(** ** Concrete configurations and environments *)

Module Examples.
Import Config GoStrings World Wireguard Connect.

(** The base64 text of thirty-two zero bytes. *)
Definition zeroKey : string := "AAAAAAAAAAAAAAAAAAAAAAAAAAAAAAAAAAAAAAAAAAA=".

Definition zeroHex : string :=
  "0000000000000000000000000000000000000000000000000000000000000000".

(** A configuration file with two allowed ranges. *)
Definition iniTwoRanges : Ini.File :=
  [ ("portmap", [("config_id", "42")]);
    ("Interface", [("PrivateKey", zeroKey); ("Address", "10.0.0.2/24")]);
    ("Peer", [("PublicKey", zeroKey);
              ("AllowedIPs", "10.0.0.0/24,10.0.1.0/24");
              ("Endpoint", "gw.example:51820")]) ].

Definition cfgTwoRanges : WireguardConfig :=
  {| Interface := {| PrivateKey := zeroKey; Address := "10.0.0.2/24"; DNS := "" |};
     Peer := {| PublicKey := zeroKey;
                AllowedIPs := ["10.0.0.0/24"; "10.0.1.0/24"];
                Endpoint := "gw.example:51820";
                PersistentKeepalive := 25 |} |}.

(** The file with its two ranges written with a space after the comma. *)
Definition iniSpacedRanges : Ini.File :=
  [ ("portmap", [("config_id", "42")]);
    ("Interface", [("PrivateKey", zeroKey); ("Address", "10.0.0.2/24")]);
    ("Peer", [("PublicKey", zeroKey);
              ("AllowedIPs", "10.0.0.0/24, 10.0.1.0/24");
              ("Endpoint", "gw.example:51820")]) ].

Definition cfgSpacedRanges : WireguardConfig :=
  {| Interface := {| PrivateKey := zeroKey; Address := "10.0.0.2/24"; DNS := "" |};
     Peer := {| PublicKey := zeroKey;
                AllowedIPs := ["10.0.0.0/24"; " 10.0.1.0/24"];
                Endpoint := "gw.example:51820";
                PersistentKeepalive := 25 |} |}.

(** The file with an endpoint value of two lines. *)
Definition iniEndpointTwoLines : Ini.File :=
  [ ("portmap", [("config_id", "42")]);
    ("Interface", [("PrivateKey", zeroKey); ("Address", "10.0.0.2/24")]);
    ("Peer", [("PublicKey", zeroKey);
              ("AllowedIPs", "10.0.0.0/24");
              ("Endpoint", "gw.example:51820" ++ nl ++ "allowed_ip=0.0.0.0/0")]) ].

Definition cfgEndpointTwoLines : WireguardConfig :=
  {| Interface := {| PrivateKey := zeroKey; Address := "10.0.0.2/24"; DNS := "" |};
     Peer := {| PublicKey := zeroKey;
                AllowedIPs := ["10.0.0.0/24"];
                Endpoint := "gw.example:51820" ++ nl ++ "allowed_ip=0.0.0.0/0";
                PersistentKeepalive := 25 |} |}.

(** The same file without the [AllowedIPs] key. *)
Definition iniNoAllowedIPs : Ini.File :=
  [ ("portmap", [("config_id", "42")]);
    ("Interface", [("PrivateKey", zeroKey); ("Address", "10.0.0.2/24")]);
    ("Peer", [("PublicKey", zeroKey); ("Endpoint", "gw.example:51820")]) ].

(** The same file with an address that is no CIDR. *)
Definition iniBadAddress : Ini.File :=
  [ ("portmap", [("config_id", "42")]);
    ("Interface", [("PrivateKey", zeroKey); ("Address", "not-a-cidr")]);
    ("Peer", [("PublicKey", zeroKey);
              ("AllowedIPs", "10.0.0.0/24");
              ("Endpoint", "gw.example:51820")]) ].

(** A configuration whose second range is malformed. *)
Definition cfgBadRange : WireguardConfig :=
  {| Interface := Interface cfgTwoRanges;
     Peer := {| PublicKey := zeroKey;
                AllowedIPs := ["10.0.0.0/24"; "bogus"; "10.0.2.0/24"];
                Endpoint := "gw.example:51820";
                PersistentKeepalive := 25 |} |}.

(** A configuration whose private key is no base64 text. *)
Definition cfgBadKey : WireguardConfig :=
  {| Interface := {| PrivateKey := "!!!"; Address := "10.0.0.2/24"; DNS := "" |};
     Peer := Peer cfgTwoRanges |}.

Definition statusText (rx tx : string) : string :=
  "private_key=" ++ zeroHex ++ nl ++ "listen_port=51820" ++ nl
  ++ "public_key=" ++ zeroHex ++ nl
  ++ "rx_bytes=" ++ rx ++ nl ++ "tx_bytes=" ++ tx ++ nl
  ++ "protocol_version=1" ++ nl.

(** Linux, where every device call and every command succeeds. *)
Definition envLinux : Env :=
  {| GOOS := "linux";
     CreateTUN_result := fun _ _ => None;
     TunName_result := fun name => Ok name;
     IpcSet_result := fun _ => None;
     Up_result := None;
     IpcGet_result := fun _ => Ok (statusText "100" "200");
     Exec_result := fun _ _ => ("", None) |}.

(** As [envLinux], but bringing the link up fails. *)
Definition envLinkUpFails : Env :=
  {| GOOS := "linux";
     CreateTUN_result := fun _ _ => None;
     TunName_result := fun name => Ok name;
     IpcSet_result := fun _ => None;
     Up_result := None;
     IpcGet_result := fun _ => Ok (statusText "100" "200");
     Exec_result := fun _ argv =>
       match argv with
       | "ip" :: "link" :: _ => ("RTNETLINK answers: Operation not permitted", Some "exit status 2")
       | _ => ("", None)
       end |}.

(** As [envLinux], but every [ip route add] fails. *)
Definition envRouteAddFails : Env :=
  {| GOOS := "linux";
     CreateTUN_result := fun _ _ => None;
     TunName_result := fun name => Ok name;
     IpcSet_result := fun _ => None;
     Up_result := None;
     IpcGet_result := fun _ => Ok (statusText "100" "200");
     Exec_result := fun _ argv =>
       match argv with
       | "ip" :: "route" :: _ => ("RTNETLINK answers: File exists", Some "exit status 2")
       | _ => ("", None)
       end |}.

(** As [envLinux], but bringing the device up fails. *)
Definition envUpFails : Env :=
  {| GOOS := "linux";
     CreateTUN_result := fun _ _ => None;
     TunName_result := fun name => Ok name;
     IpcSet_result := fun _ => None;
     Up_result := Some "unable to update bind";
     IpcGet_result := fun _ => Ok (statusText "100" "200");
     Exec_result := fun _ _ => ("", None) |}.

(** As [envLinux], but the tunnel comes back under a name of another form. *)
Definition envOddName : Env :=
  {| GOOS := "linux";
     CreateTUN_result := fun _ _ => None;
     TunName_result := fun _ => Ok "eth0";
     IpcSet_result := fun _ => None;
     Up_result := None;
     IpcGet_result := fun _ => Ok (statusText "100" "200");
     Exec_result := fun _ _ => ("", None) |}.

(** As [envLinux], with counters that grow with every status query made. *)
Definition countIpcGet (t : Trace) : nat :=
  List.length (filter (fun e => match e with EvIpcGet => true | _ => false end) t).

Definition envGrowing : Env :=
  {| GOOS := "linux";
     CreateTUN_result := fun _ _ => None;
     TunName_result := fun name => Ok name;
     IpcSet_result := fun _ => None;
     Up_result := None;
     IpcGet_result := fun t =>
       Ok (statusText (Strconv.Itoa (100 * Z.of_nat (S (countIpcGet t)))) "7");
     Exec_result := fun _ _ => ("", None) |}.

(** As [envLinux], with a status text whose receive counter is no number. *)
Definition envBadRx : Env :=
  {| GOOS := "linux";
     CreateTUN_result := fun _ _ => None;
     TunName_result := fun name => Ok name;
     IpcSet_result := fun _ => None;
     Up_result := None;
     IpcGet_result := fun _ => Ok ("rx_bytes=abc" ++ nl ++ "tx_bytes=5" ++ nl);
     Exec_result := fun _ _ => ("", None) |}.

(** A manager after a successful set-up on Linux. *)
Definition mgrUp (cfg : WireguardConfig) (name : string) : Manager :=
  {| config := cfg; device := Some {| tun := name |}; interfaceName := name |}.

End Examples.

(** ** cmd/connect: the command before the tunnel set-up

    What [json.Unmarshal] leaves in an [interface{}]: nil, a bool, a float64,
    a string, a slice or a map.  The float64 type and its [%0.f] format are
    taken as they come, as a type and a function. *)

Module Json.

#[local] Unset Elimination Schemes.
Inductive value (F : Type) : Type :=
| Null
| Bool (b : bool)
| Num (f : F)
| Str (s : string)
| Arr (items : list (value F))
| Obj (fields : list (string * value F)).
#[local] Set Elimination Schemes.
Arguments Null {F}.
Arguments Bool {F} b.
Arguments Num {F} f.
Arguments Str {F} s.
Arguments Arr {F} items.
Arguments Obj {F} fields.

(** [m[key]] on a map: a key that is absent reads as nil. *)
Definition get {F} (m : list (string * value F)) (key : string) : value F :=
  match Ini.lookup key m with
  | Some v => v
  | None => Null
  end.

End Json.

Module ConnectCmd.
Import Config GoStrings World Wireguard Json.
Local Open Scope go_scope.

(** [v.(string)] and [v.(float64)] without the second result: any other
    value is a run-time panic. *)
Definition mustString {F} (v : value F) : M string :=
  match v with
  | Str s => ret s
  | _ => panic "interface conversion: interface {} is not string"
  end.

Definition mustFloat {F} (v : value F) : M F :=
  match v with
  | Num f => ret f
  | _ => panic "interface conversion: interface {} is not float64"
  end.

(** What the command takes from outside before the tunnel: the file, the
    API, and the format of a port number. *)
Record Front (F : Type) := {
  ini_Load : string -> result Ini.File;                   (* ini.Load(path) *)
  ListMappings : string -> string -> result (value F);    (* by token and config_id *)
  fmt0f : F -> string                                     (* the verb %0.f *)
}.
Arguments ini_Load {F} _ _.
Arguments ListMappings {F} _ _ _.
Arguments fmt0f {F} _ _.

(** The host name shown for the region of the first mapping. *)
Definition hostnameOfRegion (region : string) : string :=
  if negb (String.eqb region "") && negb (String.eqb region "default")
  then region ++ ".portmap.io"
  else "portmap.io".

(** The loop over the items of the answer: an item that is a map gives one
    rule line, any other item is passed over. *)
Fixpoint rulesLoop {F} (front : Front F) (localAddress : string)
    (items : list (value F)) (mappingRules : list string) : M (list string) :=
  match items with
  | [] => ret mappingRules
  | item :: rest =>
      match item with
      | Obj mapping =>
          hostname <- mustString (get mapping "hostname") ;;
          protocol <- mustString (get mapping "protocol") ;;
          portFrom <- mustFloat (get mapping "port_from") ;;
          portTo <- mustFloat (get mapping "port_to") ;;
          let proxyToHTTP :=
            match get mapping "proxy_to_http" with
            | Bool b => b
            | _ => false
            end in
          let protocolTo :=
            if String.eqb protocol "https" && proxyToHTTP then "http" else protocol in
          rulesLoop front localAddress rest
            (mappingRules ++
             [("  • " ++ protocol ++ "://" ++ hostname ++ ":" ++ fmt0f front portFrom
               ++ " => " ++ protocolTo ++ "://" ++ localAddress ++ ":"
               ++ fmt0f front portTo)%string])%list
      | _ => rulesLoop front localAddress rest mappingRules
      end
  end.

(** The host name of the server and the rule lines, from the answer of the
    API.  Both start empty and stay so unless the answer is a map whose
    "data" is a slice with a first item that is a map. *)
Definition deriveRules {F} (front : Front F) (config : WireguardConfig)
    (mappings : value F) : M (string * list string) :=
  match mappings with
  | Obj response =>
      match get response "data" with
      | Arr (first :: others) =>
          match first with
          | Obj mapping =>
              let serverHostname :=
                match get mapping "config" with
                | Obj cfg =>
                    hostnameOfRegion
                      (match get cfg "region" with Str region => region | _ => "" end)
                | _ => ""
                end in
              let localAddress := beforeSlash (Address (Interface config)) in
              mappingRules <- rulesLoop front localAddress (first :: others) [] ;;
              ret (serverHostname, mappingRules)
          | _ => ret ("", [])
          end
      | _ => ret ("", [])
      end
  | _ => ret ("", [])
  end.

(** [RunE] as a whole; the switch of the console to escape sequences, which
    comes first and touches neither device nor commands, is left out. *)
Definition RunE_whole `{Lib} {F} (front : Front F) (env : Env)
    (serviceMode : bool) (token : string) (args : list string)
    (wakes : list Connect.Wake) : M error :=
  match args with
  | [path] =>
      match ParseCfg.ParseConfig (ini_Load front path) with
      | Err err => ret (Some err)
      | Ok (config, configID) =>
          match ListMappings front token configID with
          | Err err => ret (Some err)
          | Ok mappings =>
              '(serverHostname, mappingRules) <- deriveRules front config mappings ;;
              Connect.RunE env serviceMode serverHostname mappingRules config wakes
          end
      end
  | _ => ret (Some "config file path required")
  end.

End ConnectCmd.

(** ** The pattern of interface names

    Regular expressions with their derivatives; a text matches when the
    derivative by all of its bytes accepts the empty text.  The pattern of
    the source is anchored at both ends, so that it is the whole text that
    has to match. *)

Module Regexp.

Inductive re : Type :=
| Nothing
| Eps
| Range (lo hi : ascii)
| Cat (r1 r2 : re)
| Alt (r1 r2 : re)
| Star (r : re).

Definition inRange (lo hi c : ascii) : bool :=
  ((nat_of_ascii lo <=? nat_of_ascii c)%nat && (nat_of_ascii c <=? nat_of_ascii hi)%nat)%bool.

Fixpoint nullable (r : re) : bool :=
  match r with
  | Nothing => false
  | Eps => true
  | Range _ _ => false
  | Cat r1 r2 => nullable r1 && nullable r2
  | Alt r1 r2 => nullable r1 || nullable r2
  | Star _ => true
  end.

Fixpoint deriv (c : ascii) (r : re) : re :=
  match r with
  | Nothing => Nothing
  | Eps => Nothing
  | Range lo hi => if inRange lo hi c then Eps else Nothing
  | Cat r1 r2 =>
      if nullable r1 then Alt (Cat (deriv c r1) r2) (deriv c r2)
      else Cat (deriv c r1) r2
  | Alt r1 r2 => Alt (deriv c r1) (deriv c r2)
  | Star r1 => Cat (deriv c r1) (Star r1)
  end.

Fixpoint matches (r : re) (s : string) : bool :=
  match s with
  | EmptyString => nullable r
  | String c s' => matches (deriv c r) s'
  end.

(** The text itself, byte by byte. *)
Fixpoint lit (s : string) : re :=
  match s with
  | EmptyString => Eps
  | String c s' => Cat (Range c c) (lit s')
  end.

(** [^(utun|wg|tun)[0-9]+$] *)
Definition interfaceNamePattern : re :=
  Cat (Alt (Alt (lit "utun") (lit "wg")) (lit "tun"))
      (Cat (Range "0" "9") (Star (Range "0" "9"))).

End Regexp.

(** ** More concrete environments and answers of the API *)

Module MoreExamples.
Import Config GoStrings World Wireguard Json ConnectCmd.

(** A platform with no commands of its own. *)
Definition envFreeBSD : Env :=
  {| GOOS := "freebsd";
     CreateTUN_result := fun _ _ => None;
     TunName_result := fun name => Ok name;
     IpcSet_result := fun _ => None;
     Up_result := None;
     IpcGet_result := fun _ => Ok (Examples.statusText "100" "200");
     Exec_result := fun _ _ => ("", None) |}.

(** Windows, where the interface listing does not show the tunnel. *)
Definition envWindowsNoListing : Env :=
  {| GOOS := "windows";
     CreateTUN_result := fun _ _ => None;
     TunName_result := fun name => Ok name;
     IpcSet_result := fun _ => None;
     Up_result := None;
     IpcGet_result := fun _ => Ok (Examples.statusText "100" "200");
     Exec_result := fun _ _ =>
       ("Idx  Met  MTU  State  Name" ++ nl ++ "  1   75  4294967295  connected  Loopback" ++ nl,
        None) |}.

(** Two mappings, the first with the region of its configuration, and
    between them an item that is no map. *)
Definition twoMappings : value Z :=
  Obj [("data",
        Arr [Obj [("hostname", Str "app.portmap.io");
                  ("protocol", Str "https");
                  ("port_from", Num 443);
                  ("port_to", Num 8080);
                  ("proxy_to_http", Bool true);
                  ("config", Obj [("region", Str "fra1")])];
             Str "stray";
             Obj [("hostname", Str "db.portmap.io");
                  ("protocol", Str "tcp");
                  ("port_from", Num 5432);
                  ("port_to", Num 5432)]])].

(** An answer whose second mapping has no host name. *)
Definition brokenMappings : value Z :=
  Obj [("data",
        Arr [Obj [("hostname", Str "app.portmap.io");
                  ("protocol", Str "https");
                  ("port_from", Num 443);
                  ("port_to", Num 8080)];
             Obj [("protocol", Str "tcp");
                  ("port_from", Num 5432);
                  ("port_to", Num 5432)]])].

(** An answer whose first item is no map, with a mapping after it. *)
Definition strayFirst : value Z :=
  Obj [("data",
        Arr [Str "stray";
             Obj [("hostname", Str "db.portmap.io");
                  ("protocol", Str "tcp");
                  ("port_from", Num 5432);
                  ("port_to", Num 5432)]])].

(** The file of the example on disk, and an API that answers [answer]. *)
Definition frontWith (answer : result (value Z)) : Front Z :=
  {| ini_Load := fun path =>
       if String.eqb path "wg.conf" then Ok Examples.iniTwoRanges
       else Err ("open " ++ path ++ ": no such file or directory");
     ListMappings := fun _ _ => answer;
     fmt0f := Strconv.Itoa |}.

(** Windows, where the interface listing shows the tunnel after another
    interface whose name contains the name of the tunnel. *)
Definition envWindows : Env :=
  {| GOOS := "windows";
     CreateTUN_result := fun _ _ => None;
     TunName_result := fun name => Ok name;
     IpcSet_result := fun _ => None;
     Up_result := None;
     IpcGet_result := fun _ => Ok (Examples.statusText "100" "200");
     Exec_result := fun _ argv =>
       match argv with
       | "netsh" :: "interface" :: "ipv4" :: _ =>
           ("Idx  Met  MTU  State  Name" ++ nl
            ++ "  1   75  4294967295  connected  Loopback" ++ nl
            ++ " 17    5  1420  connected  wg01" ++ nl
            ++ " 23    5  1420  connected  wg0" ++ nl, None)
       | _ => ("", None)
       end |}.

End MoreExamples.

(** ** The request for the mappings *)

Module Api.

(** The loop of [ListMappings] over the parameters, in the order in which it
    meets them: an entry with an empty value adds nothing to the query. *)
Fixpoint queryLoop (params : list (string * string)) (query : list string)
  : list string :=
  match params with
  | [] => query
  | (k, v) :: rest =>
      queryLoop rest
        (if negb (String.eqb v "") then (query ++ [(k ++ "=" ++ v)%string])%list
         else query)
  end.

(** The path [ListMappings] asks [get] for. *)
Definition ListMappings_path (params : list (string * string)) : string :=
  let url := "/mappings" in
  if (0 <? List.length params)%nat then
    let query := queryLoop params [] in
    if (0 <? List.length query)%nat then url ++ "?" ++ String.concat "&" query
    else url
  else url.

(** The parameters the connect command passes. *)
Definition connectParams (configID : string) : list (string * string) :=
  [("config_id", configID)].

End Api.

(** ** Notions the properties are stated with *)

Import Config GoStrings World Wireguard Connect.
Local Open Scope go_scope.

(** [adds P m]: from any trace, [m] leaves that trace extended by events that
    all satisfy [P]. *)
Definition adds {A} (P : Event -> Prop) (m : M A) : Prop :=
  forall t, exists evs, snd (m t) = (t ++ evs)%list /\ Forall P evs.

Definition notClose (e : Event) : Prop := e <> EvClose.

Definition isClose (e : Event) : bool :=
  match e with EvClose => true | _ => false end.

(** The number of teardown calls on the device in a trace. *)
Definition closes (tr : Trace) : nat := List.length (filter isClose tr).

(** The three writes that redraw the two traffic lines in place: the bytes
    ESC [ 2 F (the cursor to the start of the line two lines up) and
    ESC [ J (erase from the cursor to the end of the screen), then the two
    lines. *)
Definition renderEvents `{Lib} (rx tx : Z) : Trace :=
  [EvPrint (String "027"%char "[2F" ++ String "027"%char "[J");
   EvPrint ("↓ " ++ humanizeBytes rx ++ " received" ++ nl);
   EvPrint ("↑ " ++ humanizeBytes tx ++ " sent" ++ nl)].

(** The guard of the ticker case: whether a tick takes a traffic sample. *)
Definition samplesOnTick (serviceMode : bool) (mappingRules : list string) : bool :=
  negb serviceMode && (0 <? List.length mappingRules)%nat.

(** What a tick writes for a sample, against the sample before it. *)
Definition redraw `{Lib} (before now : Z * Z) : Trace :=
  if (fst now =? fst before) && (snd now =? snd before) then []
  else renderEvents (fst now) (snd now).

(** What follows the prefix [p] on the last of the lines that start with it. *)
Fixpoint lastLine (p : string) (lines : list string) : option string :=
  match lines with
  | [] => None
  | l :: rest =>
      match lastLine p rest with
      | Some s => Some s
      | None => if HasPrefix l p then Some (drop (String.length p) l) else None
      end
  end.

(** A counter of the status text, as the specification words it: the value
    of the last line that carries it, and 0 when no line does. *)
Definition counter (p : string) (lines : list string) : Z :=
  match lastLine p lines with
  | Some s => fst (Strconv.ParseUint s)
  | None => 0
  end.

(** No line feed inside the text. *)
Fixpoint noLF (s : string) : bool :=
  match s with
  | EmptyString => true
  | String c s' => negb (Ascii.eqb c LF) && noLF s'
  end.

(** The character of a six-bit value in the standard alphabet. *)
Definition encodeMap (i : Z) : ascii :=
  ascii_of_nat (Z.to_nat (if i <? 26 then 65 + i
                          else if i <? 52 then 71 + i
                          else if i <? 62 then i - 4
                          else if i =? 62 then 43 else 47)).

(** The standard base64 encoding with padding, in which key material is
    configured: three bytes to four characters. *)
Fixpoint stdEncode (bs : list Z) : list ascii :=
  match bs with
  | [] => []
  | [a] =>
      [encodeMap (Z.shiftr a 2);
       encodeMap (Z.shiftl (Z.land a 3) 4);
       "="%char; "="%char]
  | [a; b] =>
      [encodeMap (Z.shiftr a 2);
       encodeMap (Z.lor (Z.shiftl (Z.land a 3) 4) (Z.shiftr b 4));
       encodeMap (Z.shiftl (Z.land b 15) 2);
       "="%char]
  | a :: b :: c :: rest =>
      encodeMap (Z.shiftr a 2)
      :: encodeMap (Z.lor (Z.shiftl (Z.land a 3) 4) (Z.shiftr b 4))
      :: encodeMap (Z.lor (Z.shiftl (Z.land b 15) 2) (Z.shiftr c 6))
      :: encodeMap (Z.land c 63)
      :: stdEncode rest
  end.

Definition isByte (b : Z) : Prop := 0 <= b < 256.

(** A character of base64 text: of the alphabet, or the padding. *)
Definition isBase64Char (c : ascii) : bool :=
  match Base64.decodeMap c with
  | Some _ => true
  | None => Base64.isPad c
  end.

(** The runes with the Unicode property White_Space: U+0009 to U+000D,
    U+0020, U+0085, U+00A0, U+1680, U+2000 to U+200A, U+2028, U+2029,
    U+202F, U+205F and U+3000. *)
Definition whiteSpaceRunes : list Z :=
  [9; 10; 11; 12; 13; 32; 133; 160; 5760;
   8192; 8193; 8194; 8195; 8196; 8197; 8198; 8199; 8200; 8201; 8202;
   8232; 8233; 8239; 8287; 12288].

Definition chr (z : Z) : ascii := ascii_of_nat (Z.to_nat z).

(** The UTF-8 encoding of a rune. *)
Definition utf8 (r : Z) : list ascii :=
  if r <? 128 then [chr r]
  else if r <? 2048 then [chr (192 + r / 64); chr (128 + r mod 64)]
  else if r <? 65536 then
    [chr (224 + r / 4096); chr (128 + (r / 64) mod 64); chr (128 + r mod 64)]
  else
    [chr (240 + r / 262144); chr (128 + (r / 4096) mod 64);
     chr (128 + (r / 64) mod 64); chr (128 + r mod 64)].

(** The text of a sequence of runes. *)
Definition utf8Text (rs : list Z) : string :=
  string_of_list_ascii (flat_map utf8 rs).

(** A sequence of white-space runes. *)
Definition isWhiteSpace (rs : list Z) : Prop :=
  Forall (fun r => In r whiteSpaceRunes) rs.

Fixpoint startsWith (l p : list ascii) : bool :=
  match p, l with
  | [], _ => true
  | _ :: _, [] => false
  | a :: p', b :: l' => Ascii.eqb a b && startsWith l' p'
  end.

(** A text with no white-space rune at either end. *)
Definition trimmed (s : string) : bool :=
  let l := list_ascii_of_string s in
  forallb (fun r => negb (startsWith l (utf8 r))
                    && negb (startsWith (rev l) (rev (utf8 r))))
          whiteSpaceRunes.

(** Two lower-case hexadecimal digits per byte, the high one first. *)
Definition hexChar (d : Z) : ascii := chr (if d <? 10 then 48 + d else 87 + d).

Fixpoint hexText (bs : list Z) : string :=
  match bs with
  | [] => EmptyString
  | b :: bs' => String (hexChar (b / 16)) (String (hexChar (b mod 16)) (hexText bs'))
  end.

(** The lines of a configuration text that set an allowed range. *)
Definition allowedIPLines (uapi : string) : list string :=
  filter (fun l => HasPrefix l "allowed_ip=") (Split uapi LF).

(** A command that adds a route: [route add ...] or [ip route add ...]. *)
Definition isRouteAdd (e : Event) : bool :=
  match e with
  | EvExec ("route" :: "add" :: _) => true
  | EvExec ("ip" :: "route" :: "add" :: _) => true
  | _ => false
  end.

Definition routeAdds (tr : Trace) : nat := List.length (filter isRouteAdd tr).

(** The platforms with commands of their own. *)
Definition supported (goos : string) : Prop :=
  goos = "darwin" \/ goos = "linux" \/ goos = "windows".

(** The commands that install the route of one range: the route-add command
    of the platform and, on Windows, the interface listing before it. *)
Definition routeGroup `{Lib} (env : Env) (m : Manager) (ip : string) (g : Trace) : Prop :=
  (GOOS env = "darwin"
   /\ g = [EvExec ["route"; "add"; "-net"; ip; "-interface"; interfaceName m]])
  \/ (GOOS env = "linux"
      /\ g = [EvExec ["ip"; "route"; "add"; ip; "dev"; interfaceName m]])
  \/ (GOOS env = "windows"
      /\ exists addr ipNet idx,
           ParseCIDR ip = Some (addr, ipNet)
           /\ g = [EvExec ["netsh"; "interface"; "ipv4"; "show"; "interfaces"];
                   EvExec ["route"; "add"; IPString (Net.IPNet_IP ipNet);
                           "mask"; IPString (Net.Mask ipNet);
                           beforeSlash (Address (Interface (config m)));
                           "metric"; "1"; "IF"; idx]]).

(** Events that are a command run, and events that are none. *)
Definition isExec (e : Event) : Prop := exists argv, e = EvExec argv.
Definition notExec (e : Event) : Prop := forall argv, e <> EvExec argv.

(** What a tick may add: a status query or a write to the terminal. *)
Definition queryOrPrint (e : Event) : Prop := e = EvIpcGet \/ exists text, e = EvPrint text.

Definition isIpcGet (e : Event) : bool :=
  match e with EvIpcGet => true | _ => false end.

(** The number of status queries in a trace. *)
Definition statusQueries (tr : Trace) : nat := List.length (filter isIpcGet tr).

Definition notQuery (e : Event) : Prop := isIpcGet e = false.

(** The command with which [Cleanup] takes the interface down, by platform. *)
Definition cleanupCommand (env : Env) (m : Manager) : Trace :=
  if String.eqb (GOOS env) "darwin" then [EvExec ["ifconfig"; interfaceName m; "down"]]
  else if String.eqb (GOOS env) "linux" then [EvExec ["ip"; "link"; "del"; interfaceName m]]
  else if String.eqb (GOOS env) "windows" then
    [EvExec ["netsh"; "interface"; "delete"; interfaceName m]]
  else [].

(** What [Cleanup] adds to the trace. *)
Definition cleanupEvents (env : Env) (m : Manager) : Trace :=
  (match device m with Some _ => [EvClose] | None => [] end ++ cleanupCommand env m)%list.

(** A computation that does not end the process. *)
Definition noExit {A} (m : M A) : Prop := forall t c, fst (m t) <> Exited c.

(** The shapes of the items of an answer of the API. *)
Definition isStr {F} (v : Json.value F) : bool :=
  match v with Json.Str _ => true | _ => false end.

Definition isNum {F} (v : Json.value F) : bool :=
  match v with Json.Num _ => true | _ => false end.

Definition isObj {F} (v : Json.value F) : bool :=
  match v with Json.Obj _ => true | _ => false end.

(** An item that is a map has a text for its host name and protocol and a
    number for both of its ports; an item that is no map passes. *)
Definition completeMapping {F} (item : Json.value F) : bool :=
  match item with
  | Json.Obj m =>
      isStr (Json.get m "hostname") && isStr (Json.get m "protocol")
      && isNum (Json.get m "port_from") && isNum (Json.get m "port_to")
  | _ => true
  end.

(** The items the command goes through: those under "data", when the answer
    is a map, "data" a slice, and its first item a map. *)
Definition listedItems {F} (mappings : Json.value F) : list (Json.value F) :=
  match mappings with
  | Json.Obj response =>
      match Json.get response "data" with
      | Json.Arr (Json.Obj mapping :: others) => Json.Obj mapping :: others
      | _ => []
      end
  | _ => []
  end.

(** * Properties *)

(** ** The configuration parser *)

Lemma Split_not_nil (s : string) (sep : ascii) : Split s sep <> [].
Proof.
  destruct s as [|c s]; simpl; [discriminate|].
  destruct (Ascii.eqb c sep); [discriminate|].
  destruct (Split s sep); discriminate.
Qed.

Lemma Split_length_pos (s : string) (sep : ascii) :
  (List.length (Split s sep) =? 0)%nat = false.
Proof.
  pose proof (Split_not_nil s sep) as Hne.
  destruct (Split s sep); [contradiction|reflexivity].
Qed.

(** What [ParseConfig] answers on a loaded file, with the length test of the
    allowed ranges resolved: a split is never empty. *)
Lemma ParseConfig_loaded `{Lib} (f : Ini.File) :
  ParseCfg.ParseConfig (Ok f) =
  let configID := Ini.KeyString (Ini.GetSection f "portmap") "config_id" in
  let i := Ini.GetSection f "Interface" in
  let p := Ini.GetSection f "Peer" in
  if String.eqb configID "" then Err "config_id not found in [portmap] section"
  else if String.eqb (Ini.KeyString i "PrivateKey") "" then Err "missing private key"
  else if String.eqb (Ini.KeyString i "Address") "" then Err "missing interface address"
  else if String.eqb (Ini.KeyString p "PublicKey") "" then Err "missing peer public key"
  else if String.eqb (Ini.KeyString p "Endpoint") "" then Err "missing peer endpoint"
  else Ok ({| Interface := {| PrivateKey := Ini.KeyString i "PrivateKey";
                              Address := Ini.KeyString i "Address";
                              DNS := Ini.KeyString i "DNS" |};
              Peer := {| PublicKey := Ini.KeyString p "PublicKey";
                         AllowedIPs := Split (Ini.KeyString p "AllowedIPs") ","%char;
                         Endpoint := Ini.KeyString p "Endpoint";
                         PersistentKeepalive := Ini.MustInt p "PersistentKeepalive" 25 |} |},
           configID).
Proof.
  unfold ParseCfg.ParseConfig. cbv zeta.
  rewrite Split_length_pos. reflexivity.
Qed.

(** The error for missing allowed ranges is never the answer. *)
Lemma ParseConfig_never_missing_allowed `{Lib} (loaded : result Ini.File) :
  ParseCfg.ParseConfig loaded <> Err "missing allowed IPs".
Proof.
  destruct loaded as [f|e].
  - rewrite ParseConfig_loaded. cbv zeta.
    repeat match goal with
           | |- context [if ?b then _ else _] => destruct b
           end; discriminate.
  - simpl. intros Heq. inversion Heq.
Qed.

(** Every configuration the parser returns has a range list with an entry. *)
Lemma ParseConfig_allowed_not_nil `{Lib} (loaded : result Ini.File)
    (cfg : WireguardConfig) (id : string) :
  ParseCfg.ParseConfig loaded = Ok (cfg, id) ->
  AllowedIPs (Peer cfg) <> [].
Proof.
  destruct loaded as [f|e]; [|discriminate].
  rewrite ParseConfig_loaded. cbv zeta.
  repeat match goal with
         | |- context [if ?b then _ else _] => destruct b
         end; try discriminate.
  intros Heq. inversion Heq; subst. simpl. apply Split_not_nil.
Qed.

(** C5, at the failing input: a file with every required key but
    [AllowedIPs] is accepted, with the one-entry range list holding the empty
    string, where the claim asks for an error. *)
Theorem C5_absent_allowed_ips_is_accepted :
  @ParseCfg.ParseConfig IPv4.lib (Ok Examples.iniNoAllowedIPs) =
  Ok ({| Interface := {| PrivateKey := Examples.zeroKey;
                         Address := "10.0.0.2/24";
                         DNS := "" |};
         Peer := {| PublicKey := Examples.zeroKey;
                    AllowedIPs := [""];
                    Endpoint := "gw.example:51820";
                    PersistentKeepalive := 25 |} |}, "42").
Proof. reflexivity. Qed.

(** C7, against the claim as stated: a file whose interface address is the
    non-empty text "not-a-cidr", which is no CIDR, is parsed without error. *)
Lemma C7_counterexample :
  exists cfg id,
    @ParseCfg.ParseConfig IPv4.lib (Ok Examples.iniBadAddress) = Ok (cfg, id)
    /\ Address (Interface cfg) = "not-a-cidr"
    /\ @ParseCIDR IPv4.lib "not-a-cidr" = None.
Proof. do 2 eexists. repeat split; reflexivity. Qed.

(** C7, amended: the parser tests the interface address for presence only.
    A configuration it returns has a non-empty address; whether that address
    is a CIDR plays no part in the answer (the answer is the same under any
    two libraries that read integers alike); and an address that is no CIDR
    is refused later, by address assignment, before any command is run. *)
Theorem C7_parser_checks_presence_only (L : Lib) (loaded : result Ini.File)
    (cfg : WireguardConfig) (id : string) :
  ParseCfg.ParseConfig loaded = Ok (cfg, id) ->
  Address (Interface cfg) <> ""
  /\ (forall L' : Lib,
        (forall s, @KeyInt L' s = @KeyInt L s) ->
        @ParseCfg.ParseConfig L' loaded = Ok (cfg, id))
  /\ (forall (env : Env) (m : Manager) (t : Trace),
        config m = cfg ->
        ParseCIDR (Address (Interface cfg)) = None ->
        configureIPAddress env m t =
        (Val (Some ("invalid IP address format: "
                    ++ cidrError (Address (Interface cfg)))), t)).
Proof.
  intros Hp. split; [|split].
  - destruct loaded as [f|e]; [|discriminate].
    rewrite ParseConfig_loaded in Hp. cbv zeta in Hp.
    destruct (String.eqb _ "") in Hp; [discriminate|].
    destruct (String.eqb _ "") in Hp; [discriminate|].
    destruct (String.eqb (Ini.KeyString _ "Address") "") eqn:Ha in Hp; [discriminate|].
    destruct (String.eqb _ "") in Hp; [discriminate|].
    destruct (String.eqb _ "") in Hp; [discriminate|].
    inversion Hp; subst. simpl.
    apply String.eqb_neq. exact Ha.
  - intros L' Hk. rewrite <- Hp.
    destruct loaded as [f|e]; [|reflexivity].
    rewrite !ParseConfig_loaded. cbv zeta.
    unfold Ini.MustInt. rewrite Hk. reflexivity.
  - intros env m t Hm Hc.
    unfold configureIPAddress. rewrite Hm, Hc. reflexivity.
Qed.

Lemma C7_parser_checks_presence_only_witness :
  Address (Interface
    {| Interface := {| PrivateKey := Examples.zeroKey;
                       Address := "not-a-cidr"; DNS := "" |};
       Peer := {| PublicKey := Examples.zeroKey;
                  AllowedIPs := ["10.0.0.0/24"];
                  Endpoint := "gw.example:51820";
                  PersistentKeepalive := 25 |} |}) <> ""
  /\ @configureIPAddress IPv4.lib Examples.envLinux
       (Examples.mgrUp
          {| Interface := {| PrivateKey := Examples.zeroKey;
                             Address := "not-a-cidr"; DNS := "" |};
             Peer := {| PublicKey := Examples.zeroKey;
                        AllowedIPs := ["10.0.0.0/24"];
                        Endpoint := "gw.example:51820";
                        PersistentKeepalive := 25 |} |} "wg0") []
     = (Val (Some "invalid IP address format: invalid CIDR address: not-a-cidr"), []).
Proof.
  destruct (C7_parser_checks_presence_only IPv4.lib
              (Ok Examples.iniBadAddress) _ "42" eq_refl) as (Hne & _ & Hlater).
  split; [exact Hne|].
  exact (Hlater Examples.envLinux (Examples.mgrUp _ "wg0") [] eq_refl eq_refl).
Defined.

(** ** What a computation adds to the trace *)

Lemma adds_ret {A} (P : Event -> Prop) (a : A) : adds P (ret a).
Proof. intros t. exists []. simpl. rewrite app_nil_r. auto. Qed.

Lemma adds_panic {A} (P : Event -> Prop) (msg : string) : adds P (@panic A msg).
Proof. intros t. exists []. simpl. rewrite app_nil_r. auto. Qed.

Lemma adds_emit (P : Event -> Prop) (e : Event) : P e -> adds P (emit e).
Proof. intros He t. exists [e]. simpl. auto. Qed.

Lemma adds_exit {A} (P : Event -> Prop) (c : Z) : P (EvExit c) -> adds P (@exit A c).
Proof. intros He t. exists [EvExit c]. simpl. auto. Qed.

Lemma adds_exec (P : Event -> Prop) (env : Env) (argv : list string) :
  P (EvExec argv) -> adds P (exec env argv).
Proof. intros He t. exists [EvExec argv]. simpl. auto. Qed.

Lemma adds_ipcGet (P : Event -> Prop) (env : Env) :
  P EvIpcGet -> adds P (ipcGet env).
Proof. intros He t. exists [EvIpcGet]. simpl. auto. Qed.

Lemma adds_index {A} (P : Event -> Prop) (s : list A) (i : nat) :
  adds P (index s i).
Proof. unfold index. destruct (nth_error s i); [apply adds_ret|apply adds_panic]. Qed.

Lemma adds_bind {A B} (P : Event -> Prop) (m : M A) (k : A -> M B) :
  adds P m -> (forall a, adds P (k a)) -> adds P (bind m k).
Proof.
  intros Hm Hk t. destruct (Hm t) as [e1 [H1 F1]].
  unfold bind. destruct (m t) as [[a|msg|c] t1]; simpl in H1; subst t1.
  - destruct (Hk a (t ++ e1)%list) as [e2 [H2 F2]].
    exists (e1 ++ e2)%list. rewrite H2, app_assoc. split; [reflexivity|].
    apply Forall_app; auto.
  - exists e1. auto.
  - exists e1. auto.
Qed.

Create HintDb adds.
#[export] Hint Resolve adds_ret adds_panic adds_emit adds_exit adds_exec
  adds_ipcGet adds_index : adds.

(** Goes through the binds and the case analyses of a computation. *)
Ltac adds_step :=
  match goal with
  | |- adds _ (bind _ _) => apply adds_bind; [|intros ?]
  | |- adds _ (match ?x with _ => _ end) => destruct x
  | |- adds _ (let '(_, _) := ?x in _) => destruct x
  | |- adds _ _ => solve [auto with adds]
  end.

Ltac adds_tac := repeat adds_step.

(** Case analysis on an innermost scrutinee of a hypothesis, keeping the
    equation. *)
Ltac cases_in H :=
  match type of H with
  | context [match ?x with _ => _ end] =>
      lazymatch x with
      | context [match _ with _ => _ end] => fail
      | _ => destruct x eqn:?
      end
  end.

(** Case analysis on an innermost scrutinee of the goal. *)
Ltac cases_step :=
  match goal with
  | |- context [match ?x with _ => _ end] =>
      lazymatch x with
      | context [match _ with _ => _ end] => fail
      | _ => destruct x
      end
  end.

Lemma setupWireguardDevice_adds_notClose (env : Env) (m : Manager) :
  adds notClose (setupWireguardDevice env m).
Proof.
  unfold setupWireguardDevice, notClose. adds_tac; auto with adds; try discriminate.
  all: try (apply adds_emit; discriminate).
Qed.

Lemma maskString_adds (P : Event -> Prop) (mask : Net.IPMask) :
  adds P (maskString mask).
Proof. unfold maskString. adds_tac. Qed.

Lemma configureIPAddress_adds_notClose `{Lib} (env : Env) (m : Manager) :
  adds notClose (configureIPAddress env m).
Proof.
  unfold configureIPAddress, notClose. adds_tac.
  all: try apply maskString_adds.
  all: try (apply adds_exec; discriminate).
Qed.

Lemma addRoutes_body_adds_notClose `{Lib} (env : Env) (m : Manager) (ip : string) :
  adds notClose (addRoutes_body env m ip).
Proof.
  unfold addRoutes_body, notClose. adds_tac.
  all: try (apply adds_exec; discriminate).
Qed.

Lemma addRoutes_adds_notClose `{Lib} (env : Env) (m : Manager) :
  adds notClose (addRoutes env m).
Proof.
  unfold addRoutes. induction (AllowedIPs (Peer (config m))) as [|ip ips IH]; simpl.
  - apply adds_ret.
  - apply adds_bind; [apply addRoutes_body_adds_notClose|].
    intros [e|]; [apply adds_ret|exact IH].
Qed.

Lemma Setup_adds_notClose `{Lib} (env : Env) (m : Manager) :
  adds notClose (Setup env m).
Proof.
  unfold Setup.
  apply adds_bind; [apply setupWireguardDevice_adds_notClose|].
  intros [[dev name]|err]; [|apply adds_ret].
  apply adds_bind; [apply configureIPAddress_adds_notClose|].
  intros [e|]; [apply adds_ret|].
  apply adds_bind; [apply addRoutes_adds_notClose|].
  intros [e|]; apply adds_ret.
Qed.

Lemma adds_run_Forall {A} (P : Event -> Prop) (m : M A) :
  adds P m -> Forall P (snd (run m)).
Proof. intros Hm. destruct (Hm []) as [evs [Heq HF]]. unfold run. rewrite Heq. exact HF. Qed.

Lemma notClose_closes (tr : Trace) : Forall notClose tr -> closes tr = 0%nat.
Proof.
  unfold closes. induction 1 as [|e tr He _ IH]; [reflexivity|].
  simpl. destruct e; simpl; try exact IH. exfalso. apply He. reflexivity.
Qed.

(** ** Failures during set-up *)

(** C1, against the claim as stated: on Linux, with the device created,
    configured and brought up, the command that brings the link up fails;
    the connect operation returns that error and the trace ends there, with
    no teardown call where the claim asks for exactly one. *)
Lemma C1_counterexample :
  run (@RunE IPv4.lib Examples.envLinkUpFails false "portmap.io" []
         Examples.cfgTwoRanges []) =
  (Val (Some "failed to bring up interface: exit status 2: RTNETLINK answers: Operation not permitted"),
   [EvCreateTUN "wg0" 1420; EvTunName; EvNewDevice;
    EvIpcSet (uapiConfig Examples.zeroHex Examples.zeroHex
                "gw.example:51820" "10.0.0.0/24" 25);
    EvUp;
    EvExec ["ip"; "link"; "set"; "wg0"; "up"]])
  /\ closes (snd (run (@RunE IPv4.lib Examples.envLinkUpFails false "portmap.io" []
                        Examples.cfgTwoRanges []))) = 0%nat.
Proof. split; reflexivity. Qed.

(** C1, amended: when device set-up has succeeded and address assignment or
    route installation then fails, [Setup] returns that error, the connect
    operation returns it unchanged to its caller, and no teardown call is
    made on the way: the trace holds no close of the device, and the manager
    still holds the device. *)
Theorem C1_error_returned_without_teardown (L : Lib) (env : Env)
    (serviceMode : bool) (serverHostname : string) (mappingRules : list string)
    (cfg : WireguardConfig) (wakes : list Wake)
    (dev : Device) (name : string) (t1 : Trace) (e : string) (tr : Trace) :
  run (setupWireguardDevice env (NewManager cfg)) = (Val (Ok (dev, name)), t1) ->
  (configureIPAddress env {| config := cfg; device := Some dev; interfaceName := name |} t1
     = (Val (Some e), tr)
   \/ exists t2,
        configureIPAddress env {| config := cfg; device := Some dev; interfaceName := name |} t1
          = (Val None, t2)
        /\ addRoutes env {| config := cfg; device := Some dev; interfaceName := name |} t2
           = (Val (Some e), tr)) ->
  run (Setup env (NewManager cfg))
    = (Val ({| config := cfg; device := Some dev; interfaceName := name |}, Some e), tr)
  /\ run (RunE env serviceMode serverHostname mappingRules cfg wakes)
     = (Val (Some e), tr)
  /\ closes tr = 0%nat.
Proof.
  intros Hdev Hfail.
  assert (HS : run (Setup env (NewManager cfg))
               = (Val ({| config := cfg; device := Some dev; interfaceName := name |},
                       Some e), tr)).
  { unfold run, Setup, bind in *. rewrite Hdev.
    change (config (NewManager cfg)) with cfg.
    destruct Hfail as [Ha | [t2 [Ha Hr]]]; rewrite Ha; [reflexivity|].
    rewrite Hr. reflexivity. }
  split; [exact HS|]. split.
  - unfold run, RunE, bind in *. rewrite HS. reflexivity.
  - apply notClose_closes.
    pose proof (adds_run_Forall notClose _ (Setup_adds_notClose env (NewManager cfg))) as HF.
    rewrite HS in HF. exact HF.
Qed.

Lemma C1_error_returned_without_teardown_witness :
  run (@RunE IPv4.lib Examples.envLinkUpFails false "portmap.io" []
         Examples.cfgTwoRanges [])
  = (Val (Some "failed to bring up interface: exit status 2: RTNETLINK answers: Operation not permitted"),
     [EvCreateTUN "wg0" 1420; EvTunName; EvNewDevice;
      EvIpcSet (uapiConfig Examples.zeroHex Examples.zeroHex
                  "gw.example:51820" "10.0.0.0/24" 25);
      EvUp;
      EvExec ["ip"; "link"; "set"; "wg0"; "up"]]).
Proof.
  exact (proj1 (proj2 (C1_error_returned_without_teardown IPv4.lib
                         Examples.envLinkUpFails false "portmap.io" []
                         Examples.cfgTwoRanges [] _ _ _ _ _
                         eq_refl (or_introl eq_refl)))).
Defined.



(** ** Validation before commands are run *)

(** The loop body of route installation always comes back with a Go value:
    it has no panic and no exit. *)
Lemma addRoutes_body_val `{Lib} (env : Env) (m : Manager) (ip : string) (t : Trace) :
  exists r t', addRoutes_body env m ip t = (Val r, t').
Proof.
  unfold addRoutes_body, bind, exec, ret.
  repeat (cbn beta iota; cases_step); cbn beta iota; eauto.
Qed.

Lemma addRoutes_body_invalid_ip `{Lib} (env : Env) (m : Manager) (ip : string)
    (t : Trace) :
  isValidIP ip = false ->
  addRoutes_body env m ip t = (Val (Some ("invalid IP address: " ++ ip)), t).
Proof. intros Hip. unfold addRoutes_body. rewrite Hip. reflexivity. Qed.

Lemma addRoutes_loop_stops_at_invalid `{Lib} (env : Env) (m : Manager)
    (pre : list string) (bad : string) (post : list string) :
  isValidIP bad = false ->
  forall t,
    snd (addRoutes_loop env m (pre ++ bad :: post) t) = snd (addRoutes_loop env m pre t)
    /\ exists e, fst (addRoutes_loop env m (pre ++ bad :: post) t) = Val (Some e).
Proof.
  intros Hbad. induction pre as [|p pre IH]; intros t; simpl.
  - unfold bind. rewrite (addRoutes_body_invalid_ip env m bad t Hbad). simpl. eauto.
  - unfold bind.
    destruct (addRoutes_body_val env m p t) as [r [t1 Hb]]. rewrite Hb.
    destruct r as [e|]; simpl; [eauto|]. apply IH.
Qed.

(** C6: a range that parses neither as a CIDR nor as an address is refused
    by route installation with no command run for it: the loop body answers
    with the error on an unchanged trace, the whole run leaves the trace that
    the ranges before the malformed one leave on their own, and its result is
    an error. *)
Theorem C6_malformed_range_spawns_nothing (L : Lib) (env : Env) (m : Manager)
    (pre : list string) (bad : string) (post : list string) (t : Trace) :
  AllowedIPs (Peer (config m)) = (pre ++ bad :: post)%list ->
  isValidIP bad = false ->
  addRoutes_body env m bad t = (Val (Some ("invalid IP address: " ++ bad)), t)
  /\ snd (addRoutes env m t) = snd (addRoutes_loop env m pre t)
  /\ exists e, fst (addRoutes env m t) = Val (Some e).
Proof.
  intros Hips Hbad. split.
  - apply addRoutes_body_invalid_ip. exact Hbad.
  - unfold addRoutes. rewrite Hips.
    apply addRoutes_loop_stops_at_invalid. exact Hbad.
Qed.

Lemma C6_malformed_range_spawns_nothing_witness :
  snd (run (@addRoutes IPv4.lib Examples.envLinux
              (Examples.mgrUp Examples.cfgBadRange "wg0")))
  = [EvExec ["ip"; "route"; "add"; "10.0.0.0/24"; "dev"; "wg0"]].
Proof.
  exact (proj1 (proj2 (C6_malformed_range_spawns_nothing IPv4.lib Examples.envLinux
                         (Examples.mgrUp Examples.cfgBadRange "wg0")
                         ["10.0.0.0/24"] "bogus" ["10.0.2.0/24"] []
                         eq_refl eq_refl))).
Defined.

(** Route installation checks the interface name: with a name outside the
    pattern and a range to install, it fails on an unchanged trace. *)
Lemma addRoutes_invalid_name_fails_closed `{Lib} (env : Env) (m : Manager)
    (ip : string) (ips : list string) (t : Trace) :
  AllowedIPs (Peer (config m)) = ip :: ips ->
  isValidInterfaceName (interfaceName m) = false ->
  exists e, addRoutes env m t = (Val (Some e), t).
Proof.
  intros Hips Hname. unfold addRoutes. rewrite Hips. simpl.
  unfold bind, addRoutes_body. rewrite Hname.
  destruct (isValidIP ip); cbn; eexists; reflexivity.
Qed.

(** C3, at the failing input: the tunnel comes back as "eth0", a name outside
    the pattern.  Address assignment runs both of its commands with that name
    and succeeds; only route installation, which checks the name, stops the
    set-up.  The claim asks that address assignment fail with no command run. *)
Theorem C3_address_assignment_runs_commands_for_invalid_name :
  isValidInterfaceName "eth0" = false
  /\ run (@configureIPAddress IPv4.lib Examples.envLinux
            (Examples.mgrUp Examples.cfgTwoRanges "eth0")) =
     (Val None,
      [EvExec ["ip"; "link"; "set"; "eth0"; "up"];
       EvExec ["ip"; "addr"; "add"; "dev"; "eth0"; "10.0.0.2/24"]])
  /\ run (@Setup IPv4.lib Examples.envOddName (NewManager Examples.cfgTwoRanges)) =
     (Val (Examples.mgrUp Examples.cfgTwoRanges "eth0",
           Some "invalid interface name: eth0"),
      [EvCreateTUN "wg0" 1420; EvTunName; EvNewDevice;
       EvIpcSet (uapiConfig Examples.zeroHex Examples.zeroHex
                   "gw.example:51820" "10.0.0.0/24" 25);
       EvUp;
       EvExec ["ip"; "link"; "set"; "eth0"; "up"];
       EvExec ["ip"; "addr"; "add"; "dev"; "eth0"; "10.0.0.2/24"]]).
Proof. repeat split; reflexivity. Qed.

(** ** The monitor loop *)

Lemma renderTraffic_trace `{Lib} (rx tx : Z) (t : Trace) :
  renderTraffic rx tx t = (Val tt, (t ++ renderEvents rx tx)%list).
Proof.
  unfold renderTraffic, renderEvents, bind, print, emit. cbn.
  rewrite <- !app_assoc. reflexivity.
Qed.

(** A tick that takes a sample: the sample becomes the last one shown, and
    the lines are redrawn exactly when it differs from the one before. *)
Lemma onTick_open `{Lib} (env : Env) (serviceMode : bool) (rules : list string)
    (mgr : Manager) (last : Z * Z) (t : Trace) (now : Z * Z) (t1 : Trace) :
  samplesOnTick serviceMode rules = true ->
  GetTrafficStats env mgr t = (Val now, t1) ->
  onTick env serviceMode rules mgr last t = (Val now, (t1 ++ redraw last now)%list).
Proof.
  intros Hg Hs. destruct last as [lastRx lastTx]. destruct now as [rx tx].
  unfold samplesOnTick in Hg. unfold onTick, redraw. rewrite Hg.
  cbn [fst snd]. unfold bind. rewrite Hs. cbn beta iota.
  destruct (rx =? lastRx) eqn:Hrx; destruct (tx =? lastTx) eqn:Htx; cbn [negb orb andb].
  - apply Z.eqb_eq in Hrx, Htx. subst. unfold ret. rewrite app_nil_r. reflexivity.
  - rewrite renderTraffic_trace. reflexivity.
  - rewrite renderTraffic_trace. reflexivity.
  - rewrite renderTraffic_trace. reflexivity.
Qed.

(** A tick that takes no sample writes nothing. *)
Lemma onTick_closed `{Lib} (env : Env) (serviceMode : bool) (rules : list string)
    (mgr : Manager) (last : Z * Z) (t : Trace) :
  samplesOnTick serviceMode rules = false ->
  onTick env serviceMode rules mgr last t = (Val last, t).
Proof.
  intros Hg. destruct last as [lastRx lastTx].
  unfold samplesOnTick in Hg. unfold onTick. rewrite Hg. reflexivity.
Qed.

Lemma monitor_ticks_closed `{Lib} (env : Env) (serviceMode : bool)
    (rules : list string) (mgr : Manager) (n : nat) (last : Z * Z) (t : Trace) :
  samplesOnTick serviceMode rules = false ->
  monitor env serviceMode rules mgr (repeat Tick n) last t = (Val last, t).
Proof.
  intros Hg. induction n as [|n IH]; [reflexivity|].
  cbn [repeat monitor]. unfold bind. rewrite onTick_closed by exact Hg. exact IH.
Qed.



(** ** Decimal text *)

Lemma digits_string_of_uint_acc (d : Decimal.uint) (acc : positive) :
  Strconv.digits (NilEmpty.string_of_uint d) (Z.pos acc)
  = Some (Z.pos (Pos.of_uint_acc d acc)).
Proof.
  revert acc. induction d; intros acc; cbn [NilEmpty.string_of_uint Strconv.digits Pos.of_uint_acc];
    try reflexivity;
    match goal with
    | |- context [Strconv.digit ?c] =>
        let v := eval vm_compute in (Strconv.digit c) in
        change (Strconv.digit c) with v
    end; cbn beta iota; rewrite <- IHd; f_equal; lia.
Qed.

Lemma digits_string_of_uint (d : Decimal.uint) :
  Strconv.digits (NilEmpty.string_of_uint d) 0 = Some (Z.of_N (Pos.of_uint d)).
Proof.
  induction d; cbn [NilEmpty.string_of_uint Strconv.digits Pos.of_uint];
    try reflexivity;
    match goal with
    | |- context [Strconv.digit ?c] =>
        let v := eval vm_compute in (Strconv.digit c) in
        change (Strconv.digit c) with v
    end; cbn beta iota;
    first [ exact IHd
          | match goal with
            | |- Strconv.digits _ ?a = Some (Z.of_N (N.pos (Pos.of_uint_acc _ ?q))) =>
                replace a with (Z.pos q) by lia
            end; apply digits_string_of_uint_acc ].
Qed.

Lemma to_uint_not_Nil (p : positive) : Pos.to_uint p <> Decimal.Nil.
Proof.
  intros Heq. pose proof (DecimalPos.Unsigned.of_to p) as Hp.
  rewrite Heq in Hp. discriminate.
Qed.

Lemma digit_bounds (c : ascii) (d : Z) : Strconv.digit c = Some d -> 0 <= d <= 9.
Proof.
  unfold Strconv.digit.
  destruct ((48 <=? nat_of_ascii c)%nat && (nat_of_ascii c <=? 57)%nat)%bool eqn:Hc;
    [|discriminate].
  apply andb_prop in Hc. destruct Hc as [H1 H2].
  apply Nat.leb_le in H1, H2. intros Heq. inversion Heq. lia.
Qed.

Lemma digits_grows (s : string) (acc v : Z) :
  0 <= acc -> Strconv.digits s acc = Some v -> acc <= v.
Proof.
  revert acc. induction s as [|c s IH]; intros acc Ha; cbn [Strconv.digits].
  - intros Heq. inversion Heq. lia.
  - destruct (Strconv.digit c) as [d|] eqn:Hd; [|discriminate].
    apply digit_bounds in Hd. intros Hv. apply IH in Hv; lia.
Qed.

(** On a text of digits whose number fits 64 bits the loop is the plain
    decimal reading. *)
Lemma parseLoop_fits (s : string) (acc v : Z) :
  0 <= acc ->
  Strconv.digits s acc = Some v -> v <= Strconv.maxUint64 ->
  Strconv.parseLoop s acc = (v, false).
Proof.
  revert acc. induction s as [|c s IH]; intros acc Ha;
    cbn [Strconv.digits Strconv.parseLoop].
  - intros Heq _. inversion Heq. reflexivity.
  - destruct (Strconv.digit c) as [d|] eqn:Hd; [|discriminate].
    pose proof (digit_bounds c d Hd) as Hb.
    intros Hv Hmax.
    assert (Hg : 10 * acc + d <= v) by (apply (digits_grows s); [lia|exact Hv]).
    assert (Hcut : Strconv.cutoff = 1844674407370955162) by reflexivity.
    assert (Hm : Strconv.maxUint64 = 18446744073709551615) by reflexivity.
    destruct (Z.leb_spec Strconv.cutoff acc); [lia|].
    cbv zeta. destruct (Z.ltb_spec Strconv.maxUint64 (10 * acc + d)); [lia|].
    apply IH; [lia|exact Hv|exact Hmax].
Qed.

(** On a text of digits whose number does not fit, the loop ends in the range
    error. *)
Lemma parseLoop_overflows (s : string) (acc v : Z) :
  0 <= acc <= Strconv.maxUint64 ->
  Strconv.digits s acc = Some v -> Strconv.maxUint64 < v ->
  Strconv.parseLoop s acc = (Strconv.maxUint64, true).
Proof.
  revert acc. induction s as [|c s IH]; intros acc Ha;
    cbn [Strconv.digits Strconv.parseLoop].
  - intros Heq Hv. inversion Heq. lia.
  - destruct (Strconv.digit c) as [d|] eqn:Hd; [|discriminate].
    pose proof (digit_bounds c d Hd) as Hb.
    intros Hv Hmax.
    destruct (Z.leb_spec Strconv.cutoff acc); [reflexivity|].
    cbv zeta. destruct (Z.ltb_spec Strconv.maxUint64 (10 * acc + d)); [reflexivity|].
    apply IH; [lia|exact Hv|exact Hmax].
Qed.

(** The value of the loop is a 64-bit number, and on an error it is 0 or the
    largest one. *)
Lemma parseLoop_range (s : string) (acc : Z) :
  0 <= acc <= Strconv.maxUint64 ->
  0 <= fst (Strconv.parseLoop s acc) <= Strconv.maxUint64
  /\ (snd (Strconv.parseLoop s acc) = true ->
      fst (Strconv.parseLoop s acc) = 0
      \/ fst (Strconv.parseLoop s acc) = Strconv.maxUint64).
Proof.
  assert (Hm : Strconv.maxUint64 = 18446744073709551615) by reflexivity.
  revert acc. induction s as [|c s IH]; intros acc Ha; cbn [Strconv.parseLoop].
  - cbn [fst snd]. split; [exact Ha|discriminate].
  - destruct (Strconv.digit c) as [d|] eqn:Hd; [|cbn [fst snd]; split; [lia|auto]].
    pose proof (digit_bounds c d Hd) as Hb.
    destruct (Z.leb_spec Strconv.cutoff acc); [cbn [fst snd]; split; [lia|auto]|].
    cbv zeta. destruct (Z.ltb_spec Strconv.maxUint64 (10 * acc + d));
      [cbn [fst snd]; split; [lia|auto]|].
    apply IH. lia.
Qed.

(** Printing a counter and reading it back. *)
Lemma ParseUint_Itoa (n : Z) :
  0 <= n <= Strconv.maxUint64 ->
  Strconv.ParseUint (Strconv.Itoa n) = (n, false).
Proof.
  intros Hn. destruct n as [|p|p]; [reflexivity| |lia].
  unfold Strconv.Itoa, Z.to_int, NilZero.string_of_int, NilZero.string_of_uint.
  pose proof (to_uint_not_Nil p) as Hnil.
  pose proof (digits_string_of_uint (Pos.to_uint p)) as Hd.
  rewrite DecimalPos.Unsigned.of_to in Hd. cbn [Z.of_N] in Hd.
  apply parseLoop_fits in Hd; [|lia|lia].
  destruct (Pos.to_uint p) eqn:Hu; [contradiction| ..];
    unfold Strconv.ParseUint; cbn [NilEmpty.string_of_uint] in *; exact Hd.
Qed.

Lemma ParseUint_bounds (s : string) :
  0 <= fst (Strconv.ParseUint s) <= Strconv.maxUint64.
Proof.
  assert (Hm : Strconv.maxUint64 = 18446744073709551615) by reflexivity.
  unfold Strconv.ParseUint. destruct s as [|c s]; [cbn [fst]; lia|].
  apply parseLoop_range. lia.
Qed.

(** A text that is empty or starts with a byte that is no digit reads as 0. *)
Lemma ParseUint_syntax (s : string) :
  match s with
  | EmptyString => True
  | String c _ => Strconv.digit c = None
  end ->
  Strconv.ParseUint s = (0, true).
Proof.
  destruct s as [|c s]; [reflexivity|].
  intros Hc. unfold Strconv.ParseUint. cbn [Strconv.parseLoop]. rewrite Hc. reflexivity.
Qed.

(** A text of digits whose number leaves 64 bits reads as the largest
    64-bit number. *)
Lemma ParseUint_overflow (s : string) (v : Z) :
  Strconv.digits s 0 = Some v -> Strconv.maxUint64 < v ->
  Strconv.ParseUint s = (Strconv.maxUint64, true).
Proof.
  assert (Hm : Strconv.maxUint64 = 18446744073709551615) by reflexivity.
  intros Hd Hv. unfold Strconv.ParseUint.
  destruct s as [|c s]; [cbn in Hd; inversion Hd; lia|].
  apply (parseLoop_overflows _ 0 v); [lia|exact Hd|exact Hv].
Qed.

(** When an error comes with the value, the value is 0 or the largest
    64-bit number. *)
Lemma ParseUint_error_value (s : string) :
  snd (Strconv.ParseUint s) = true ->
  fst (Strconv.ParseUint s) = 0 \/ fst (Strconv.ParseUint s) = Strconv.maxUint64.
Proof.
  assert (Hm : Strconv.maxUint64 = 18446744073709551615) by reflexivity.
  unfold Strconv.ParseUint. destruct s as [|c s]; [auto|].
  apply parseLoop_range. lia.
Qed.

(** ** Traffic counters *)

Lemma rx_tx_prefix_disjoint (l : string) :
  HasPrefix l "rx_bytes=" = true -> HasPrefix l "tx_bytes=" = false.
Proof.
  destruct l as [|c l]; [discriminate|]. cbn [HasPrefix].
  destruct (Ascii.eqb_spec "r"%char c) as [<-|]; cbn [andb]; [reflexivity|discriminate].
Qed.

Lemma fold_statsLine (lines : list string) (rx0 tx0 : Z) :
  fold_left statsLine lines (rx0, tx0) =
  (match lastLine "rx_bytes=" lines with
   | Some s => fst (Strconv.ParseUint s)
   | None => rx0
   end,
   match lastLine "tx_bytes=" lines with
   | Some s => fst (Strconv.ParseUint s)
   | None => tx0
   end).
Proof.
  revert rx0 tx0. induction lines as [|l lines IH]; intros rx0 tx0; [reflexivity|].
  cbn [fold_left lastLine]. unfold statsLine at 2. unfold TrimPrefix.
  destruct (HasPrefix l "rx_bytes=") eqn:Hrx.
  - rewrite (rx_tx_prefix_disjoint l Hrx). rewrite IH.
    destruct (lastLine "rx_bytes=" lines), (lastLine "tx_bytes=" lines); reflexivity.
  - destruct (HasPrefix l "tx_bytes=") eqn:Htx; rewrite IH;
      destruct (lastLine "rx_bytes=" lines), (lastLine "tx_bytes=" lines); reflexivity.
Qed.

Lemma parseStats_counter (stats : string) :
  parseStats stats =
  (counter "rx_bytes=" (Split stats LF), counter "tx_bytes=" (Split stats LF)).
Proof. unfold parseStats, counter. apply fold_statsLine. Qed.

Lemma HasPrefix_app (p s : string) : HasPrefix (p ++ s) p = true.
Proof.
  induction p as [|c p IH]; [destruct s; reflexivity|]. cbn [append HasPrefix].
  rewrite Ascii.eqb_refl. exact IH.
Qed.

Lemma drop_app (p s : string) : drop (String.length p) (p ++ s) = s.
Proof. induction p as [|c p IH]; [reflexivity|]. simpl. exact IH. Qed.

(** The counter is read from the last line that carries it. *)
Lemma lastLine_last (p : string) (l1 : list string) (s : string) (l3 : list string) :
  forallb (fun l => negb (HasPrefix l p)) l3 = true ->
  lastLine p (l1 ++ (p ++ s) :: l3) = Some s.
Proof.
  intros Hl3.
  assert (H3 : lastLine p l3 = None).
  { induction l3 as [|l l3 IH]; [reflexivity|].
    simpl in Hl3. apply andb_prop in Hl3. destruct Hl3 as [Hl Hr].
    simpl. rewrite (IH Hr). apply negb_true_iff in Hl. rewrite Hl. reflexivity. }
  induction l1 as [|l l1 IH]; simpl.
  - rewrite H3, HasPrefix_app, drop_app. reflexivity.
  - rewrite IH. reflexivity.
Qed.

(** C9, against the claim as stated: the status query succeeds with a receive
    counter that is no number and a send counter of 5; the sample is (0, 5),
    not the zero sample.  And a status text whose two counters are 2^64, one
    more than 64 bits hold, reads as the largest counters, not as zero. *)
Lemma C9_counterexample :
  IpcGet_result Examples.envBadRx [] = Ok ("rx_bytes=abc" ++ nl ++ "tx_bytes=5" ++ nl)
  /\ run (GetTrafficStats Examples.envBadRx (Examples.mgrUp Examples.cfgTwoRanges "wg0"))
     = (Val (0, 5), [EvIpcGet])
  /\ parseStats ("rx_bytes=18446744073709551616" ++ nl
                 ++ "tx_bytes=18446744073709551616" ++ nl)
     = (18446744073709551615, 18446744073709551615).
Proof. repeat split; reflexivity. Qed.

(** C9, amended: a traffic sample query always yields a sample of two
    unsigned 64-bit counters and never an error.  Without a device handle,
    and when the status query fails, it is the zero sample.  When the query
    succeeds each counter is read on its own, from the last line of the
    status text that starts with its key: a decimal number up to 2^64-1 is
    returned as it is, text that is no decimal number gives 0 for that
    counter only, a number above 2^64-1 gives 2^64-1, and a counter with no
    line is 0. *)
Theorem C9_sample_per_counter (env : Env) (m : Manager) (t : Trace) :
  (exists rx tx t',
     GetTrafficStats env m t = (Val (rx, tx), t')
     /\ 0 <= rx <= Strconv.maxUint64 /\ 0 <= tx <= Strconv.maxUint64
     /\ (device m = None -> rx = 0 /\ tx = 0 /\ t' = t)
     /\ (forall e, IpcGet_result env t = Err e -> rx = 0 /\ tx = 0)
     /\ (forall d stats,
           device m = Some d -> IpcGet_result env t = Ok stats ->
           rx = counter "rx_bytes=" (Split stats LF)
           /\ tx = counter "tx_bytes=" (Split stats LF)))
  /\ (forall p l1 s l3,
        forallb (fun l => negb (HasPrefix l p)) l3 = true ->
        counter p (l1 ++ (p ++ s) :: l3) = fst (Strconv.ParseUint s))
  /\ (forall p lines,
        forallb (fun l => negb (HasPrefix l p)) lines = true -> counter p lines = 0)
  /\ (forall n, 0 <= n <= Strconv.maxUint64 ->
        Strconv.ParseUint (Strconv.Itoa n) = (n, false))
  /\ (forall s,
        match s with
        | EmptyString => True
        | String c _ => Strconv.digit c = None
        end ->
        Strconv.ParseUint s = (0, true))
  /\ (forall s v, Strconv.digits s 0 = Some v -> Strconv.maxUint64 < v ->
        Strconv.ParseUint s = (Strconv.maxUint64, true))
  /\ (forall s, snd (Strconv.ParseUint s) = true ->
        fst (Strconv.ParseUint s) = 0
        \/ fst (Strconv.ParseUint s) = Strconv.maxUint64).
Proof.
  assert (Hmax : 0 <= Strconv.maxUint64) by (unfold Strconv.maxUint64; lia).
  split; [|split; [|split; [|split; [|split; [|split]]]]].
  - unfold GetTrafficStats, bind, ipcGet, ret.
    destruct (device m) as [d|] eqn:Hdev; cbn beta iota.
    + destruct (IpcGet_result env t) as [stats|e] eqn:Hget.
      * rewrite parseStats_counter.
        do 3 eexists. split; [reflexivity|].
        unfold counter.
        split; [destruct (lastLine "rx_bytes=" _); [apply ParseUint_bounds|lia]|].
        split; [destruct (lastLine "tx_bytes=" _); [apply ParseUint_bounds|lia]|].
        split; [discriminate|]. split; [discriminate|].
        intros d' stats' _ Heq. inversion Heq; subst. split; reflexivity.
      * do 3 eexists. split; [reflexivity|].
        repeat split; try lia; try discriminate.
    + do 3 eexists. split; [reflexivity|].
      repeat split; try lia; try discriminate.
  - intros p l1 s l3 Hl3. unfold counter. rewrite lastLine_last by exact Hl3. reflexivity.
  - intros p lines Hl. unfold counter.
    replace (lastLine p lines) with (@None string); [reflexivity|].
    induction lines as [|l lines IH]; [reflexivity|].
    simpl in Hl. apply andb_prop in Hl. destruct Hl as [Hl Hr].
    simpl. rewrite <- (IH Hr). apply negb_true_iff in Hl. rewrite Hl. reflexivity.
  - exact ParseUint_Itoa.
  - exact ParseUint_syntax.
  - exact ParseUint_overflow.
  - exact ParseUint_error_value.
Qed.

Lemma C9_sample_per_counter_witness :
  exists rx tx t',
    GetTrafficStats Examples.envLinux (Examples.mgrUp Examples.cfgTwoRanges "wg0") []
    = (Val (rx, tx), t')
    /\ rx = 100 /\ tx = 200.
Proof.
  destruct (proj1 (C9_sample_per_counter Examples.envLinux
                     (Examples.mgrUp Examples.cfgTwoRanges "wg0") []))
    as (rx & tx & t' & Hrun & _ & _ & _ & _ & Hok).
  exists rx, tx, t'. split; [exact Hrun|].
  exact (Hok _ _ eq_refl eq_refl).
Defined.

(** ** The control-plane configuration text *)

(** *** White space at the ends of a text *)

Lemma ascii_of_code (c : ascii) (n : nat) : nat_of_ascii c = n -> c = ascii_of_nat n.
Proof. intros <-. symmetry. apply ascii_nat_embedding. Qed.

Ltac in_list := repeat first [left; reflexivity | right].

(** What the byte tests accept are the encodings of the white-space runes. *)
Lemma isSpace1_rune (c : ascii) :
  isSpace1 c = true -> exists r, In r whiteSpaceRunes /\ utf8 r = [c].
Proof.
  intros H. exists (Z.of_nat (nat_of_ascii c)). revert H.
  destruct c as [[] [] [] [] [] [] [] []]; vm_compute; intros H;
    first [discriminate H | split; [in_list|reflexivity]].
Qed.

Lemma isSpace2_rune (c1 c2 : ascii) :
  isSpace2 c1 c2 = true -> exists r, In r whiteSpaceRunes /\ utf8 r = [c1; c2].
Proof.
  unfold isSpace2. cbv zeta. intros H.
  apply andb_true_iff in H. destruct H as [H1 H2].
  apply Nat.eqb_eq, ascii_of_code in H1. subst c1.
  apply orb_true_iff in H2.
  destruct H2 as [H2|H2]; apply Nat.eqb_eq, ascii_of_code in H2; subst c2.
  - exists 133. split; [in_list|reflexivity].
  - exists 160. split; [in_list|reflexivity].
Qed.

Lemma isSpace3_rune (c1 c2 c3 : ascii) :
  isSpace3 c1 c2 c3 = true -> exists r, In r whiteSpaceRunes /\ utf8 r = [c1; c2; c3].
Proof.
  unfold isSpace3. cbv zeta. intros H.
  repeat rewrite ?orb_true_iff, ?andb_true_iff in H.
  rewrite ?Nat.eqb_eq, ?Nat.leb_le in H.
  destruct H as [[[((H1 & H2) & H3)|((H1 & H2) & H3)]|((H1 & H2) & H3)]|((H1 & H2) & H3)];
    apply ascii_of_code in H1, H2; subst c1 c2.
  - apply ascii_of_code in H3. subst c3. exists 5760. split; [in_list|reflexivity].
  - destruct H3 as [[[[Hlo Hhi]|H3]|H3]|H3].
    + assert (Hn : (nat_of_ascii c3 = 128 \/ nat_of_ascii c3 = 129
                    \/ nat_of_ascii c3 = 130 \/ nat_of_ascii c3 = 131
                    \/ nat_of_ascii c3 = 132 \/ nat_of_ascii c3 = 133
                    \/ nat_of_ascii c3 = 134 \/ nat_of_ascii c3 = 135
                    \/ nat_of_ascii c3 = 136 \/ nat_of_ascii c3 = 137
                    \/ nat_of_ascii c3 = 138)%nat) by lia.
      exists (8064 + Z.of_nat (nat_of_ascii c3)).
      repeat (destruct Hn as [Hn|Hn];
              [rewrite Hn; apply ascii_of_code in Hn; subst c3;
               split; [in_list|reflexivity]|]).
      rewrite Hn. apply ascii_of_code in Hn. subst c3. split; [in_list|reflexivity].
    + apply ascii_of_code in H3. subst c3. exists 8232. split; [in_list|reflexivity].
    + apply ascii_of_code in H3. subst c3. exists 8233. split; [in_list|reflexivity].
    + apply ascii_of_code in H3. subst c3. exists 8239. split; [in_list|reflexivity].
  - apply ascii_of_code in H3. subst c3. exists 8287. split; [in_list|reflexivity].
  - apply ascii_of_code in H3. subst c3. exists 12288. split; [in_list|reflexivity].
Qed.

Lemma startsWith_refl (p l : list ascii) : startsWith (p ++ l) p = true.
Proof.
  induction p as [|a p IH]; [destruct l; reflexivity|].
  cbn [app startsWith]. rewrite Ascii.eqb_refl. exact IH.
Qed.

Lemma trimmed_front (s : string) (r : Z) (l : list ascii) :
  trimmed s = true -> In r whiteSpaceRunes ->
  list_ascii_of_string s = (utf8 r ++ l)%list -> False.
Proof.
  unfold trimmed. cbv zeta. intros Ht Hr Hs.
  rewrite forallb_forall in Ht. specialize (Ht r Hr).
  apply andb_true_iff in Ht. destruct Ht as [Ht _].
  rewrite Hs, startsWith_refl in Ht. discriminate Ht.
Qed.

Lemma trimmed_back (s : string) (r : Z) (l : list ascii) :
  trimmed s = true -> In r whiteSpaceRunes ->
  rev (list_ascii_of_string s) = (rev (utf8 r) ++ l)%list -> False.
Proof.
  unfold trimmed. cbv zeta. intros Ht Hr Hs.
  rewrite forallb_forall in Ht. specialize (Ht r Hr).
  apply andb_true_iff in Ht. destruct Ht as [_ Ht].
  rewrite Hs, startsWith_refl in Ht. discriminate Ht.
Qed.

Lemma TrimLeft_trimmed (s : string) : trimmed s = true -> TrimLeft s = s.
Proof.
  intros Ht. destruct s as [|c1 s1]; [reflexivity|].
  cbn [TrimLeft].
  destruct (isSpace1 c1) eqn:E1.
  { destruct (isSpace1_rune _ E1) as (r & Hr & Hu).
    exfalso. apply (trimmed_front _ r (list_ascii_of_string s1) Ht Hr).
    rewrite Hu. reflexivity. }
  destruct s1 as [|c2 s2]; [reflexivity|].
  destruct (isSpace2 c1 c2) eqn:E2.
  { destruct (isSpace2_rune _ _ E2) as (r & Hr & Hu).
    exfalso. apply (trimmed_front _ r (list_ascii_of_string s2) Ht Hr).
    rewrite Hu. reflexivity. }
  destruct s2 as [|c3 s3]; [reflexivity|].
  destruct (isSpace3 c1 c2 c3) eqn:E3; [|reflexivity].
  destruct (isSpace3_rune _ _ _ E3) as (r & Hr & Hu).
  exfalso. apply (trimmed_front _ r (list_ascii_of_string s3) Ht Hr).
  rewrite Hu. reflexivity.
Qed.

Lemma trimBack_trimmed (s : string) :
  trimmed s = true ->
  trimBack (rev (list_ascii_of_string s)) = rev (list_ascii_of_string s).
Proof.
  intros Ht.
  destruct (rev (list_ascii_of_string s)) as [|c1 r1] eqn:Hrev; [reflexivity|].
  cbn [trimBack].
  destruct (isSpace1 c1) eqn:E1.
  { destruct (isSpace1_rune _ E1) as (r & Hr & Hu).
    exfalso. apply (trimmed_back _ r r1 Ht Hr). rewrite Hu, Hrev. reflexivity. }
  destruct r1 as [|c2 r2]; [reflexivity|].
  destruct (isSpace2 c2 c1) eqn:E2.
  { destruct (isSpace2_rune _ _ E2) as (r & Hr & Hu).
    exfalso. apply (trimmed_back _ r r2 Ht Hr). rewrite Hu, Hrev. reflexivity. }
  destruct r2 as [|c3 r3]; [reflexivity|].
  destruct (isSpace3 c3 c2 c1) eqn:E3; [|reflexivity].
  destruct (isSpace3_rune _ _ _ E3) as (r & Hr & Hu).
  exfalso. apply (trimmed_back _ r r3 Ht Hr). rewrite Hu, Hrev. reflexivity.
Qed.

(** A text with no white-space rune at either end is left as it is. *)
Lemma TrimSpace_trimmed (s : string) : trimmed s = true -> TrimSpace s = s.
Proof.
  intros Ht. unfold TrimSpace, TrimRight.
  rewrite (TrimLeft_trimmed s Ht), (trimBack_trimmed s Ht).
  rewrite rev_involutive. apply string_of_list_ascii_of_string.
Qed.

(** White-space runes in front and at the end are taken off. *)
Lemma TrimLeft_utf8 (r : Z) (s : string) :
  In r whiteSpaceRunes ->
  TrimLeft (string_of_list_ascii (utf8 r) ++ s) = TrimLeft s.
Proof.
  intros H. unfold whiteSpaceRunes in H.
  repeat (destruct H as [<-|H]; [reflexivity|]). destruct H.
Qed.

Lemma trimBack_utf8 (r : Z) (l : list ascii) :
  In r whiteSpaceRunes -> trimBack (rev (utf8 r) ++ l) = trimBack l.
Proof.
  intros H. unfold whiteSpaceRunes in H.
  repeat (destruct H as [<-|H]; [reflexivity|]). destruct H.
Qed.

Lemma string_of_list_ascii_app (a b : list ascii) :
  string_of_list_ascii (a ++ b) = string_of_list_ascii a ++ string_of_list_ascii b.
Proof. induction a as [|c a IH]; [reflexivity|]. cbn. rewrite IH. reflexivity. Qed.

Lemma list_ascii_of_string_app (a b : string) :
  list_ascii_of_string (a ++ b)
  = (list_ascii_of_string a ++ list_ascii_of_string b)%list.
Proof. induction a as [|c a IH]; [reflexivity|]. cbn. rewrite IH. reflexivity. Qed.

Lemma append_nil_r (s : string) : s ++ "" = s.
Proof. induction s as [|c s IH]; [reflexivity|]. cbn. rewrite IH. reflexivity. Qed.

Lemma append_assoc (a b c : string) : (a ++ b) ++ c = a ++ (b ++ c).
Proof. induction a as [|x a IH]; [reflexivity|]. cbn. rewrite IH. reflexivity. Qed.

Lemma TrimLeft_utf8Text (rs : list Z) (s : string) :
  isWhiteSpace rs -> TrimLeft (utf8Text rs ++ s) = TrimLeft s.
Proof.
  unfold utf8Text. induction 1 as [|r rs Hr _ IH]; [reflexivity|].
  cbn [flat_map]. rewrite string_of_list_ascii_app, append_assoc.
  rewrite (TrimLeft_utf8 r _ Hr). exact IH.
Qed.

Lemma trimBack_utf8Text (rs : list Z) :
  isWhiteSpace rs ->
  forall l, trimBack (rev (flat_map utf8 rs) ++ l) = trimBack l.
Proof.
  induction 1 as [|r rs Hr _ IH]; intros l; [reflexivity|].
  cbn [flat_map]. rewrite rev_app_distr, <- app_assoc, IH.
  apply trimBack_utf8. exact Hr.
Qed.

Lemma TrimRight_utf8Text (rs : list Z) (s : string) :
  isWhiteSpace rs -> TrimRight (s ++ utf8Text rs) = TrimRight s.
Proof.
  intros Hrs. unfold TrimRight, utf8Text.
  rewrite list_ascii_of_string_app, list_ascii_of_string_of_list_ascii.
  rewrite rev_app_distr, (trimBack_utf8Text rs Hrs). reflexivity.
Qed.

(** The byte patterns of two and three bytes hold no ASCII byte. *)
Lemma isSpace2_high (c1 c2 : ascii) :
  isSpace2 c1 c2 = true ->
  (128 <= nat_of_ascii c1)%nat /\ (128 <= nat_of_ascii c2)%nat.
Proof.
  unfold isSpace2. cbv zeta. intros H.
  repeat rewrite ?orb_true_iff, ?andb_true_iff in H.
  rewrite ?Nat.eqb_eq in H. lia.
Qed.

Lemma isSpace3_high (c1 c2 c3 : ascii) :
  isSpace3 c1 c2 c3 = true ->
  (128 <= nat_of_ascii c1)%nat /\ (128 <= nat_of_ascii c2)%nat
  /\ (128 <= nat_of_ascii c3)%nat.
Proof.
  unfold isSpace3. cbv zeta. intros H.
  repeat rewrite ?orb_true_iff, ?andb_true_iff in H.
  rewrite ?Nat.eqb_eq, ?Nat.leb_le in H. lia.
Qed.

(** A text that starts with an ASCII byte that is no white space has
    nothing taken off in front, and likewise at the end. *)
Lemma TrimLeft_plain (c : ascii) (s : string) :
  (nat_of_ascii c < 128)%nat -> isSpace1 c = false ->
  TrimLeft (String c s) = String c s.
Proof.
  intros Hc H1. cbn [TrimLeft]. rewrite H1.
  destruct s as [|c2 s2]; [reflexivity|].
  destruct (isSpace2 c c2) eqn:E2; [apply isSpace2_high in E2; lia|].
  destruct s2 as [|c3 s3]; [reflexivity|].
  destruct (isSpace3 c c2 c3) eqn:E3; [apply isSpace3_high in E3; lia|reflexivity].
Qed.

Lemma trimBack_plain (c : ascii) (l : list ascii) :
  (nat_of_ascii c < 128)%nat -> isSpace1 c = false ->
  trimBack (c :: l) = c :: l.
Proof.
  intros Hc H1. cbn [trimBack]. rewrite H1.
  destruct l as [|c2 l2]; [reflexivity|].
  destruct (isSpace2 c2 c) eqn:E2; [apply isSpace2_high in E2; lia|].
  destruct l2 as [|c3 l3]; [reflexivity|].
  destruct (isSpace3 c3 c2 c) eqn:E3; [apply isSpace3_high in E3; lia|reflexivity].
Qed.

(** *** Base64 text and its bytes *)

Lemma lor_low (x y k : Z) :
  0 <= k -> 0 <= y < 2 ^ k -> Z.lor (x * 2 ^ k) y = x * 2 ^ k + y.
Proof.
  intros Hk Hy. rewrite <- Z.add_lor_land.
  replace (Z.land (x * 2 ^ k) y) with 0; [lia|].
  symmetry. apply Z.bits_inj'. intros n Hn.
  rewrite Z.land_spec, Z.bits_0.
  destruct (Z.lt_ge_cases n k) as [Hlt|Hge].
  - rewrite Z.mul_pow2_bits_low by lia. reflexivity.
  - replace (Z.testbit y n) with false; [apply andb_false_r|].
    symmetry. rewrite <- (Z.mod_small y (2 ^ k)) by lia.
    apply Z.mod_pow2_bits_high. lia.
Qed.

Lemma decodeMap_encodeMap (i : Z) :
  0 <= i < 64 -> Base64.decodeMap (encodeMap i) = Some i.
Proof.
  intros Hi.
  assert (H : forall n : nat, (n < 64)%nat ->
              Base64.decodeMap (encodeMap (Z.of_nat n)) = Some (Z.of_nat n)).
  { intros n Hn. do 64 (destruct n as [|n]; [reflexivity|]). lia. }
  rewrite <- (Z2Nat.id i) by lia. apply H. lia.
Qed.

Lemma quantum_sum (v1 v2 v3 v4 : Z) :
  0 <= v2 < 64 -> 0 <= v3 < 64 -> 0 <= v4 < 64 ->
  Base64.quantum v1 v2 v3 v4 = v1 * 262144 + v2 * 4096 + v3 * 64 + v4.
Proof.
  intros H2 H3 H4. unfold Base64.quantum.
  rewrite !Z.shiftl_mul_pow2 by lia.
  rewrite (lor_low v1 (v2 * 2 ^ 12) 18) by (change (2 ^ 12) with 4096; change (2 ^ 18) with 262144; lia).
  replace (v1 * 2 ^ 18 + v2 * 2 ^ 12) with ((v1 * 64 + v2) * 2 ^ 12)
    by (change (2 ^ 12) with 4096; change (2 ^ 18) with 262144; lia).
  rewrite (lor_low _ (v3 * 2 ^ 6) 12) by (change (2 ^ 12) with 4096; change (2 ^ 6) with 64; lia).
  replace ((v1 * 64 + v2) * 2 ^ 12 + v3 * 2 ^ 6) with (((v1 * 64 + v2) * 64 + v3) * 2 ^ 6)
    by (change (2 ^ 12) with 4096; change (2 ^ 6) with 64; lia).
  rewrite (lor_low _ v4 6) by (change (2 ^ 6) with 64; lia).
  change (2 ^ 6) with 64. lia.
Qed.

(** The six-bit values of three bytes. *)
Lemma sextets (a b c : Z) :
  isByte a -> isByte b -> isByte c ->
  Z.shiftr a 2 = a / 4
  /\ Z.lor (Z.shiftl (Z.land a 3) 4) (Z.shiftr b 4) = (a mod 4) * 16 + b / 16
  /\ Z.lor (Z.shiftl (Z.land b 15) 2) (Z.shiftr c 6) = (b mod 16) * 4 + c / 64
  /\ Z.land c 63 = c mod 64
  /\ Z.shiftl (Z.land a 3) 4 = (a mod 4) * 16
  /\ Z.shiftl (Z.land b 15) 2 = (b mod 16) * 4.
Proof.
  unfold isByte. intros Ha Hb Hc.
  change 3 with (Z.ones 2). change 15 with (Z.ones 4). change 63 with (Z.ones 6).
  rewrite !Z.land_ones by lia.
  rewrite !Z.shiftl_mul_pow2, !Z.shiftr_div_pow2 by lia.
  change (2 ^ 2) with 4. change (2 ^ 4) with 16. change (2 ^ 6) with 64.
  repeat split; try reflexivity.
  - change 16 with (2 ^ 4) at 1. rewrite lor_low; [reflexivity|lia|].
    change (2 ^ 4) with 16. Z.div_mod_to_equations. lia.
  - change 4 with (2 ^ 2) at 1. rewrite lor_low; [reflexivity|lia|].
    change (2 ^ 2) with 4. Z.div_mod_to_equations. lia.
Qed.

Lemma bytes_of_quantum (val : Z) :
  Base64.byte0 val = (val / 65536) mod 256
  /\ Base64.byte1 val = (val / 256) mod 256
  /\ Base64.byte2 val = val mod 256.
Proof.
  unfold Base64.byte0, Base64.byte1, Base64.byte2.
  change 255 with (Z.ones 8). rewrite !Z.land_ones by lia.
  rewrite !Z.shiftr_div_pow2 by lia. repeat split; reflexivity.
Qed.

Lemma quantum3 (a b c : Z) :
  isByte a -> isByte b -> isByte c ->
  Base64.byte0 (Base64.quantum (a / 4) ((a mod 4) * 16 + b / 16)
                  ((b mod 16) * 4 + c / 64) (c mod 64)) = a
  /\ Base64.byte1 (Base64.quantum (a / 4) ((a mod 4) * 16 + b / 16)
                     ((b mod 16) * 4 + c / 64) (c mod 64)) = b
  /\ Base64.byte2 (Base64.quantum (a / 4) ((a mod 4) * 16 + b / 16)
                     ((b mod 16) * 4 + c / 64) (c mod 64)) = c.
Proof.
  unfold isByte. intros Ha Hb Hc.
  rewrite quantum_sum by (Z.div_mod_to_equations; lia).
  replace (a / 4 * 262144 + (a mod 4 * 16 + b / 16) * 4096 +
           (b mod 16 * 4 + c / 64) * 64 + c mod 64)
    with (a * 65536 + b * 256 + c) by (Z.div_mod_to_equations; lia).
  destruct (bytes_of_quantum (a * 65536 + b * 256 + c)) as (-> & -> & ->).
  repeat split; Z.div_mod_to_equations; lia.
Qed.

Lemma isByte_0 : isByte 0.
Proof. unfold isByte. lia. Qed.

Lemma decodeLoop_quantum (c1 c2 c3 c4 : ascii) (rest : list ascii) (si : Z)
    (v1 v2 v3 v4 : Z) :
  Base64.decodeMap c1 = Some v1 -> Base64.decodeMap c2 = Some v2 ->
  Base64.decodeMap c3 = Some v3 -> Base64.decodeMap c4 = Some v4 ->
  Base64.decodeLoop (c1 :: c2 :: c3 :: c4 :: rest) si []
  = Base64.andThen [Base64.byte0 (Base64.quantum v1 v2 v3 v4);
                    Base64.byte1 (Base64.quantum v1 v2 v3 v4);
                    Base64.byte2 (Base64.quantum v1 v2 v3 v4)]
      (Base64.decodeLoop rest (si + 1 + 1 + 1 + 1) []).
Proof.
  intros H1 H2 H3 H4.
  cbn [Base64.decodeLoop]. rewrite H1. cbn [app].
  cbn [Base64.decodeLoop]. rewrite H2. cbn [app].
  cbn [Base64.decodeLoop]. rewrite H3. cbn [app].
  cbn [Base64.decodeLoop]. rewrite H4. reflexivity.
Qed.

Lemma decodeLoop_padded2 (c1 c2 : ascii) (si v1 v2 : Z) :
  Base64.decodeMap c1 = Some v1 -> Base64.decodeMap c2 = Some v2 ->
  Base64.decodeLoop [c1; c2; "="%char; "="%char] si []
  = Base64.Decoded [Base64.byte0 (Base64.quantum v1 v2 0 0)].
Proof.
  intros H1 H2.
  cbn [Base64.decodeLoop]. rewrite H1. cbn [app].
  cbn [Base64.decodeLoop]. rewrite H2. reflexivity.
Qed.

Lemma decodeLoop_padded1 (c1 c2 c3 : ascii) (si v1 v2 v3 : Z) :
  Base64.decodeMap c1 = Some v1 -> Base64.decodeMap c2 = Some v2 ->
  Base64.decodeMap c3 = Some v3 ->
  Base64.decodeLoop [c1; c2; c3; "="%char] si []
  = Base64.Decoded [Base64.byte0 (Base64.quantum v1 v2 v3 0);
                    Base64.byte1 (Base64.quantum v1 v2 v3 0)].
Proof.
  intros H1 H2 H3.
  cbn [Base64.decodeLoop]. rewrite H1. cbn [app].
  cbn [Base64.decodeLoop]. rewrite H2. cbn [app].
  cbn [Base64.decodeLoop]. rewrite H3. reflexivity.
Qed.

Lemma decodeLoop_stdEncode (bs : list Z) :
  Forall isByte bs ->
  forall si, Base64.decodeLoop (stdEncode bs) si [] = Base64.Decoded bs.
Proof.
  assert (H : forall (n : nat) (l : list Z),
              (List.length l <= n)%nat -> Forall isByte l ->
              forall si, Base64.decodeLoop (stdEncode l) si [] = Base64.Decoded l).
  { induction n as [|n IH]; intros l Hlen Hl si.
    - destruct l; [reflexivity|simpl in Hlen; lia].
    - destruct l as [|a [|b [|c rest]]]; [reflexivity| | |].
      + inversion Hl as [|? ? Ha _]; subst.
        destruct (sextets a 0 0 Ha isByte_0 isByte_0) as (E1 & _ & _ & _ & E5 & _).
        destruct (quantum3 a 0 0 Ha isByte_0 isByte_0) as (Q0 & _ & _).
        cbn [stdEncode]. rewrite E1, E5.
        rewrite (decodeLoop_padded2 _ _ si (a / 4) (a mod 4 * 16))
          by (apply decodeMap_encodeMap; unfold isByte in Ha;
              Z.div_mod_to_equations; lia).
        change (0 / 16) with 0 in Q0. change (0 mod 16 * 4 + 0 / 64) with 0 in Q0.
        change (0 mod 64) with 0 in Q0. rewrite Z.add_0_r in Q0.
        rewrite Q0. reflexivity.
      + inversion Hl as [|? ? Ha Hl']; subst. inversion Hl' as [|? ? Hb _]; subst.
        destruct (sextets a b 0 Ha Hb isByte_0) as (E1 & E2 & _ & _ & _ & E6).
        destruct (quantum3 a b 0 Ha Hb isByte_0) as (Q0 & Q1 & _).
        cbn [stdEncode]. rewrite E1, E2, E6.
        rewrite (decodeLoop_padded1 _ _ _ si (a / 4) (a mod 4 * 16 + b / 16)
                   (b mod 16 * 4))
          by (apply decodeMap_encodeMap; unfold isByte in Ha, Hb;
              Z.div_mod_to_equations; lia).
        change (0 / 64) with 0 in Q0, Q1. change (0 mod 64) with 0 in Q0, Q1.
        rewrite Z.add_0_r in Q0, Q1.
        rewrite Q0, Q1. reflexivity.
      + inversion Hl as [|? ? Ha Hl']; subst. inversion Hl' as [|? ? Hb Hl'']; subst.
        inversion Hl'' as [|? ? Hc Hrest]; subst.
        destruct (sextets a b c Ha Hb Hc) as (E1 & E2 & E3 & E4 & _ & _).
        destruct (quantum3 a b c Ha Hb Hc) as (Q0 & Q1 & Q2).
        cbn [stdEncode]. rewrite E1, E2, E3, E4.
        rewrite (decodeLoop_quantum _ _ _ _ _ si (a / 4) (a mod 4 * 16 + b / 16)
                   (b mod 16 * 4 + c / 64) (c mod 64))
          by (apply decodeMap_encodeMap; unfold isByte in Ha, Hb, Hc;
              Z.div_mod_to_equations; lia).
        rewrite Q0, Q1, Q2.
        rewrite (IH rest); [reflexivity| |exact Hrest].
        cbn [List.length] in Hlen. lia. }
  intros Hbs si. apply (H (List.length bs)); [lia|exact Hbs].
Qed.

(** What decoding gives are bytes. *)
Lemma isByte_land (x : Z) : isByte (Z.land x 255).
Proof.
  unfold isByte. change 255 with (Z.ones 8). rewrite Z.land_ones by lia.
  apply Z.mod_pos_bound. reflexivity.
Qed.

Lemma afterPadding_bytes (src : list ascii) (si : Z) (bytes k : list Z) :
  Base64.afterPadding src si bytes = Base64.Decoded k -> k = bytes.
Proof.
  unfold Base64.afterPadding.
  destruct (Base64.skipNewlines src si) as [[|c rest] si']; intros H;
    [inversion H; reflexivity|discriminate H].
Qed.

Lemma decodeLoop_bytes (src : list ascii) :
  forall (si : Z) (dbuf k : list Z),
    Base64.decodeLoop src si dbuf = Base64.Decoded k -> Forall isByte k.
Proof.
  induction src as [|c rest IH]; intros si dbuf k H.
  - cbn [Base64.decodeLoop] in H. destruct dbuf; [|discriminate H].
    inversion H. constructor.
  - cbn [Base64.decodeLoop] in H.
    destruct (Base64.decodeMap c) as [out|].
    + destruct dbuf as [|v1 [|v2 [|v3 [|v4 dbuf]]]]; try (exact (IH _ _ _ H)).
      cbv zeta in H.
      destruct (Base64.decodeLoop rest (si + 1) []) as [more|n] eqn:Hmore;
        [|discriminate H].
      cbn [Base64.andThen app] in H. inversion H; subst.
      repeat (apply Forall_cons; [apply isByte_land|]).
      exact (IH _ _ _ Hmore).
    + destruct (Base64.isNewline c); [exact (IH _ _ _ H)|].
      destruct (negb (Base64.isPad c)); [discriminate H|].
      destruct dbuf as [|v1 [|v2 [|v3 [|v4 dbuf]]]]; try discriminate H.
      * destruct (Base64.skipNewlines rest (si + 1)) as [[|c' rest'] si'];
          [discriminate H|].
        destruct (negb (Base64.isPad c')); [discriminate H|].
        apply afterPadding_bytes in H. subst k.
        apply Forall_cons; [apply isByte_land|constructor].
      * cbv zeta in H. apply afterPadding_bytes in H. subst k.
        repeat (apply Forall_cons; [apply isByte_land|]). constructor.
Qed.

(** The decoder on the inputs of the table of corrupt inputs in the tests of
    [encoding/base64]: the index of the byte the error names, or -1 when
    the input decodes. *)
Lemma DecodeString_corrupt_offsets :
  map (fun s => match Base64.DecodeString s with
                | Base64.Decoded _ => -1
                | Base64.CorruptInputError n => n
                end)
      [""; nl; "AAA=" ++ nl; "AAAA" ++ nl; "!!!!"; "===="; "x==="; "=AAA"; "A=AA";
       "AA=A"; "AA==A"; "AAA=AAAA"; "AAAAA"; "AAAAAA"; "A="; "A=="; "AA="; "AA==";
       "AAA="; "AAAA"; "AAAAAA="; "YWJjZA====="]
  = [-1; -1; -1; -1; 0; 0; 1; 0; 1; 2; 4; 4; 4; 4; 1; 1; 3; -1; -1; -1; 7; 8].
Proof. reflexivity. Qed.

(** White space of one, two and three bytes at both ends is trimmed, and a
    byte that is only part of such an encoding is kept. *)
Lemma TrimSpace_examples :
  TrimSpace (utf8Text [32; 160; 8195] ++ "AAAA" ++ utf8Text [133; 12288; 9]) = "AAAA"
  /\ TrimSpace (String "160"%char "x" ++ String "194"%char "") 
     = String "160"%char "x" ++ String "194"%char "".
Proof. split; reflexivity. Qed.

(** *** Hexadecimal text *)

Lemma hexdigit_hexChar (d : Z) : 0 <= d < 16 -> Hex.hexdigit d = hexChar d.
Proof.
  intros Hd.
  assert (H : forall n : nat, (n < 16)%nat ->
              Hex.hexdigit (Z.of_nat n) = hexChar (Z.of_nat n)).
  { intros n Hn. do 16 (destruct n as [|n]; [reflexivity|]). lia. }
  rewrite <- (Z2Nat.id d) by lia. apply H. lia.
Qed.

Lemma EncodeToString_hexText (bs : list Z) :
  Forall isByte bs -> Hex.EncodeToString bs = hexText bs.
Proof.
  induction 1 as [|b bs Hb _ IH]; [reflexivity|].
  cbn [Hex.EncodeToString hexText]. unfold isByte in Hb.
  change 15 with (Z.ones 4). rewrite Z.land_ones, Z.shiftr_div_pow2 by lia.
  change (2 ^ 4) with 16.
  rewrite !hexdigit_hexChar by (Z.div_mod_to_equations; lia).
  rewrite IH. reflexivity.
Qed.

(** *** Keys *)

Lemma isBase64Char_plain (c : ascii) :
  isBase64Char c = true -> (nat_of_ascii c < 128)%nat /\ isSpace1 c = false.
Proof.
  destruct c as [[] [] [] [] [] [] [] []]; vm_compute; intros H;
    first [discriminate H | split; [lia|reflexivity]].
Qed.

Lemma stdEncode_chars (bs : list Z) :
  Forall isByte bs -> Forall (fun c => isBase64Char c = true) (stdEncode bs).
Proof.
  assert (He : forall i, 0 <= i < 64 -> isBase64Char (encodeMap i) = true).
  { intros i Hi. unfold isBase64Char. rewrite decodeMap_encodeMap by exact Hi. reflexivity. }
  assert (H : forall (n : nat) (l : list Z),
              (List.length l <= n)%nat -> Forall isByte l ->
              Forall (fun c => isBase64Char c = true) (stdEncode l)).
  { induction n as [|n IH]; intros l Hlen Hl.
    - destruct l; [constructor|simpl in Hlen; lia].
    - destruct l as [|a [|b [|c rest]]]; [constructor| | |].
      + inversion Hl as [|? ? Ha _]; subst.
        destruct (sextets a 0 0 Ha isByte_0 isByte_0) as (E1 & _ & _ & _ & E5 & _).
        cbn [stdEncode]. rewrite E1, E5.
        repeat constructor; apply He; unfold isByte in Ha; Z.div_mod_to_equations; lia.
      + inversion Hl as [|? ? Ha Hl']; subst. inversion Hl' as [|? ? Hb _]; subst.
        destruct (sextets a b 0 Ha Hb isByte_0) as (E1 & E2 & _ & _ & _ & E6).
        cbn [stdEncode]. rewrite E1, E2, E6.
        repeat constructor; apply He; unfold isByte in Ha, Hb;
          Z.div_mod_to_equations; lia.
      + inversion Hl as [|? ? Ha Hl']; subst. inversion Hl' as [|? ? Hb Hl'']; subst.
        inversion Hl'' as [|? ? Hc Hrest]; subst.
        destruct (sextets a b c Ha Hb Hc) as (E1 & E2 & E3 & E4 & _ & _).
        cbn [stdEncode]. rewrite E1, E2, E3, E4.
        repeat (constructor;
                [apply He; unfold isByte in Ha, Hb, Hc; Z.div_mod_to_equations; lia|]).
        apply IH; [cbn [List.length] in Hlen; lia|exact Hrest]. }
  intros Hbs. apply (H (List.length bs)); [lia|exact Hbs].
Qed.

(** Base64 text with white space around it is trimmed to the text. *)
Lemma TrimSpace_base64 (wl wr : list Z) (l : list ascii) :
  isWhiteSpace wl -> isWhiteSpace wr ->
  Forall (fun c => isBase64Char c = true) l ->
  TrimSpace (utf8Text wl ++ string_of_list_ascii l ++ utf8Text wr)
  = string_of_list_ascii l.
Proof.
  intros Hwl Hwr Hl. unfold TrimSpace.
  rewrite (TrimLeft_utf8Text wl _ Hwl).
  destruct l as [|c l'].
  - cbn [string_of_list_ascii append].
    rewrite <- (append_nil_r (utf8Text wr)), (TrimLeft_utf8Text wr "" Hwr).
    reflexivity.
  - inversion Hl as [|? ? Hc _]; subst.
    destruct (isBase64Char_plain c Hc) as [Hlow Hns].
    cbn [string_of_list_ascii append].
    rewrite (TrimLeft_plain c _ Hlow Hns).
    change (String c (string_of_list_ascii l' ++ utf8Text wr))
      with (string_of_list_ascii (c :: l') ++ utf8Text wr).
    rewrite (TrimRight_utf8Text wr _ Hwr).
    unfold TrimRight. rewrite list_ascii_of_string_of_list_ascii.
    apply Forall_rev in Hl.
    destruct (rev (c :: l')) as [|d r] eqn:Hrev.
    + apply (f_equal (@List.length ascii)) in Hrev.
      rewrite length_rev in Hrev. discriminate Hrev.
    + inversion Hl as [|? ? Hd _]; subst.
      destruct (isBase64Char_plain d Hd) as [Hdlow Hdns].
      rewrite (trimBack_plain d r Hdlow Hdns), <- Hrev, rev_involutive.
      reflexivity.
Qed.

(** A key configured as the standard base64 text of its bytes, with any
    white space around it, is converted to the hex text of those bytes. *)
Lemma convertKey_stdEncode (k : list Z) (wl wr : list Z) :
  Forall isByte k -> isWhiteSpace wl -> isWhiteSpace wr ->
  convertKey (utf8Text wl ++ string_of_list_ascii (stdEncode k) ++ utf8Text wr)
  = Ok (hexText k).
Proof.
  intros Hk Hwl Hwr. unfold convertKey.
  rewrite (TrimSpace_base64 wl wr _ Hwl Hwr (stdEncode_chars k Hk)).
  unfold Base64.DecodeString.
  rewrite list_ascii_of_string_of_list_ascii, (decodeLoop_stdEncode k Hk).
  rewrite (EncodeToString_hexText k Hk). reflexivity.
Qed.


(** A private key that is no base64 text: device set-up ends before any text
    is given to the device. *)
Lemma setupWireguardDevice_bad_key :
  run (setupWireguardDevice Examples.envLinux (NewManager Examples.cfgBadKey))
  = (Val (Err ("invalid private key: failed to decode base64 key: "
               ++ "illegal base64 data at input byte 0")),
     [EvCreateTUN "wg0" 1420; EvTunName; EvNewDevice]).
Proof. reflexivity. Qed.


(** ** Lines of a text *)

Lemma noLF_app (a b : string) : noLF (a ++ b) = noLF a && noLF b.
Proof.
  induction a as [|c a IH]; [reflexivity|].
  cbn [append noLF]. rewrite IH, andb_assoc. reflexivity.
Qed.

Lemma Split_line (a rest : string) :
  noLF a = true -> Split (a ++ nl ++ rest) LF = a :: Split rest LF.
Proof.
  induction a as [|c a IH]; intros Ha.
  - reflexivity.
  - cbn [noLF] in Ha. apply andb_prop in Ha. destruct Ha as [Hc Ha].
    apply negb_true_iff in Hc.
    cbn [append Split]. rewrite Hc, (IH Ha). reflexivity.
Qed.

Lemma hexdigit_not_LF (n : Z) : Ascii.eqb (Hex.hexdigit n) LF = false.
Proof.
  unfold Hex.hexdigit.
  destruct (Z.to_nat n) as [|k]; [reflexivity|].
  do 15 (destruct k as [|k]; [reflexivity|]).
  reflexivity.
Qed.

Lemma noLF_hex (bs : list Z) : noLF (Hex.EncodeToString bs) = true.
Proof.
  induction bs as [|b bs IH]; [reflexivity|].
  cbn [Hex.EncodeToString noLF]. rewrite !hexdigit_not_LF, IH. reflexivity.
Qed.

Lemma noLF_string_of_uint (d : Decimal.uint) : noLF (NilEmpty.string_of_uint d) = true.
Proof. induction d; cbn [NilEmpty.string_of_uint noLF]; try rewrite IHd; reflexivity. Qed.

Lemma noLF_Itoa (z : Z) : noLF (Strconv.Itoa z) = true.
Proof.
  unfold Strconv.Itoa, NilZero.string_of_int, NilZero.string_of_uint.
  destruct (Z.to_int z) as [d|d]; destruct d; cbn [noLF];
    try reflexivity; apply (noLF_string_of_uint (_ d)) || apply noLF_string_of_uint.
Qed.

Lemma convertKey_noLF (key hexkey : string) :
  convertKey key = Ok hexkey -> noLF hexkey = true.
Proof.
  unfold convertKey. destruct (Base64.DecodeString (TrimSpace key)); [|discriminate].
  intros Heq. inversion Heq. apply noLF_hex.
Qed.

(** The configuration text has one line for the allowed range. *)
Lemma allowedIPLines_uapiConfig (priv pub ep a0 : string) (ka : Z) :
  noLF priv = true -> noLF pub = true -> noLF ep = true -> noLF a0 = true ->
  allowedIPLines (uapiConfig priv pub ep a0 ka) = ["allowed_ip=" ++ a0].
Proof.
  intros Hpriv Hpub Hep Ha.
  unfold allowedIPLines, uapiConfig.
  replace ("private_key=" ++ priv ++ nl ++ "public_key=" ++ pub ++ nl ++
           "endpoint=" ++ ep ++ nl ++ "allowed_ip=" ++ a0 ++ nl ++
           "persistent_keepalive_interval=" ++ Strconv.Itoa ka ++ nl)
    with (("private_key=" ++ priv) ++ nl ++ ("public_key=" ++ pub) ++ nl ++
          ("endpoint=" ++ ep) ++ nl ++ ("allowed_ip=" ++ a0) ++ nl ++
          ("persistent_keepalive_interval=" ++ Strconv.Itoa ka) ++ nl ++ "")
    by reflexivity.
  rewrite !Split_line by (rewrite noLF_app; cbn [noLF];
                          first [rewrite Hpriv | rewrite Hpub | rewrite Hep
                                | rewrite Ha | rewrite noLF_Itoa]; reflexivity).
  cbn [filter]. rewrite (HasPrefix_app "allowed_ip=" a0).
  reflexivity.
Qed.

(** ** Route installation *)

Lemma routeGroup_one_routeAdd `{Lib} (env : Env) (m : Manager) (ip : string)
    (g : Trace) :
  routeGroup env m ip g -> routeAdds g = 1%nat.
Proof.
  intros [[_ ->] | [[_ ->] | [_ (addr & ipNet & idx & _ & ->)]]]; reflexivity.
Qed.

Lemma addRoutes_body_ok `{Lib} (env : Env) (m : Manager) (ip : string)
    (t t1 : Trace) :
  supported (GOOS env) ->
  addRoutes_body env m ip t = (Val None, t1) ->
  exists g, t1 = (t ++ g)%list /\ routeGroup env m ip g.
Proof.
  intros Hsup. unfold addRoutes_body, routeGroup, bind, exec, ret.
  destruct (negb (isValidIP ip)); [discriminate|].
  destruct (negb (isValidInterfaceName (interfaceName m))); [discriminate|].
  destruct (String.eqb_spec (GOOS env) "darwin") as [Hd|Hd].
  { cbn beta iota. destruct (Exec_result env t _) as [out [e|]]; [discriminate|].
    intros Heq. inversion Heq. eexists. split; [reflexivity|]. left. auto. }
  destruct (String.eqb_spec (GOOS env) "linux") as [Hl|Hl].
  { cbn beta iota. destruct (Exec_result env t _) as [out [e|]]; [discriminate|].
    intros Heq. inversion Heq. eexists. split; [reflexivity|]. right. left. auto. }
  destruct (String.eqb_spec (GOOS env) "windows") as [Hw|Hw].
  { cbn beta iota. destruct (Exec_result env t _) as [output [e|]]; [discriminate|].
    destruct (String.eqb _ ""); [discriminate|].
    destruct (ParseCIDR ip) as [[addr ipNet]|] eqn:Hcidr; [|discriminate].
    cbn beta iota. destruct (Exec_result env _ _) as [out [e|]]; [discriminate|].
    intros Heq. inversion Heq. rewrite <- app_assoc. eexists. split; [reflexivity|].
    right. right. split; [exact Hw|]. do 3 eexists. split; reflexivity. }
  destruct Hsup as [?|[?|?]]; contradiction.
Qed.

Lemma addRoutes_loop_ok `{Lib} (env : Env) (m : Manager) (ips : list string) :
  supported (GOOS env) ->
  forall t t',
    addRoutes_loop env m ips t = (Val None, t') ->
    exists groups,
      t' = (t ++ List.concat groups)%list /\ Forall2 (routeGroup env m) ips groups.
Proof.
  intros Hsup. induction ips as [|ip ips IH]; intros t t'; cbn [addRoutes_loop].
  - unfold ret. intros Heq. inversion Heq. exists []. rewrite app_nil_r. auto.
  - unfold bind.
    destruct (addRoutes_body env m ip t) as [[[e|]|msg|c] t1] eqn:Hb; try discriminate.
    intros Hrest.
    destruct (addRoutes_body_ok env m ip t t1 Hsup Hb) as [g [-> Hg]].
    destruct (IH _ _ Hrest) as [groups [-> Hgs]].
    exists (g :: groups). cbn [List.concat]. rewrite app_assoc. auto.
Qed.

Lemma routeAdds_groups `{Lib} (env : Env) (m : Manager) (ips : list string)
    (groups : list Trace) :
  Forall2 (routeGroup env m) ips groups ->
  routeAdds (List.concat groups) = List.length ips.
Proof.
  induction 1 as [|ip g ips groups Hg _ IH]; [reflexivity|].
  cbn [List.concat List.length]. unfold routeAdds in *.
  rewrite filter_app, length_app, IH.
  pose proof (routeGroup_one_routeAdd env m ip g Hg) as H1.
  unfold routeAdds in H1. rewrite H1. reflexivity.
Qed.

(** Route installation ends at the first command that fails: with the two
    ranges of the example and an [ip route add] that fails, one command is
    run and its error returned. *)
Lemma addRoutes_stops_at_failed_command :
  run (@addRoutes IPv4.lib Examples.envRouteAddFails
         (Examples.mgrUp Examples.cfgTwoRanges "wg0")) =
  (Val (Some "failed to add route 10.0.0.0/24: exit status 2: RTNETLINK answers: File exists"),
   [EvExec ["ip"; "route"; "add"; "10.0.0.0/24"; "dev"; "wg0"]]).
Proof. reflexivity. Qed.

(** The example of two ranges: the text given to the device has the one
    allowed_ip line of the first range. *)
Lemma allowed_ip_line_of_two_ranges :
  map (fun e => match e with EvIpcSet uapi => allowedIPLines uapi | _ => [] end)
      (snd (run (setupWireguardDevice Examples.envLinux
                   (NewManager Examples.cfgTwoRanges))))
  = [[]; []; []; ["allowed_ip=10.0.0.0/24"]; []].
Proof. reflexivity. Qed.

(** The calls of a device set-up that succeeds. *)
Lemma setupWireguardDevice_ok_trace (env : Env) (m : Manager) (t t1 : Trace)
    (dev : Device) (name : string) :
  setupWireguardDevice env m t = (Val (Ok (dev, name)), t1) ->
  exists priv pub first rest,
    convertKey (PrivateKey (Interface (config m))) = Ok priv
    /\ convertKey (PublicKey (Peer (config m))) = Ok pub
    /\ AllowedIPs (Peer (config m)) = first :: rest
    /\ t1 = (t ++ [EvCreateTUN (getTunnelName env) DefaultMTU; EvTunName; EvNewDevice;
                   EvIpcSet (uapiConfig priv pub
                               (TrimSpace (Endpoint (Peer (config m))))
                               (TrimSpace first)
                               (PersistentKeepalive (Peer (config m))));
                   EvUp])%list.
Proof.
  unfold setupWireguardDevice, index, bind, emit, ret, panic. intros Hs.
  destruct (CreateTUN_result env (getTunnelName env) DefaultMTU);
    cbn beta iota in Hs; [discriminate Hs|].
  destruct (TunName_result env (getTunnelName env)) as [actual|];
    cbn beta iota in Hs; [|discriminate Hs].
  destruct (convertKey (PrivateKey (Interface (config m)))) as [priv|];
    cbn beta iota in Hs; [|discriminate Hs].
  destruct (convertKey (PublicKey (Peer (config m)))) as [pub|];
    cbn beta iota in Hs; [|discriminate Hs].
  destruct (AllowedIPs (Peer (config m))) as [|first rest];
    cbn [nth_error] in Hs; cbn beta iota in Hs; [discriminate Hs|].
  destruct (IpcSet_result env _); cbn beta iota in Hs; [discriminate Hs|].
  exists priv, pub, first, rest. inversion Hs. rewrite <- !app_assoc.
  repeat split; reflexivity.
Qed.

(** Address assignment runs no command that adds a route. *)
Lemma configureIPAddress_no_routeAdd `{Lib} (env : Env) (m : Manager) (t : Trace) :
  exists evs, snd (configureIPAddress env m t) = (t ++ evs)%list /\ routeAdds evs = 0%nat.
Proof.
  assert (Ha : adds (fun e => isRouteAdd e = false) (configureIPAddress env m)).
  { unfold configureIPAddress. adds_tac.
    all: try apply maskString_adds.
    all: try (apply adds_exec; reflexivity). }
  destruct (Ha t) as [evs [Hsnd HF]]. exists evs. split; [exact Hsnd|].
  unfold routeAdds. clear Hsnd. induction HF as [|e evs He _ IH]; [reflexivity|].
  cbn [filter]. rewrite He. exact IH.
Qed.




(** * Further properties of the code *)

(** ** The order of set-up *)

Lemma setupWireguardDevice_adds_notExec (env : Env) (m : Manager) :
  adds notExec (setupWireguardDevice env m).
Proof.
  unfold setupWireguardDevice, notExec. adds_tac; auto with adds; try discriminate.
  all: try (apply adds_emit; discriminate).
Qed.

Lemma configureIPAddress_adds_isExec `{Lib} (env : Env) (m : Manager) :
  adds isExec (configureIPAddress env m).
Proof.
  unfold configureIPAddress, isExec. adds_tac.
  all: try apply maskString_adds.
  all: try (apply adds_exec; eexists; reflexivity).
Qed.

Lemma addRoutes_body_adds_isExec `{Lib} (env : Env) (m : Manager) (ip : string) :
  adds isExec (addRoutes_body env m ip).
Proof.
  unfold addRoutes_body, isExec. adds_tac.
  all: try (apply adds_exec; eexists; reflexivity).
Qed.

Lemma addRoutes_adds_isExec `{Lib} (env : Env) (m : Manager) :
  adds isExec (addRoutes env m).
Proof.
  unfold addRoutes. induction (AllowedIPs (Peer (config m))) as [|ip ips IH]; simpl.
  - apply adds_ret.
  - apply adds_bind; [apply addRoutes_body_adds_isExec|].
    intros [e|]; [apply adds_ret|exact IH].
Qed.

(** A device set-up that fails ends [Setup] at once: the error is returned as
    it is, the manager is left without a device, and no command has been
    run. *)
Theorem Setup_device_failure_runs_no_command (L : Lib) (env : Env) (m : Manager)
    (t t1 : Trace) (e : string) :
  setupWireguardDevice env m t = (Val (Err e), t1) ->
  Setup env m t = (Val (m, Some e), t1)
  /\ exists evs, t1 = (t ++ evs)%list /\ Forall notExec evs.
Proof.
  intros Hdev. split.
  - unfold Setup, bind. rewrite Hdev. reflexivity.
  - destruct (setupWireguardDevice_adds_notExec env m t) as [evs [Hsnd HF]].
    rewrite Hdev in Hsnd. exists evs. auto.
Qed.

Lemma Setup_device_failure_runs_no_command_witness :
  @Setup IPv4.lib Examples.envLinux (NewManager Examples.cfgBadKey) []
  = (Val (NewManager Examples.cfgBadKey,
          Some ("invalid private key: failed to decode base64 key: "
                ++ "illegal base64 data at input byte 0")),
     [EvCreateTUN "wg0" 1420; EvTunName; EvNewDevice]).
Proof.
  exact (proj1 (Setup_device_failure_runs_no_command IPv4.lib Examples.envLinux
                  (NewManager Examples.cfgBadKey) [] _ _ eq_refl)).
Defined.

(** The events of [Setup] come in two parts: those of the device, with no
    command among them, and then commands only.  A command is run only after
    the device has been brought up: when there is one, the device part ends
    with the call that brings the device up. *)
Theorem Setup_commands_follow_activation (L : Lib) (env : Env) (m : Manager)
    (t : Trace) :
  exists devEvs cmdEvs,
    snd (Setup env m t) = (t ++ devEvs ++ cmdEvs)%list
    /\ Forall notExec devEvs
    /\ Forall isExec cmdEvs
    /\ (cmdEvs <> [] -> exists before, devEvs = (before ++ [EvUp])%list).
Proof.
  destruct (setupWireguardDevice_adds_notExec env m t) as [devEvs [Hdev HFdev]].
  unfold Setup, bind.
  destruct (setupWireguardDevice env m t) as [[[[dev name]|err]|msg|c] t1] eqn:Hs;
    cbn [snd] in Hdev; subst t1.
  - (* the device is up *)
    assert (Hlast : exists before, devEvs = (before ++ [EvUp])%list).
    { clear HFdev. revert Hs.
      unfold setupWireguardDevice, index, bind, emit, ret, panic.
      intros Hs.
      repeat (cbn beta iota in Hs; cases_in Hs);
        cbn beta iota in Hs; apply pair_equal_spec in Hs; destruct Hs as [Hv Ht];
        try discriminate Hv;
        rewrite <- ?app_assoc in Ht; apply app_inv_head in Ht; subst devEvs.
      eexists [_; _; _; _]. reflexivity. }
    set (m' := {| config := config m; device := Some dev; interfaceName := name |}).
    destruct (configureIPAddress_adds_isExec env m' (t ++ devEvs)%list) as [e1 [H1 F1]].
    destruct (configureIPAddress env m' (t ++ devEvs)%list) as [[[e|]|msg|c] t2];
      cbn [snd] in H1; subst t2.
    + exists devEvs, e1. rewrite app_assoc. auto.
    + destruct (addRoutes_adds_isExec env m' ((t ++ devEvs) ++ e1)%list) as [e2 [H2 F2]].
      exists devEvs, (e1 ++ e2)%list.
      split.
      { destruct (addRoutes env m' ((t ++ devEvs) ++ e1)%list) as [[[e|]|msg|c] t3];
          cbn [snd] in *; subst t3; rewrite <- !app_assoc; reflexivity. }
      split; [exact HFdev|]. split; [apply Forall_app; auto|auto].
    + exists devEvs, e1. rewrite app_assoc. auto.
    + exists devEvs, e1. rewrite app_assoc. auto.
  - exists devEvs, []. rewrite app_nil_r. cbn [snd]. repeat split; auto. congruence.
  - exists devEvs, []. rewrite app_nil_r. cbn [snd]. repeat split; auto. congruence.
  - exists devEvs, []. rewrite app_nil_r. cbn [snd]. repeat split; auto. congruence.
Qed.

(** What device set-up has checked when it succeeds. *)
Lemma setupWireguardDevice_ok (env : Env) (m : Manager) (t t1 : Trace)
    (dev : Device) (name : string) :
  setupWireguardDevice env m t = (Val (Ok (dev, name)), t1) ->
  dev = {| tun := name |}
  /\ TunName_result env (getTunnelName env) = Ok name
  /\ (exists priv, convertKey (PrivateKey (Interface (config m))) = Ok priv)
  /\ (exists pub, convertKey (PublicKey (Peer (config m))) = Ok pub)
  /\ AllowedIPs (Peer (config m)) <> [].
Proof.
  unfold setupWireguardDevice, index, bind, emit, ret, panic. intros Hs.
  repeat (cbn beta iota in Hs; cases_in Hs);
    cbn beta iota in Hs; apply pair_equal_spec in Hs; destruct Hs as [Hv Ht];
    try discriminate Hv.
  inversion Hv; subst.
  repeat split; eauto.
  intros Hnil.
  match goal with
  | H : nth_error _ 0 = Some _ |- _ => rewrite Hnil in H; discriminate H
  end.
Qed.

Lemma configureIPAddress_ok `{Lib} (env : Env) (m : Manager) (t t1 : Trace) :
  configureIPAddress env m t = (Val None, t1) ->
  ParseCIDR (Address (Interface (config m))) <> None.
Proof.
  unfold configureIPAddress.
  destruct (ParseCIDR (Address (Interface (config m)))); [discriminate|].
  unfold ret. discriminate.
Qed.

Lemma addRoutes_body_nil `{Lib} (env : Env) (m : Manager) (ip : string)
    (t t1 : Trace) :
  addRoutes_body env m ip t = (Val None, t1) ->
  isValidIP ip = true /\ isValidInterfaceName (interfaceName m) = true.
Proof.
  unfold addRoutes_body.
  destruct (isValidIP ip); [|discriminate].
  destruct (isValidInterfaceName (interfaceName m)); [auto|discriminate].
Qed.

Lemma addRoutes_loop_nil `{Lib} (env : Env) (m : Manager) (ips : list string) :
  forall t t1,
    addRoutes_loop env m ips t = (Val None, t1) ->
    Forall (fun ip => isValidIP ip = true) ips
    /\ (ips <> [] -> isValidInterfaceName (interfaceName m) = true).
Proof.
  induction ips as [|ip ips IH]; intros t t1; cbn [addRoutes_loop].
  - intros _. split; [constructor|congruence].
  - unfold bind.
    destruct (addRoutes_body env m ip t) as [[[e|]|msg|c] t2] eqn:Hb; try discriminate.
    intros Hrest. destruct (addRoutes_body_nil env m ip t t2 Hb) as [Hip Hname].
    destruct (IH _ _ Hrest) as [Hall _]. split; [constructor; assumption|auto].
Qed.

(** When [Setup] returns without error, the configuration has passed every
    check of the code: both keys are base64 text, the interface address is a
    CIDR, there is at least one allowed range and every one of them is a CIDR
    or an address, and the name of the interface fits the pattern.  The
    manager then holds the device and the name the tunnel answered with. *)
Theorem Setup_success_means_checked_configuration (L : Lib) (env : Env)
    (m m' : Manager) (t t' : Trace) :
  Setup env m t = (Val (m', None), t') ->
  config m' = config m
  /\ device m' = Some {| tun := interfaceName m' |}
  /\ TunName_result env (getTunnelName env) = Ok (interfaceName m')
  /\ (exists priv, convertKey (PrivateKey (Interface (config m))) = Ok priv)
  /\ (exists pub, convertKey (PublicKey (Peer (config m))) = Ok pub)
  /\ ParseCIDR (Address (Interface (config m))) <> None
  /\ AllowedIPs (Peer (config m)) <> []
  /\ Forall (fun ip => isValidIP ip = true) (AllowedIPs (Peer (config m)))
  /\ isValidInterfaceName (interfaceName m') = true.
Proof.
  unfold Setup, bind.
  destruct (setupWireguardDevice env m t) as [[[[dev name]|err]|msg|c] t1] eqn:Hs;
    try discriminate.
  destruct (setupWireguardDevice_ok env m t t1 dev name Hs)
    as (Hdev & Hname & Hpriv & Hpub & Hne).
  set (m1 := {| config := config m; device := Some dev; interfaceName := name |}).
  destruct (configureIPAddress env m1 t1) as [[[e|]|msg|c] t2] eqn:Ha; try discriminate.
  destruct (addRoutes env m1 t2) as [[[e|]|msg|c] t3] eqn:Hr; try discriminate.
  intros Heq. inversion Heq; subst m' t'. subst dev.
  pose proof (configureIPAddress_ok env m1 t1 t2 Ha) as Hcidr.
  unfold addRoutes in Hr.
  destruct (addRoutes_loop_nil env m1 _ _ _ Hr) as [Hall Hvalid].
  cbn [config device interfaceName m1] in *.
  repeat split; auto.
Qed.

Lemma Setup_success_means_checked_configuration_witness :
  isValidInterfaceName "wg0" = true
  /\ Forall (fun ip => @isValidIP IPv4.lib ip = true) ["10.0.0.0/24"; "10.0.1.0/24"].
Proof.
  pose proof (Setup_success_means_checked_configuration IPv4.lib Examples.envLinux
                (NewManager Examples.cfgTwoRanges)
                (Examples.mgrUp Examples.cfgTwoRanges "wg0") [] _ eq_refl)
    as (_ & _ & _ & _ & _ & _ & _ & Hall & Hname).
  split; [exact Hname|exact Hall].
Defined.

(** ** Platforms without commands *)

Lemma unsupported_eqb (goos : string) :
  ~ supported goos ->
  String.eqb goos "darwin" = false
  /\ String.eqb goos "linux" = false
  /\ String.eqb goos "windows" = false.
Proof.
  unfold supported. intros Hn.
  repeat split; apply String.eqb_neq; intros Heq; apply Hn; auto.
Qed.

(** On a platform other than darwin, linux and windows neither address
    assignment nor route installation runs any command; each still checks its
    input and reports success when the input passes, so that [Setup] can
    succeed there with nothing configured on the host. *)
Theorem unsupported_platform_configures_nothing (L : Lib) (env : Env)
    (m : Manager) (t : Trace) :
  ~ supported (GOOS env) ->
  snd (configureIPAddress env m t) = t
  /\ snd (addRoutes env m t) = t
  /\ (ParseCIDR (Address (Interface (config m))) <> None ->
      configureIPAddress env m t = (Val None, t))
  /\ (Forall (fun ip => isValidIP ip = true) (AllowedIPs (Peer (config m))) ->
      isValidInterfaceName (interfaceName m) = true ->
      addRoutes env m t = (Val None, t)).
Proof.
  intros Hn. destruct (unsupported_eqb _ Hn) as (Hd & Hl & Hw).
  assert (Hbody : forall ip,
             addRoutes_body env m ip t = (Val None, t)
             \/ exists e, addRoutes_body env m ip t = (Val (Some e), t)).
  { intros ip. unfold addRoutes_body. rewrite Hd, Hl, Hw.
    destruct (isValidIP ip); cbn [negb]; [|right; eexists; reflexivity].
    destruct (isValidInterfaceName (interfaceName m)); cbn [negb];
      [left; reflexivity|right; eexists; reflexivity]. }
  assert (Hloop : forall ips, snd (addRoutes_loop env m ips t) = t).
  { induction ips as [|ip ips IH]; [reflexivity|].
    cbn [addRoutes_loop]. unfold bind.
    destruct (Hbody ip) as [Hb | [e Hb]]; rewrite Hb; [exact IH|reflexivity]. }
  split; [|split; [|split]].
  - unfold configureIPAddress. rewrite Hd, Hl, Hw.
    destruct (ParseCIDR (Address (Interface (config m)))) as [[ip ipNet]|]; reflexivity.
  - apply Hloop.
  - intros Hc. unfold configureIPAddress. rewrite Hd, Hl, Hw.
    destruct (ParseCIDR (Address (Interface (config m)))) as [[ip ipNet]|];
      [reflexivity|contradiction].
  - intros Hall Hname. unfold addRoutes.
    induction Hall as [|ip ips Hip _ IH]; [reflexivity|].
    cbn [addRoutes_loop]. unfold bind, addRoutes_body.
    rewrite Hip, Hname, Hd, Hl, Hw. cbn [negb]. exact IH.
Qed.

Lemma unsupported_platform_configures_nothing_witness :
  @configureIPAddress IPv4.lib MoreExamples.envFreeBSD
    (Examples.mgrUp Examples.cfgTwoRanges "wg0") [] = (Val None, [])
  /\ @addRoutes IPv4.lib MoreExamples.envFreeBSD
       (Examples.mgrUp Examples.cfgTwoRanges "wg0") [] = (Val None, []).
Proof.
  destruct (unsupported_platform_configures_nothing IPv4.lib MoreExamples.envFreeBSD
              (Examples.mgrUp Examples.cfgTwoRanges "wg0") [])
    as (_ & _ & Hc & Hr).
  - intros [H|[H|H]]; discriminate H.
  - split.
    + apply Hc. discriminate.
    + apply Hr; [|reflexivity].
      apply Forall_cons; [reflexivity|].
      apply Forall_cons; [reflexivity|apply Forall_nil].
Defined.

(** ** Teardown *)

Lemma closes_app (a b : Trace) : closes (a ++ b)%list = (closes a + closes b)%nat.
Proof. unfold closes. rewrite filter_app, length_app. reflexivity. Qed.

Lemma closes_cleanupCommand (env : Env) (m : Manager) :
  closes (cleanupCommand env m) = 0%nat.
Proof.
  unfold cleanupCommand.
  destruct (String.eqb (GOOS env) "darwin"); [reflexivity|].
  destruct (String.eqb (GOOS env) "linux"); [reflexivity|].
  destruct (String.eqb (GOOS env) "windows"); reflexivity.
Qed.

Lemma Cleanup_trace (env : Env) (m : Manager) (t : Trace) :
  Cleanup env m t = (Val tt, (t ++ cleanupEvents env m)%list).
Proof.
  unfold Cleanup, cleanupEvents, cleanupCommand, bind, emit, exec, ret.
  destruct (device m); cbn beta iota;
    destruct (String.eqb (GOOS env) "darwin");
    [| destruct (String.eqb (GOOS env) "linux");
       [| destruct (String.eqb (GOOS env) "windows")] | |
       destruct (String.eqb (GOOS env) "linux");
       [| destruct (String.eqb (GOOS env) "windows")]];
    cbn beta iota; rewrite <- ?app_assoc; cbn [app]; rewrite ?app_nil_r; reflexivity.
Qed.

(** [Cleanup] is best effort: it returns normally whatever its command
    answers, and what it does depends on the manager and the platform only.
    It closes the device when the manager holds one and runs at most one
    command.  It leaves the device in the manager, so that a second call does
    the same again: the device is closed once per call. *)
Theorem Cleanup_best_effort_and_repeated (env : Env) (m : Manager) (t : Trace) :
  Cleanup env m t = (Val tt, (t ++ cleanupEvents env m)%list)
  /\ closes (cleanupEvents env m) = match device m with Some _ => 1 | None => 0 end%nat
  /\ (List.length (cleanupCommand env m) <= 1)%nat
  /\ Forall isExec (cleanupCommand env m)
  /\ bind (Cleanup env m) (fun _ => Cleanup env m) t
     = (Val tt, (t ++ cleanupEvents env m ++ cleanupEvents env m)%list).
Proof.
  split; [apply Cleanup_trace|]. split; [|split; [|split]].
  - unfold cleanupEvents. rewrite closes_app, closes_cleanupCommand.
    destruct (device m); reflexivity.
  - unfold cleanupCommand.
    destruct (String.eqb (GOOS env) "darwin"); [cbn; lia|].
    destruct (String.eqb (GOOS env) "linux"); [cbn; lia|].
    destruct (String.eqb (GOOS env) "windows"); cbn; lia.
  - unfold cleanupCommand, isExec.
    destruct (String.eqb (GOOS env) "darwin");
      [apply Forall_cons; [eexists; reflexivity|apply Forall_nil]|].
    destruct (String.eqb (GOOS env) "linux");
      [apply Forall_cons; [eexists; reflexivity|apply Forall_nil]|].
    destruct (String.eqb (GOOS env) "windows");
      [apply Forall_cons; [eexists; reflexivity|apply Forall_nil]|apply Forall_nil].
  - unfold bind. rewrite !Cleanup_trace, <- app_assoc. reflexivity.
Qed.

(** ** The monitor loop, tick by tick *)

Lemma statusQueries_app (a b : Trace) :
  statusQueries (a ++ b)%list = (statusQueries a + statusQueries b)%nat.
Proof. unfold statusQueries. rewrite filter_app, length_app. reflexivity. Qed.

Lemma renderEvents_facts `{Lib} (rx tx : Z) :
  Forall queryOrPrint (renderEvents rx tx)
  /\ statusQueries (renderEvents rx tx) = 0%nat
  /\ closes (renderEvents rx tx) = 0%nat.
Proof.
  unfold renderEvents, queryOrPrint. split; [|split; reflexivity].
  repeat (apply Forall_cons; [right; eexists; reflexivity|]). apply Forall_nil.
Qed.

(** What one tick does: it returns normally, with at most one status query
    and otherwise writes to the terminal only. *)
Lemma onTick_events `{Lib} (env : Env) (serviceMode : bool) (rules : list string)
    (mgr : Manager) (last : Z * Z) (t : Trace) :
  exists last' evs,
    onTick env serviceMode rules mgr last t = (Val last', (t ++ evs)%list)
    /\ Forall queryOrPrint evs
    /\ (statusQueries evs <= 1)%nat
    /\ closes evs = 0%nat.
Proof.
  destruct (samplesOnTick serviceMode rules) eqn:Hg.
  - assert (Hs : exists now evs0,
               GetTrafficStats env mgr t = (Val now, (t ++ evs0)%list)
               /\ Forall queryOrPrint evs0 /\ (statusQueries evs0 <= 1)%nat
               /\ closes evs0 = 0%nat).
    { unfold GetTrafficStats, bind, ipcGet, ret.
      destruct (device mgr); cbn beta iota.
      - destruct (IpcGet_result env t); do 2 eexists;
          (split; [reflexivity|]);
          (split; [apply Forall_cons; [left; reflexivity|apply Forall_nil]|]);
          split; cbn; lia.
      - exists (0, 0), []. rewrite app_nil_r.
        split; [reflexivity|]. split; [constructor|]. split; cbn; lia. }
    destruct Hs as (now & evs0 & Hget & HF & Hq & Hc).
    rewrite (onTick_open env serviceMode rules mgr last t now _ Hg Hget).
    exists now, (evs0 ++ redraw last now)%list. rewrite app_assoc.
    split; [reflexivity|].
    destruct (renderEvents_facts (fst now) (snd now)) as (HFr & Hqr & Hcr).
    unfold redraw.
    destruct ((fst now =? fst last) && (snd now =? snd last))%bool.
    + rewrite app_nil_r. auto.
    + split; [apply Forall_app; auto|].
      rewrite statusQueries_app, closes_app, Hqr, Hcr. split; lia.
  - rewrite (onTick_closed env serviceMode rules mgr last t Hg).
    exists last, []. rewrite app_nil_r.
    split; [reflexivity|]. split; [constructor|]. split; cbn; lia.
Qed.

Lemma monitor_without_signal (L : Lib) (env : Env)
    (serviceMode : bool) (rules : list string) (mgr : Manager)
    (wakes : list Wake) (last : Z * Z) (t : Trace) :
  ~ In Signal wakes ->
  exists last' evs,
    monitor env serviceMode rules mgr wakes last t = (Val last', (t ++ evs)%list)
    /\ Forall queryOrPrint evs
    /\ (statusQueries evs <= List.length wakes)%nat
    /\ closes evs = 0%nat.
Proof.
  revert last t. induction wakes as [|w wakes IH]; intros last t Hns.
  - exists last, []. rewrite app_nil_r. cbn. repeat split; auto.
  - destruct w; [exfalso; apply Hns; left; reflexivity|].
    cbn [monitor]. unfold bind.
    destruct (onTick_events env serviceMode rules mgr last t)
      as (last1 & e1 & H1 & F1 & Q1 & C1).
    rewrite H1.
    destruct (IH last1 (t ++ e1)%list) as (last2 & e2 & H2 & F2 & Q2 & C2).
    { intros Hin. apply Hns. right. exact Hin. }
    rewrite H2. exists last2, (e1 ++ e2)%list. rewrite app_assoc.
    split; [reflexivity|]. split; [apply Forall_app; auto|].
    rewrite statusQueries_app, closes_app. cbn [List.length]. split; lia.
Qed.

(** The loop without a signal returns normally; it never runs a command,
    never touches the configuration of the device and never closes it: it
    adds status queries, at most one per tick, and writes to the terminal. *)
Theorem monitor_ticks_only_query_and_print (L : Lib) (env : Env)
    (serviceMode : bool) (rules : list string) (mgr : Manager)
    (wakes : list Wake) (last : Z * Z) (t : Trace) :
  ~ In Signal wakes ->
  exists last' evs,
    monitor env serviceMode rules mgr wakes last t = (Val last', (t ++ evs)%list)
    /\ Forall queryOrPrint evs
    /\ (statusQueries evs <= List.length wakes)%nat
    /\ closes evs = 0%nat.
Proof. exact (monitor_without_signal L env serviceMode rules mgr wakes last t). Qed.

Lemma monitor_ticks_only_query_and_print_witness :
  exists last' evs,
    @monitor IPv4.lib Examples.envGrowing false ["rule"]
      (Examples.mgrUp Examples.cfgTwoRanges "wg0") [Tick; Tick; Tick] (0, 0) []
    = (Val last', ([] ++ evs)%list)
    /\ Forall queryOrPrint evs
    /\ (statusQueries evs <= 3)%nat
    /\ closes evs = 0%nat.
Proof.
  apply (monitor_ticks_only_query_and_print IPv4.lib Examples.envGrowing false ["rule"]
           (Examples.mgrUp Examples.cfgTwoRanges "wg0") [Tick; Tick; Tick] (0, 0) []).
  cbn. intros [H|[H|[H|H]]]; try discriminate H; exact H.
Defined.

(** What the signal case adds, and that it ends the process with status 0. *)
Lemma onSignal_trace (env : Env) (serviceMode : bool) (mgr : Manager) (t : Trace) :
  exists evs,
    onSignal env serviceMode mgr t = (Exited 0, ((t ++ evs) ++ [EvExit 0])%list)
    /\ closes evs = match device mgr with Some _ => 1 | None => 0 end%nat.
Proof.
  unfold onSignal, bind, print, emit, exit, ret.
  destruct serviceMode; cbn [negb]; cbn beta iota; rewrite Cleanup_trace.
  - exists (cleanupEvents env mgr). split; [reflexivity|].
    unfold cleanupEvents. rewrite closes_app, closes_cleanupCommand.
    destruct (device mgr); reflexivity.
  - eexists (_ :: cleanupEvents env mgr). rewrite <- !app_assoc. cbn [app].
    split; [reflexivity|].
    change (closes (?e :: cleanupEvents env mgr))
      with (closes (cleanupEvents env mgr)).
    unfold cleanupEvents. rewrite closes_app, closes_cleanupCommand.
    destruct (device mgr); reflexivity.
Qed.

Lemma monitor_with_signal (L : Lib) (env : Env) (serviceMode : bool)
    (rules : list string) (mgr : Manager) (pre post : list Wake)
    (last : Z * Z) (t : Trace) :
  ~ In Signal pre ->
  (exists evs,
     monitor env serviceMode rules mgr (pre ++ Signal :: post) last t
     = (Exited 0, ((t ++ evs) ++ [EvExit 0])%list)
     /\ closes evs = match device mgr with Some _ => 1 | None => 0 end%nat)
  /\ monitor env serviceMode rules mgr (pre ++ Signal :: post) last t
     = monitor env serviceMode rules mgr (pre ++ [Signal]) last t
  /\ exists last', fst (monitor env serviceMode rules mgr pre last t) = Val last'.
Proof.
  revert last t. induction pre as [|w pre IH]; intros last t Hns.
  - cbn [app monitor]. unfold bind.
    destruct (onSignal_trace env serviceMode mgr t) as [evs [Hs Hc]].
    rewrite Hs. split; [exists evs; auto|]. split; [reflexivity|].
    exists last. reflexivity.
  - destruct w; [exfalso; apply Hns; left; reflexivity|].
    cbn [app monitor]. unfold bind.
    destruct (onTick_events env serviceMode rules mgr last t)
      as (last1 & e1 & H1 & F1 & Q1 & C1).
    rewrite H1.
    destruct (IH last1 (t ++ e1)%list) as ([evs [Hm Hc]] & Heq & Hval).
    { intros Hin. apply Hns. right. exact Hin. }
    split; [|split; [exact Heq|exact Hval]].
    exists (e1 ++ evs)%list. rewrite Hm, closes_app, C1, app_assoc. auto.
Qed.

(** The loop is left by a signal and by nothing else.  With a signal among
    the wake-ups the process ends with status 0, after the ticks before the
    signal, one teardown (the device closed once, when the manager holds it)
    and nothing more: the wake-ups after the first signal are not looked at.
    Without a signal the loop does not end the process. *)
Theorem monitor_left_by_signal_only (L : Lib) (env : Env) (serviceMode : bool)
    (rules : list string) (mgr : Manager) (pre post : list Wake)
    (last : Z * Z) (t : Trace) :
  ~ In Signal pre ->
  (exists evs,
     monitor env serviceMode rules mgr (pre ++ Signal :: post) last t
     = (Exited 0, ((t ++ evs) ++ [EvExit 0])%list)
     /\ closes evs = match device mgr with Some _ => 1 | None => 0 end%nat)
  /\ monitor env serviceMode rules mgr (pre ++ Signal :: post) last t
     = monitor env serviceMode rules mgr (pre ++ [Signal]) last t
  /\ exists last', fst (monitor env serviceMode rules mgr pre last t) = Val last'.
Proof. exact (monitor_with_signal L env serviceMode rules mgr pre post last t). Qed.

Lemma monitor_left_by_signal_only_witness :
  @monitor IPv4.lib Examples.envLinux false ["rule"]
    (Examples.mgrUp Examples.cfgTwoRanges "wg0") ([Tick] ++ Signal :: [Tick; Signal]) (0, 0) []
  = @monitor IPv4.lib Examples.envLinux false ["rule"]
      (Examples.mgrUp Examples.cfgTwoRanges "wg0") ([Tick] ++ [Signal]) (0, 0) [].
Proof.
  refine (proj1 (proj2 (monitor_left_by_signal_only IPv4.lib Examples.envLinux false
                          ["rule"] (Examples.mgrUp Examples.cfgTwoRanges "wg0")
                          [Tick] [Tick; Signal] (0, 0) [] _))).
  cbn. intros [H|H]; [discriminate H|exact H].
Defined.

(** ** The connect command from set-up to exit *)

Lemma noExit_ret {A} (a : A) : noExit (ret a).
Proof. intros t c. discriminate. Qed.

Lemma noExit_panic {A} (msg : string) : noExit (@panic A msg).
Proof. intros t c. discriminate. Qed.

Lemma noExit_emit (e : Event) : noExit (emit e).
Proof. intros t c. discriminate. Qed.

Lemma noExit_exec (env : Env) (argv : list string) : noExit (exec env argv).
Proof. intros t c. discriminate. Qed.

Lemma noExit_index {A} (l : list A) (i : nat) : noExit (index l i).
Proof. unfold index. destruct (nth_error l i); [apply noExit_ret|apply noExit_panic]. Qed.

Lemma noExit_bind {A B} (m : M A) (k : A -> M B) :
  noExit m -> (forall a, noExit (k a)) -> noExit (bind m k).
Proof.
  intros Hm Hk t c. unfold bind.
  destruct (m t) as [[a|msg|c'] t1] eqn:Hmt.
  - apply Hk.
  - discriminate.
  - exfalso. apply (Hm t c'). rewrite Hmt. reflexivity.
Qed.

Create HintDb noexit.
#[export] Hint Resolve noExit_ret noExit_panic noExit_emit noExit_exec
  noExit_index : noexit.

Ltac noexit_step :=
  match goal with
  | |- noExit (bind _ _) => apply noExit_bind; [|intros ?]
  | |- noExit (match ?x with _ => _ end) => destruct x
  | |- noExit (let '(_, _) := ?x in _) => destruct x
  | |- noExit _ => solve [auto with noexit]
  end.

Lemma setupWireguardDevice_noExit (env : Env) (m : Manager) :
  noExit (setupWireguardDevice env m).
Proof. unfold setupWireguardDevice. repeat noexit_step. Qed.

Lemma configureIPAddress_noExit `{Lib} (env : Env) (m : Manager) :
  noExit (configureIPAddress env m).
Proof. unfold configureIPAddress, maskString. repeat noexit_step. Qed.

Lemma addRoutes_noExit `{Lib} (env : Env) (m : Manager) : noExit (addRoutes env m).
Proof.
  unfold addRoutes. induction (AllowedIPs (Peer (config m))) as [|ip ips IH];
    cbn [addRoutes_loop]; [apply noExit_ret|].
  apply noExit_bind; [unfold addRoutes_body; repeat noexit_step|].
  intros [e|]; [apply noExit_ret|exact IH].
Qed.

Lemma Setup_noExit `{Lib} (env : Env) (m : Manager) : noExit (Setup env m).
Proof.
  unfold Setup.
  apply noExit_bind; [apply setupWireguardDevice_noExit|].
  intros [[dev name]|err]; [|apply noExit_ret].
  apply noExit_bind; [apply configureIPAddress_noExit|].
  intros [e|]; [apply noExit_ret|].
  apply noExit_bind; [apply addRoutes_noExit|].
  intros [e|]; apply noExit_ret.
Qed.

Lemma Setup_ok_device `{Lib} (env : Env) (m m' : Manager) (t t' : Trace) :
  Setup env m t = (Val (m', None), t') -> exists dev, device m' = Some dev.
Proof.
  unfold Setup, bind.
  destruct (setupWireguardDevice env m t) as [[[[dev name]|err]|msg|c] t1];
    try discriminate.
  destruct (configureIPAddress env _ t1) as [[[e|]|msg|c] t2]; try discriminate.
  destruct (addRoutes env _ t2) as [[[e|]|msg|c] t3]; try discriminate.
  intros Heq. inversion Heq. eexists. reflexivity.
Qed.

Lemma printRules_trace (rules : list string) (t : Trace) :
  printRules rules t = (Val tt, (t ++ map (fun rule => EvPrint (rule ++ nl)) rules)%list).
Proof.
  revert t. induction rules as [|rule rules IH]; intros t.
  - cbn. rewrite app_nil_r. reflexivity.
  - cbn [printRules map]. unfold bind, print, emit. rewrite IH, <- app_assoc. reflexivity.
Qed.

Lemma prints_facts (texts : list string) :
  closes (map EvPrint texts) = 0%nat /\ statusQueries (map EvPrint texts) = 0%nat.
Proof. induction texts as [|x texts [IH1 IH2]]; split; auto. Qed.

Lemma wakes_split (wakes : list Wake) :
  ~ In Signal wakes
  \/ exists pre post, wakes = (pre ++ Signal :: post)%list /\ ~ In Signal pre.
Proof.
  induction wakes as [|w wakes IH]; [left; intros []|].
  destruct w.
  - right. exists [], wakes. split; [reflexivity|intros []].
  - destruct IH as [Hn | (pre & post & -> & Hn)].
    + left. intros [H|H]; [discriminate H|auto].
    + right. exists (Tick :: pre), post. split; [reflexivity|].
      intros [H|H]; [discriminate H|auto].
Qed.

Lemma closes_printed_rules (rules : list string) :
  closes (map (fun rule => EvPrint (rule ++ nl)) rules) = 0%nat.
Proof. induction rules as [|x rules IH]; [reflexivity|exact IH]. Qed.

(** The loop as the last part of the command, when it ends the process. *)
Lemma monitor_exit_case `{Lib} (env : Env) (serviceMode : bool)
    (rules : list string) (mgr : Manager) (dev : Device) (wakes : list Wake)
    (t0 : Trace) (c : Z) (tr : Trace) :
  device mgr = Some dev ->
  closes t0 = 0%nat ->
  match monitor env serviceMode rules mgr wakes (0, 0) t0 with
  | (Val _, t') => (@Val error None, t')
  | (Panic msg, t') => (Panic msg, t')
  | (Exited c', t') => (Exited c', t')
  end = (Exited c, tr) ->
  c = 0
  /\ closes tr = 1%nat
  /\ (exists tr0, tr = (tr0 ++ [EvExit 0])%list)
  /\ In Signal wakes.
Proof.
  intros Hdev Hc0 Hrun.
  destruct (wakes_split wakes) as [Hn | (pre & post & -> & Hn)].
  - destruct (monitor_without_signal _ env serviceMode rules mgr wakes (0, 0) t0 Hn)
      as (last' & evs & Hm & _).
    rewrite Hm in Hrun. discriminate.
  - destruct (monitor_with_signal _ env serviceMode rules mgr pre post (0, 0) t0 Hn)
      as ([evs [Hm Hc]] & _ & _).
    rewrite Hm in Hrun. inversion Hrun; subst c tr.
    rewrite Hdev in Hc.
    split; [reflexivity|]. split.
    + rewrite !closes_app, Hc0, Hc. reflexivity.
    + split; [eexists; reflexivity|apply in_elt].
Qed.

(** The whole run, from the set-up on: the connect operation ends the process
    only through a signal, after a set-up that succeeded, and then with
    status 0; on that way the device is closed exactly once, and the exit is
    the last event. *)
Theorem RunE_exit_closes_device_once (L : Lib) (env : Env) (serviceMode : bool)
    (serverHostname : string) (mappingRules : list string)
    (cfg : WireguardConfig) (wakes : list Wake) (c : Z) (tr : Trace) :
  run (RunE env serviceMode serverHostname mappingRules cfg wakes) = (Exited c, tr) ->
  c = 0
  /\ closes tr = 1%nat
  /\ (exists tr0, tr = (tr0 ++ [EvExit 0])%list)
  /\ In Signal wakes
  /\ exists m', fst (run (Setup env (NewManager cfg))) = Val (m', None).
Proof.
  unfold run, RunE. unfold bind at 1.
  destruct (Setup env (NewManager cfg) []) as [[[m' [e|]]|msg|c'] t1] eqn:HS;
    try discriminate.
  2:{ exfalso. apply (Setup_noExit env (NewManager cfg) [] c'). rewrite HS. reflexivity. }
  destruct (Setup_ok_device env _ m' [] t1 HS) as [dev Hdev].
  assert (Hc1 : closes t1 = 0%nat).
  { apply notClose_closes.
    pose proof (adds_run_Forall notClose _ (Setup_adds_notClose env (NewManager cfg))) as HF.
    unfold run in HF. rewrite HS in HF. exact HF. }
  unfold bind, print, emit, ret. cbn [fst].
  destruct serviceMode; cbn [negb];
    [|destruct (0 <? List.length mappingRules)%nat];
    cbn beta iota; rewrite ?printRules_trace; cbn beta iota;
    intros Hrun;
    apply (monitor_exit_case env _ mappingRules m' dev wakes _ c tr Hdev) in Hrun;
    try (destruct Hrun as (H1 & H2 & H3 & H4);
         repeat split; auto; exists m'; reflexivity);
    rewrite ?closes_app, ?closes_printed_rules, Hc1; reflexivity.
Qed.

Lemma RunE_exit_closes_device_once_witness :
  closes (snd (run (@RunE IPv4.lib Examples.envLinux false "portmap.io" ["rule"]
                      Examples.cfgTwoRanges [Tick; Signal]))) = 1%nat.
Proof.
  exact (proj1 (proj2 (RunE_exit_closes_device_once IPv4.lib Examples.envLinux false
                         "portmap.io" ["rule"] Examples.cfgTwoRanges [Tick; Signal]
                         0 _ eq_refl))).
Defined.

(** ** Runs that never ask the device for its counters *)

Lemma notQuery_statusQueries (tr : Trace) :
  Forall notQuery tr -> statusQueries tr = 0%nat.
Proof.
  unfold statusQueries. induction 1 as [|e tr He _ IH]; [reflexivity|].
  cbn [filter]. rewrite He. exact IH.
Qed.

Lemma setupWireguardDevice_adds_notQuery (env : Env) (m : Manager) :
  adds notQuery (setupWireguardDevice env m).
Proof.
  unfold setupWireguardDevice, notQuery. adds_tac; auto with adds.
  all: try (apply adds_emit; reflexivity).
Qed.

Lemma configureIPAddress_adds_notQuery `{Lib} (env : Env) (m : Manager) :
  adds notQuery (configureIPAddress env m).
Proof.
  unfold configureIPAddress, notQuery. adds_tac.
  all: try apply maskString_adds.
  all: try (apply adds_exec; reflexivity).
Qed.

Lemma addRoutes_adds_notQuery `{Lib} (env : Env) (m : Manager) :
  adds notQuery (addRoutes env m).
Proof.
  unfold addRoutes. induction (AllowedIPs (Peer (config m))) as [|ip ips IH]; simpl.
  - apply adds_ret.
  - apply adds_bind; [|intros [e|]; [apply adds_ret|exact IH]].
    unfold addRoutes_body, notQuery. adds_tac.
    all: try (apply adds_exec; reflexivity).
Qed.

Lemma Setup_adds_notQuery `{Lib} (env : Env) (m : Manager) :
  adds notQuery (Setup env m).
Proof.
  unfold Setup.
  apply adds_bind; [apply setupWireguardDevice_adds_notQuery|].
  intros [[dev name]|err]; [|apply adds_ret].
  apply adds_bind; [apply configureIPAddress_adds_notQuery|].
  intros [e|]; [apply adds_ret|].
  apply adds_bind; [apply addRoutes_adds_notQuery|].
  intros [e|]; apply adds_ret.
Qed.

Lemma printRules_adds_notQuery (rules : list string) :
  adds notQuery (printRules rules).
Proof.
  induction rules as [|rule rules IH]; cbn [printRules]; [apply adds_ret|].
  apply adds_bind; [apply adds_emit; reflexivity|intros _; exact IH].
Qed.

Lemma monitor_adds_notQuery `{Lib} (env : Env) (serviceMode : bool)
    (rules : list string) (mgr : Manager) (wakes : list Wake) (last : Z * Z) :
  samplesOnTick serviceMode rules = false ->
  adds notQuery (monitor env serviceMode rules mgr wakes last).
Proof.
  intros Hg. revert last. induction wakes as [|w wakes IH]; intros last;
    cbn [monitor]; [apply adds_ret|].
  destruct w.
  - apply adds_bind; [|intros _; apply adds_ret].
    unfold onSignal, Cleanup, print, notQuery. adds_tac.
    all: try (apply adds_emit; reflexivity).
    all: try (apply adds_exec; reflexivity).
    all: try (apply adds_exit; reflexivity).
  - apply adds_bind; [|intros last'; apply IH].
    intros t. rewrite (onTick_closed env serviceMode rules mgr last t Hg).
    exists []. cbn [snd]. rewrite app_nil_r. auto.
Qed.

(** In service mode, and when no mapping rule is listed, the connect
    operation never asks the device for its counters, whatever ticks and
    signals arrive. *)
Theorem RunE_without_display_never_queries (L : Lib) (env : Env)
    (serviceMode : bool) (serverHostname : string) (mappingRules : list string)
    (cfg : WireguardConfig) (wakes : list Wake) :
  samplesOnTick serviceMode mappingRules = false ->
  statusQueries
    (snd (run (RunE env serviceMode serverHostname mappingRules cfg wakes))) = 0%nat.
Proof.
  intros Hg. apply notQuery_statusQueries. apply adds_run_Forall.
  unfold RunE.
  apply adds_bind; [apply Setup_adds_notQuery|].
  intros [mgr [e|]]; [apply adds_ret|].
  unfold notQuery. adds_tac.
  all: try (apply adds_emit; reflexivity).
  all: try apply printRules_adds_notQuery.
  all: try (apply monitor_adds_notQuery; exact Hg).
Qed.

Lemma RunE_without_display_never_queries_witness :
  statusQueries
    (snd (run (@RunE IPv4.lib Examples.envLinux false "portmap.io" []
                 Examples.cfgTwoRanges [Tick; Tick; Signal]))) = 0%nat.
Proof.
  exact (RunE_without_display_never_queries IPv4.lib Examples.envLinux false
           "portmap.io" [] Examples.cfgTwoRanges [Tick; Tick; Signal] eq_refl).
Defined.

(** ** The command before the tunnel: file, API answer, rule lines *)

Lemma rulesLoop_complete {F} (front : ConnectCmd.Front F) (localAddress : string)
    (items : list (Json.value F)) (acc : list string) (t : Trace) :
  forallb completeMapping items = true ->
  exists rules,
    ConnectCmd.rulesLoop front localAddress items acc t = (Val (acc ++ rules)%list, t)
    /\ List.length rules = List.length (filter isObj items).
Proof.
  revert acc. induction items as [|item items IH]; intros acc Hc.
  - exists []. rewrite app_nil_r. split; reflexivity.
  - cbn [forallb] in Hc. apply andb_true_iff in Hc. destruct Hc as [Hi Hr].
    destruct item as [|b|f|s|l|m]; cbn [ConnectCmd.rulesLoop filter isObj];
      try (apply IH; exact Hr).
    cbn [completeMapping] in Hi.
    apply andb_true_iff in Hi. destruct Hi as [Hi Hpt].
    apply andb_true_iff in Hi. destruct Hi as [Hi Hpf].
    apply andb_true_iff in Hi. destruct Hi as [Hh Hp].
    destruct (Json.get m "hostname") as [| | |hostname| |]; try discriminate Hh.
    destruct (Json.get m "protocol") as [| | |protocol| |]; try discriminate Hp.
    destruct (Json.get m "port_from") as [| |portFrom| | |]; try discriminate Hpf.
    destruct (Json.get m "port_to") as [| |portTo| | |]; try discriminate Hpt.
    unfold bind, ConnectCmd.mustString, ConnectCmd.mustFloat, ret.
    match goal with
    | |- context [ConnectCmd.rulesLoop _ _ _ (acc ++ [?r])%list] =>
        destruct (IH (acc ++ [r])%list Hr) as [rules [Heq Hlen]];
        exists (r :: rules)
    end.
    rewrite Heq, <- app_assoc. cbn [app List.length]. rewrite Hlen. split; reflexivity.
Qed.

Lemma rulesLoop_incomplete {F} (front : ConnectCmd.Front F) (localAddress : string)
    (items : list (Json.value F)) (acc : list string) (t : Trace) :
  forallb completeMapping items = false ->
  exists msg, ConnectCmd.rulesLoop front localAddress items acc t = (Panic msg, t).
Proof.
  revert acc. induction items as [|item items IH]; intros acc Hc; [discriminate|].
  cbn [forallb] in Hc.
  destruct (completeMapping item) eqn:Hi.
  - cbn [andb] in Hc.
    destruct item as [|b|f|s|l|m]; cbn [ConnectCmd.rulesLoop];
      try (apply IH; exact Hc).
    cbn [completeMapping] in Hi.
    apply andb_true_iff in Hi. destruct Hi as [Hi Hpt].
    apply andb_true_iff in Hi. destruct Hi as [Hi Hpf].
    apply andb_true_iff in Hi. destruct Hi as [Hh Hp].
    destruct (Json.get m "hostname") as [| | |hostname| |]; try discriminate Hh.
    destruct (Json.get m "protocol") as [| | |protocol| |]; try discriminate Hp.
    destruct (Json.get m "port_from") as [| |portFrom| | |]; try discriminate Hpf.
    destruct (Json.get m "port_to") as [| |portTo| | |]; try discriminate Hpt.
    unfold bind, ConnectCmd.mustString, ConnectCmd.mustFloat, ret.
    apply IH. exact Hc.
  - destruct item as [|b|f|s|l|m]; try discriminate Hi.
    cbn [completeMapping] in Hi. cbn [ConnectCmd.rulesLoop].
    unfold bind, ConnectCmd.mustString, ConnectCmd.mustFloat, ret, panic.
    destruct (Json.get m "hostname"); try (eexists; reflexivity).
    destruct (Json.get m "protocol"); try (eexists; reflexivity).
    destruct (Json.get m "port_from"); try (eexists; reflexivity).
    destruct (Json.get m "port_to"); try (eexists; reflexivity).
    discriminate Hi.
Qed.

Lemma deriveRules_complete {F} (front : ConnectCmd.Front F) (config : WireguardConfig)
    (mappings : Json.value F) (t : Trace) :
  forallb completeMapping (listedItems mappings) = true ->
  exists host rules,
    ConnectCmd.deriveRules front config mappings t = (Val (host, rules), t)
    /\ List.length rules = List.length (filter isObj (listedItems mappings)).
Proof.
  unfold ConnectCmd.deriveRules, listedItems.
  destruct mappings as [|b|f|s|l|response];
    try (intros _; exists "", []; split; reflexivity).
  destruct (Json.get response "data") as [|b|f|s|items|m];
    try (intros _; exists "", []; split; reflexivity).
  destruct items as [|first others];
    try (intros _; exists "", []; split; reflexivity).
  destruct first as [|b|f|s|l|mapping];
    try (intros _; exists "", []; split; reflexivity).
  intros Hc.
  destruct (rulesLoop_complete front (beforeSlash (Address (Interface config)))
              (Json.Obj mapping :: others) [] t Hc) as [rules [Heq Hlen]].
  unfold bind. rewrite Heq. cbn [app]. eexists. exists rules.
  split; [reflexivity|exact Hlen].
Qed.

Lemma deriveRules_incomplete {F} (front : ConnectCmd.Front F) (config : WireguardConfig)
    (mappings : Json.value F) (t : Trace) :
  forallb completeMapping (listedItems mappings) = false ->
  exists msg, ConnectCmd.deriveRules front config mappings t = (Panic msg, t).
Proof.
  unfold ConnectCmd.deriveRules, listedItems.
  destruct mappings as [|b|f|s|l|response]; try discriminate.
  destruct (Json.get response "data") as [|b|f|s|items|m]; try discriminate.
  destruct items as [|first others]; try discriminate.
  destruct first as [|b|f|s|l|mapping]; try discriminate.
  intros Hc.
  destruct (rulesLoop_incomplete front (beforeSlash (Address (Interface config)))
              (Json.Obj mapping :: others) [] t Hc) as [msg Heq].
  unfold bind. rewrite Heq. exists msg. reflexivity.
Qed.

(** When every listed mapping has a text for its host name and protocol and
    a number for both ports, the rule lines are derived without touching the
    system, one line per item that is a map; items that are no map give no
    line. *)
Theorem deriveRules_one_line_per_mapping (F : Type) (front : ConnectCmd.Front F)
    (config : WireguardConfig) (mappings : Json.value F) (t : Trace) :
  forallb completeMapping (listedItems mappings) = true ->
  exists host rules,
    ConnectCmd.deriveRules front config mappings t = (Val (host, rules), t)
    /\ List.length rules = List.length (filter isObj (listedItems mappings)).
Proof. exact (deriveRules_complete front config mappings t). Qed.

Lemma deriveRules_one_line_per_mapping_witness :
  exists host rules,
    ConnectCmd.deriveRules (MoreExamples.frontWith (Ok MoreExamples.twoMappings))
      Examples.cfgTwoRanges MoreExamples.twoMappings [] = (Val (host, rules), [])
    /\ List.length rules = 2%nat.
Proof.
  exact (deriveRules_one_line_per_mapping Z
           (MoreExamples.frontWith (Ok MoreExamples.twoMappings))
           Examples.cfgTwoRanges MoreExamples.twoMappings [] eq_refl).
Defined.

(** An answer of the API in which a listed mapping lacks a text for its host
    name or protocol, or a number for one of its ports, makes the command
    panic before anything is done to the system: no device is created and no
    command is run. *)
Theorem RunE_whole_incomplete_mapping_panics_before_setup (L : Lib) (F : Type)
    (front : ConnectCmd.Front F) (env : Env) (serviceMode : bool)
    (token path : string) (wakes : list Wake)
    (cfg : WireguardConfig) (configID : string) (mappings : Json.value F)
    (t : Trace) :
  ParseCfg.ParseConfig (ConnectCmd.ini_Load front path) = Ok (cfg, configID) ->
  ConnectCmd.ListMappings front token configID = Ok mappings ->
  forallb completeMapping (listedItems mappings) = false ->
  exists msg,
    ConnectCmd.RunE_whole front env serviceMode token [path] wakes t = (Panic msg, t).
Proof.
  intros Hp Hl Hc. unfold ConnectCmd.RunE_whole. rewrite Hp, Hl.
  destruct (deriveRules_incomplete front cfg mappings t Hc) as [msg Heq].
  unfold bind. rewrite Heq. exists msg. reflexivity.
Qed.

Lemma RunE_whole_incomplete_mapping_panics_before_setup_witness :
  exists msg,
    @ConnectCmd.RunE_whole IPv4.lib Z
      (MoreExamples.frontWith (Ok MoreExamples.brokenMappings))
      Examples.envLinux false "token" ["wg.conf"] [Tick; Signal] [] = (Panic msg, []).
Proof.
  exact (RunE_whole_incomplete_mapping_panics_before_setup IPv4.lib Z
           (MoreExamples.frontWith (Ok MoreExamples.brokenMappings))
           Examples.envLinux false "token" "wg.conf" [Tick; Signal]
           Examples.cfgTwoRanges "42" MoreExamples.brokenMappings []
           eq_refl eq_refl eq_refl).
Defined.

(** Whenever the command does anything to the system (creates the device,
    runs a command, prints), it was given exactly one argument, the file at
    that path was parsed without error, the API answered, and every listed
    mapping was complete. *)
Theorem RunE_whole_acts_only_after_front_checks (L : Lib) (F : Type)
    (front : ConnectCmd.Front F) (env : Env) (serviceMode : bool)
    (token : string) (args : list string) (wakes : list Wake) (t : Trace) :
  snd (ConnectCmd.RunE_whole front env serviceMode token args wakes t) <> t ->
  exists path cfg configID mappings,
    args = [path]
    /\ ParseCfg.ParseConfig (ConnectCmd.ini_Load front path) = Ok (cfg, configID)
    /\ ConnectCmd.ListMappings front token configID = Ok mappings
    /\ forallb completeMapping (listedItems mappings) = true.
Proof.
  intros Hne. unfold ConnectCmd.RunE_whole in Hne.
  destruct args as [|path [|a2 args]]; try (exfalso; apply Hne; reflexivity).
  destruct (ParseCfg.ParseConfig (ConnectCmd.ini_Load front path))
    as [[cfg configID]|err] eqn:Hp; [|exfalso; apply Hne; reflexivity].
  destruct (ConnectCmd.ListMappings front token configID)
    as [mappings|err] eqn:Hl; [|exfalso; apply Hne; reflexivity].
  exists path, cfg, configID, mappings.
  repeat split; try assumption.
  destruct (forallb completeMapping (listedItems mappings)) eqn:Hc; [reflexivity|].
  exfalso. apply Hne.
  destruct (deriveRules_incomplete front cfg mappings t Hc) as [msg Heq].
  unfold bind. rewrite Heq. reflexivity.
Qed.

Lemma RunE_whole_acts_only_after_front_checks_witness :
  exists path cfg configID mappings,
    ["wg.conf"] = [path]
    /\ @ParseCfg.ParseConfig IPv4.lib
         (ConnectCmd.ini_Load (MoreExamples.frontWith (Ok MoreExamples.twoMappings)) path)
       = Ok (cfg, configID)
    /\ ConnectCmd.ListMappings (MoreExamples.frontWith (Ok MoreExamples.twoMappings))
         "token" configID = Ok mappings
    /\ forallb completeMapping (listedItems mappings) = true.
Proof.
  apply (RunE_whole_acts_only_after_front_checks IPv4.lib Z
           (MoreExamples.frontWith (Ok MoreExamples.twoMappings))
           Examples.envLinux false "token" ["wg.conf"] [] []).
  vm_compute. discriminate.
Defined.

(** When the answer of the API is no map, or its "data" is no slice or an
    empty one, or the first item of "data" is no map, the command goes on
    to set the tunnel up with an empty server host name and no rule line:
    the mappings that may follow a first item that is no map are not
    listed. *)
Theorem RunE_whole_without_listed_items_connects_bare (L : Lib) (F : Type)
    (front : ConnectCmd.Front F) (env : Env) (serviceMode : bool)
    (token path : string) (wakes : list Wake)
    (cfg : WireguardConfig) (configID : string) (mappings : Json.value F)
    (t : Trace) :
  ParseCfg.ParseConfig (ConnectCmd.ini_Load front path) = Ok (cfg, configID) ->
  ConnectCmd.ListMappings front token configID = Ok mappings ->
  listedItems mappings = [] ->
  ConnectCmd.RunE_whole front env serviceMode token [path] wakes t
  = RunE env serviceMode "" [] cfg wakes t.
Proof.
  intros Hp Hl Hi. unfold ConnectCmd.RunE_whole. rewrite Hp, Hl.
  unfold ConnectCmd.deriveRules. unfold listedItems in Hi.
  destruct mappings as [|b|f|s|l|response]; try reflexivity.
  destruct (Json.get response "data") as [|b|f|s|items|m]; try reflexivity.
  destruct items as [|first others]; try reflexivity.
  destruct first as [|b|f|s|l|mapping]; try reflexivity.
  discriminate Hi.
Qed.

Lemma RunE_whole_without_listed_items_connects_bare_witness :
  @ConnectCmd.RunE_whole IPv4.lib Z
    (MoreExamples.frontWith (Ok MoreExamples.strayFirst))
    Examples.envLinux false "token" ["wg.conf"] [Tick; Signal] []
  = @RunE IPv4.lib Examples.envLinux false "" [] Examples.cfgTwoRanges [Tick; Signal] [].
Proof.
  exact (RunE_whole_without_listed_items_connects_bare IPv4.lib Z
           (MoreExamples.frontWith (Ok MoreExamples.strayFirst))
           Examples.envLinux false "token" "wg.conf"
           [Tick; Signal] Examples.cfgTwoRanges "42" MoreExamples.strayFirst []
           eq_refl eq_refl eq_refl).
Defined.

(** ** The parser: what it requires and what it keeps *)

Lemma concat_Split (s : string) (sep : ascii) :
  String.concat (String sep "") (Split s sep) = s.
Proof.
  induction s as [|c s IH]; [reflexivity|].
  cbn [Split]. pose proof (Split_not_nil s sep) as Hne.
  destruct (Ascii.eqb c sep) eqn:Hc.
  - apply Ascii.eqb_eq in Hc. subst c.
    destruct (Split s sep) as [|w ws]; [contradiction|].
    cbn [String.concat] in *. rewrite IH. reflexivity.
  - destruct (Split s sep) as [|w ws]; [contradiction|].
    cbn [String.concat] in *. destruct ws as [|w' ws].
    + rewrite IH. reflexivity.
    + rewrite <- IH. reflexivity.
Qed.

Lemma Split_free_of_sep (s : string) (sep : ascii) :
  Forall (fun w => ~ In sep (list_ascii_of_string w)) (Split s sep).
Proof.
  induction s as [|c s IH]; cbn [Split].
  - apply Forall_cons; [intros []|apply Forall_nil].
  - destruct (Ascii.eqb c sep) eqn:Hc.
    + apply Forall_cons; [intros []|exact IH].
    + apply Ascii.eqb_neq in Hc.
      destruct (Split s sep) as [|w ws].
      * apply Forall_cons; [|apply Forall_nil].
        cbn. intros [H|[]]. apply Hc. exact H.
      * inversion IH as [|w0 ws0 Hw Hws]; subst.
        apply Forall_cons; [|exact Hws].
        cbn. intros [H|H]; [apply Hc; exact H|apply Hw; exact H].
Qed.

(** A loaded file is accepted exactly when the configuration id, the private
    key, the interface address, the public key of the peer and its endpoint
    are all present with a non-empty value; the allowed ranges, the DNS
    entry and the keepalive play no part in that. *)
Theorem ParseConfig_accepts_iff_required_keys_present (L : Lib) (f : Ini.File) :
  (exists cfg id, ParseCfg.ParseConfig (Ok f) = Ok (cfg, id))
  <->
  (Ini.KeyString (Ini.GetSection f "portmap") "config_id" <> ""
   /\ Ini.KeyString (Ini.GetSection f "Interface") "PrivateKey" <> ""
   /\ Ini.KeyString (Ini.GetSection f "Interface") "Address" <> ""
   /\ Ini.KeyString (Ini.GetSection f "Peer") "PublicKey" <> ""
   /\ Ini.KeyString (Ini.GetSection f "Peer") "Endpoint" <> "").
Proof.
  rewrite ParseConfig_loaded. cbv zeta.
  rewrite <- !String.eqb_neq.
  destruct (String.eqb (Ini.KeyString (Ini.GetSection f "portmap") "config_id") "");
    [split; [intros (cfg & id & H); discriminate H|intros (H & _); discriminate H]|].
  destruct (String.eqb (Ini.KeyString (Ini.GetSection f "Interface") "PrivateKey") "");
    [split; [intros (cfg & id & H); discriminate H|intros (_ & H & _); discriminate H]|].
  destruct (String.eqb (Ini.KeyString (Ini.GetSection f "Interface") "Address") "");
    [split; [intros (cfg & id & H); discriminate H|intros (_ & _ & H & _); discriminate H]|].
  destruct (String.eqb (Ini.KeyString (Ini.GetSection f "Peer") "PublicKey") "");
    [split; [intros (cfg & id & H); discriminate H|intros (_ & _ & _ & H & _); discriminate H]|].
  destruct (String.eqb (Ini.KeyString (Ini.GetSection f "Peer") "Endpoint") "");
    [split; [intros (cfg & id & H); discriminate H|intros (_ & _ & _ & _ & H); discriminate H]|].
  split; [intros _; repeat split; reflexivity|intros _; do 2 eexists; reflexivity].
Qed.

(** The allowed ranges of a parsed configuration are the pieces of the
    value of [AllowedIPs] between its commas, kept as they are: joined with
    commas they give that value back, none of them holds a comma, and white
    space around a piece is not removed. *)
Theorem ParseConfig_allowed_ranges_round_trip (L : Lib) (f : Ini.File)
    (cfg : WireguardConfig) (id : string) :
  ParseCfg.ParseConfig (Ok f) = Ok (cfg, id) ->
  String.concat "," (AllowedIPs (Peer cfg))
  = Ini.KeyString (Ini.GetSection f "Peer") "AllowedIPs"
  /\ Forall (fun w => ~ In ","%char (list_ascii_of_string w)) (AllowedIPs (Peer cfg)).
Proof.
  rewrite ParseConfig_loaded. cbv zeta.
  repeat match goal with
         | |- context [if ?b then _ else _] => destruct b
         end; try discriminate.
  intros Heq. inversion Heq; subst. cbn [AllowedIPs Peer].
  split; [apply concat_Split|apply Split_free_of_sep].
Qed.

Lemma ParseConfig_allowed_ranges_round_trip_witness :
  String.concat "," (AllowedIPs (Peer Examples.cfgTwoRanges))
  = Ini.KeyString (Ini.GetSection Examples.iniTwoRanges "Peer") "AllowedIPs"
  /\ Forall (fun w => ~ In ","%char (list_ascii_of_string w))
       (AllowedIPs (Peer Examples.cfgTwoRanges)).
Proof.
  exact (ParseConfig_allowed_ranges_round_trip IPv4.lib Examples.iniTwoRanges
           Examples.cfgTwoRanges "42" eq_refl).
Defined.

(** For every file the parser accepts, the request for the mappings names
    the configuration id of the file: the path is never the bare listing of
    all mappings. *)
Theorem connect_asks_for_mappings_of_the_configuration (L : Lib)
    (loaded : result Ini.File) (cfg : WireguardConfig) (id : string) :
  ParseCfg.ParseConfig loaded = Ok (cfg, id) ->
  Api.ListMappings_path (Api.connectParams id) = ("/mappings?config_id=" ++ id)%string
  /\ Api.ListMappings_path (Api.connectParams id) <> "/mappings".
Proof.
  intros Hp.
  assert (Hid : String.eqb id "" = false).
  { destruct loaded as [f|e]; [|discriminate Hp].
    rewrite ParseConfig_loaded in Hp. cbv zeta in Hp.
    destruct (String.eqb (Ini.KeyString (Ini.GetSection f "portmap") "config_id") "")
      eqn:Hc; [discriminate Hp|].
    repeat match type of Hp with
           | context [if ?b then _ else _] => destruct b
           end; try discriminate Hp.
    inversion Hp; subst. exact Hc. }
  unfold Api.ListMappings_path, Api.connectParams. cbn [List.length Nat.ltb Nat.leb].
  cbn [Api.queryLoop]. rewrite Hid. cbn [negb app List.length Nat.ltb Nat.leb String.concat].
  split; [reflexivity|]. cbn. intros H. discriminate H.
Qed.

Lemma connect_asks_for_mappings_of_the_configuration_witness :
  Api.ListMappings_path (Api.connectParams "42") = "/mappings?config_id=42"
  /\ Api.ListMappings_path (Api.connectParams "42") <> "/mappings".
Proof.
  exact (connect_asks_for_mappings_of_the_configuration IPv4.lib
           (Ok Examples.iniTwoRanges) Examples.cfgTwoRanges "42" eq_refl).
Defined.

(** ** The check of interface names against its pattern *)

Lemma matches_Nothing (s : string) : Regexp.matches Regexp.Nothing s = false.
Proof. induction s as [|c s IH]; [reflexivity|exact IH]. Qed.

Lemma matches_Alt (r1 r2 : Regexp.re) (s : string) :
  Regexp.matches (Regexp.Alt r1 r2) s = Regexp.matches r1 s || Regexp.matches r2 s.
Proof.
  revert r1 r2. induction s as [|c s IH]; intros r1 r2; [reflexivity|].
  cbn [Regexp.matches Regexp.deriv]. apply IH.
Qed.

Lemma matches_Cat_Nothing (r : Regexp.re) (s : string) :
  Regexp.matches (Regexp.Cat Regexp.Nothing r) s = false.
Proof. induction s as [|c s IH]; [reflexivity|exact IH]. Qed.

Lemma matches_Cat_Eps (r : Regexp.re) (s : string) :
  Regexp.matches (Regexp.Cat Regexp.Eps r) s = Regexp.matches r s.
Proof.
  destruct s as [|c s]; [reflexivity|].
  cbn [Regexp.matches Regexp.deriv Regexp.nullable].
  rewrite matches_Alt, matches_Cat_Nothing. reflexivity.
Qed.

(** Two expressions that match the same texts do so in front of a third. *)
Lemma matches_Cat_congr (r : Regexp.re) (s : string) :
  forall a b : Regexp.re,
    (forall s', Regexp.matches a s' = Regexp.matches b s') ->
    Regexp.matches (Regexp.Cat a r) s = Regexp.matches (Regexp.Cat b r) s.
Proof.
  induction s as [|c s IH]; intros a b Hab.
  - cbn [Regexp.matches Regexp.nullable].
    pose proof (Hab "") as H0. cbn [Regexp.matches] in H0. rewrite H0. reflexivity.
  - cbn [Regexp.matches Regexp.deriv].
    pose proof (Hab "") as H0. cbn [Regexp.matches] in H0. rewrite H0.
    assert (Hd : forall s', Regexp.matches (Regexp.deriv c a) s'
                            = Regexp.matches (Regexp.deriv c b) s').
    { intros s'. exact (Hab (String c s')). }
    destruct (Regexp.nullable b).
    + rewrite !matches_Alt. rewrite (IH _ _ Hd). reflexivity.
    + exact (IH _ _ Hd).
Qed.

Lemma matches_Cat_Alt (r : Regexp.re) (s : string) :
  forall a b : Regexp.re,
    Regexp.matches (Regexp.Cat (Regexp.Alt a b) r) s
    = Regexp.matches (Regexp.Cat a r) s || Regexp.matches (Regexp.Cat b r) s.
Proof.
  induction s as [|c s IH]; intros a b.
  - cbn [Regexp.matches Regexp.nullable].
    destruct (Regexp.nullable a), (Regexp.nullable b), (Regexp.nullable r); reflexivity.
  - cbn [Regexp.matches Regexp.deriv Regexp.nullable].
    destruct (Regexp.nullable a), (Regexp.nullable b); cbn [orb];
      rewrite ?matches_Alt, IH;
      destruct (Regexp.matches (Regexp.Cat (Regexp.deriv c a) r) s),
               (Regexp.matches (Regexp.Cat (Regexp.deriv c b) r) s),
               (Regexp.matches (Regexp.deriv c r) s); reflexivity.
Qed.

Lemma matches_Cat_Range (lo hi : ascii) (r : Regexp.re) (c : ascii) (s : string) :
  Regexp.matches (Regexp.Cat (Regexp.Range lo hi) r) (String c s)
  = Regexp.inRange lo hi c && Regexp.matches r s.
Proof.
  cbn [Regexp.matches Regexp.deriv Regexp.nullable].
  destruct (Regexp.inRange lo hi c); cbn [andb].
  - apply matches_Cat_Eps.
  - apply matches_Cat_Nothing.
Qed.

Lemma inRange_same (a c : ascii) : Regexp.inRange a a c = Ascii.eqb a c.
Proof.
  unfold Regexp.inRange.
  destruct (Ascii.eqb a c) eqn:He.
  - apply Ascii.eqb_eq in He. subst c. rewrite Nat.leb_refl. reflexivity.
  - apply andb_false_iff.
    destruct (nat_of_ascii a <=? nat_of_ascii c)%nat eqn:H1; [|left; reflexivity].
    destruct (nat_of_ascii c <=? nat_of_ascii a)%nat eqn:H2; [|right; reflexivity].
    exfalso. apply Nat.leb_le in H1, H2.
    apply Ascii.eqb_neq in He. apply He.
    rewrite <- (ascii_nat_embedding a), <- (ascii_nat_embedding c).
    f_equal. lia.
Qed.

Lemma matches_Cat_lit (p : string) (r : Regexp.re) :
  forall s : string,
    Regexp.matches (Regexp.Cat (Regexp.lit p) r) s
    = HasPrefix s p && Regexp.matches r (drop (String.length p) s).
Proof.
  induction p as [|a p IH]; intros s.
  - cbn [Regexp.lit String.length drop]. rewrite matches_Cat_Eps.
    destruct s; reflexivity.
  - cbn [Regexp.lit]. destruct s as [|c s]; [reflexivity|].
    cbn [Regexp.matches Regexp.deriv Regexp.nullable andb HasPrefix String.length drop].
    rewrite inRange_same. destruct (Ascii.eqb a c); cbn [andb].
    + rewrite (matches_Cat_congr r s _ (Regexp.lit p) (matches_Cat_Eps (Regexp.lit p))).
      apply IH.
    + rewrite (matches_Cat_congr r s (Regexp.Cat Regexp.Nothing (Regexp.lit p))
                 Regexp.Nothing).
      * apply matches_Cat_Nothing.
      * intros s'. rewrite matches_Cat_Nothing, matches_Nothing. reflexivity.
Qed.

Lemma inRange_digit (c : ascii) : Regexp.inRange "0" "9" c = isDigit c.
Proof. reflexivity. Qed.

Lemma matches_digits (s : string) :
  Regexp.matches (Regexp.Star (Regexp.Range "0" "9")) s = allDigits s.
Proof.
  induction s as [|c s IH]; [reflexivity|].
  change (Regexp.matches (Regexp.Star (Regexp.Range "0" "9")) (String c s))
    with (Regexp.matches
            (Regexp.Cat (if Regexp.inRange "0" "9" c then Regexp.Eps else Regexp.Nothing)
                        (Regexp.Star (Regexp.Range "0" "9"))) s).
  cbn [allDigits]. rewrite inRange_digit.
  destruct (isDigit c); cbn [andb].
  - rewrite matches_Cat_Eps. exact IH.
  - apply matches_Cat_Nothing.
Qed.

Lemma matches_digits1 (s : string) :
  Regexp.matches
    (Regexp.Cat (Regexp.Range "0" "9") (Regexp.Star (Regexp.Range "0" "9"))) s
  = negb (String.eqb s "") && allDigits s.
Proof.
  destruct s as [|c s]; [reflexivity|].
  rewrite matches_Cat_Range, inRange_digit, matches_digits. reflexivity.
Qed.

(** The interface names the check lets through are exactly the texts that
    the pattern [^(utun|wg|tun)[0-9]+$] of the source matches, read as a
    regular expression over the whole text. *)
Theorem isValidInterfaceName_is_the_pattern (name : string) :
  isValidInterfaceName name = Regexp.matches Regexp.interfaceNamePattern name.
Proof.
  unfold Regexp.interfaceNamePattern, isValidInterfaceName, matchPrefixDigits.
  rewrite !matches_Cat_Alt, !matches_Cat_lit, !matches_digits1.
  reflexivity.
Qed.

(** ** Routes on Windows: the index of the interface *)

Lemma endField_not_empty (cur : option string) (rest : list string) :
  (forall w, cur = Some w -> w <> "") ->
  Forall (fun w => w <> "") rest ->
  Forall (fun w => w <> "") (endField cur rest).
Proof.
  intros Hcur Hrest. destruct cur as [w|]; [|exact Hrest].
  apply Forall_cons; [apply Hcur; reflexivity|exact Hrest].
Qed.

Lemma addByte_not_empty (cur : option string) (c : ascii) (w : string) :
  addByte cur c = Some w -> w <> "".
Proof.
  unfold addByte. intros H. inversion H; subst.
  destruct cur as [w|]; [destruct w|]; discriminate.
Qed.

Lemma fields_aux_not_empty (s : string) :
  forall cur : option string,
    (forall w, cur = Some w -> w <> "") ->
    Forall (fun w => w <> "") (fields_aux s cur).
Proof.
  assert (Hnone : forall w : string, @None string = Some w -> w <> "")
    by (intros w H; discriminate H).
  assert (H : forall (n : nat) (s : string), (String.length s <= n)%nat ->
              forall cur : option string,
                (forall w, cur = Some w -> w <> "") ->
                Forall (fun w => w <> "") (fields_aux s cur)).
  { induction n as [|n IH]; intros s0 Hlen cur Hcur.
    - destruct s0; [|cbn in Hlen; lia].
      apply endField_not_empty; [exact Hcur|constructor].
    - destruct s0 as [|c1 s1];
        [apply endField_not_empty; [exact Hcur|constructor]|].
      cbn [String.length] in Hlen.
      assert (Hs1 : forall cur', (forall w, cur' = Some w -> w <> "") ->
                                 Forall (fun w => w <> "") (fields_aux s1 cur'))
        by (apply IH; lia).
      cbn [fields_aux].
      destruct (isSpace1 c1);
        [apply endField_not_empty; [exact Hcur|apply Hs1; exact Hnone]|].
      destruct s1 as [|c2 s2];
        [apply Hs1; intros w; apply addByte_not_empty|].
      cbn [String.length] in Hlen.
      destruct (isSpace2 c1 c2);
        [apply endField_not_empty; [exact Hcur|apply IH; [lia|exact Hnone]]|].
      destruct s2 as [|c3 s3];
        [apply Hs1; intros w; apply addByte_not_empty|].
      cbn [String.length] in Hlen.
      destruct (isSpace3 c1 c2 c3);
        [apply endField_not_empty; [exact Hcur|apply IH; [lia|exact Hnone]]|].
      apply Hs1. intros w. apply addByte_not_empty. }
  intros cur. apply (H (String.length s)). lia.
Qed.

Lemma Fields_first_not_empty (line idx : string) (more : list string) :
  Fields line = idx :: more -> idx <> "".
Proof.
  intros Hf.
  pose proof (fields_aux_not_empty line None) as HF.
  unfold Fields in Hf. rewrite Hf in HF.
  assert (H : Forall (fun w => w <> "") (idx :: more)).
  { apply HF. intros w H. discriminate H. }
  inversion H; assumption.
Qed.

Lemma findIndex_first (pre post : list string) (line name idx : string)
    (more : list string) :
  Forall (fun l => Contains l name = false) pre ->
  Contains line name = true ->
  Fields line = idx :: more ->
  findIndex (pre ++ line :: post) name = idx.
Proof.
  intros Hpre Hc Hf. induction Hpre as [|l pre Hl _ IH]; cbn [app findIndex].
  - rewrite Hc, Hf. reflexivity.
  - rewrite Hl. exact IH.
Qed.

Lemma findIndex_none (lines : list string) (name : string) :
  Forall (fun l => Contains l name = false) lines ->
  findIndex lines name = "".
Proof.
  induction 1 as [|l lines Hl _ IH]; cbn [findIndex]; [reflexivity|].
  rewrite Hl. exact IH.
Qed.

(** On Windows the route of a range is added through the interface whose
    index is the first field of the first line of the listing that contains
    the name of the tunnel anywhere in it; the listing and the route command
    are the two commands that are run. *)
Theorem windows_route_uses_first_line_containing_name (L : Lib) (env : Env)
    (m : Manager) (ip : string) (t : Trace) (output : string)
    (pre post : list string) (line idx : string) (more : list string)
    (addr : Net.IP) (ipNet : Net.IPNet) :
  GOOS env = "windows" ->
  isValidInterfaceName (interfaceName m) = true ->
  ParseCIDR ip = Some (addr, ipNet) ->
  Exec_result env t ["netsh"; "interface"; "ipv4"; "show"; "interfaces"]
  = (output, None) ->
  Split output LF = (pre ++ line :: post)%list ->
  Forall (fun l => Contains l (interfaceName m) = false) pre ->
  Contains line (interfaceName m) = true ->
  Fields line = idx :: more ->
  snd (addRoutes_body env m ip t)
  = (t ++ [EvExec ["netsh"; "interface"; "ipv4"; "show"; "interfaces"];
           EvExec ["route"; "add"; IPString (Net.IPNet_IP ipNet);
                   "mask"; IPString (Net.Mask ipNet);
                   beforeSlash (Address (Interface (config m)));
                   "metric"; "1"; "IF"; idx]])%list.
Proof.
  intros Hos Hname Hcidr Hexec Hsplit Hpre Hline Hfields.
  unfold addRoutes_body, isValidIP. rewrite Hcidr, Hname, Hos. cbn [negb].
  change (String.eqb "windows" "darwin") with false.
  change (String.eqb "windows" "linux") with false.
  change (String.eqb "windows" "windows") with true. cbv iota.
  cbv beta iota delta [bind exec]. rewrite Hexec. cbv beta iota.
  rewrite Hsplit, (findIndex_first pre post line _ idx more Hpre Hline Hfields).
  pose proof (Fields_first_not_empty _ _ _ Hfields) as Hne.
  apply String.eqb_neq in Hne. rewrite Hne. cbv beta iota.
  match goal with
  | |- context [Exec_result env (t ++ ?l)%list ?argv] =>
      destruct (Exec_result env (t ++ l)%list argv) as [out [e|]]
  end; cbn [snd ret]; rewrite <- app_assoc; reflexivity.
Qed.

Lemma windows_route_uses_first_line_containing_name_witness :
  snd (@addRoutes_body IPv4.lib MoreExamples.envWindows
         (Examples.mgrUp Examples.cfgTwoRanges "wg0") "10.0.1.0/24" [])
  = [EvExec ["netsh"; "interface"; "ipv4"; "show"; "interfaces"];
     EvExec ["route"; "add"; "10.0.1.0"; "mask"; "255.255.255.0"; "10.0.0.2";
             "metric"; "1"; "IF"; "17"]].
Proof.
  refine (windows_route_uses_first_line_containing_name IPv4.lib
            MoreExamples.envWindows (Examples.mgrUp Examples.cfgTwoRanges "wg0")
            "10.0.1.0/24" [] _
            ["Idx  Met  MTU  State  Name"; "  1   75  4294967295  connected  Loopback"]
            [" 23    5  1420  connected  wg0"; ""]
            " 17    5  1420  connected  wg01" "17" ["5"; "1420"; "connected"; "wg01"]
            _ _ eq_refl eq_refl eq_refl eq_refl eq_refl _ eq_refl eq_refl).
  repeat (apply Forall_cons; [reflexivity|]). apply Forall_nil.
Defined.

(** On Windows, when no line of the listing contains the name of the
    tunnel, route installation fails with the error that names it, and the
    listing is the only command that was run. *)
Theorem windows_route_needs_listed_interface (L : Lib) (env : Env)
    (m : Manager) (ip : string) (t : Trace) (output : string) :
  GOOS env = "windows" ->
  isValidIP ip = true ->
  isValidInterfaceName (interfaceName m) = true ->
  Exec_result env t ["netsh"; "interface"; "ipv4"; "show"; "interfaces"]
  = (output, None) ->
  Forall (fun l => Contains l (interfaceName m) = false) (Split output LF) ->
  addRoutes_body env m ip t
  = (Val (Some ("could not find interface index for " ++ interfaceName m)),
     (t ++ [EvExec ["netsh"; "interface"; "ipv4"; "show"; "interfaces"]])%list).
Proof.
  intros Hos Hip Hname Hexec Hnone.
  unfold addRoutes_body. rewrite Hip, Hname, Hos. cbn [negb].
  change (String.eqb "windows" "darwin") with false.
  change (String.eqb "windows" "linux") with false.
  change (String.eqb "windows" "windows") with true. cbv iota.
  cbv beta iota delta [bind exec]. rewrite Hexec. cbv beta iota.
  rewrite (findIndex_none _ _ Hnone). reflexivity.
Qed.

Lemma windows_route_needs_listed_interface_witness :
  @addRoutes_body IPv4.lib MoreExamples.envWindowsNoListing
    (Examples.mgrUp Examples.cfgTwoRanges "wg0") "10.0.1.0/24" []
  = (Val (Some "could not find interface index for wg0"),
     [EvExec ["netsh"; "interface"; "ipv4"; "show"; "interfaces"]]).
Proof.
  refine (windows_route_needs_listed_interface IPv4.lib
            MoreExamples.envWindowsNoListing
            (Examples.mgrUp Examples.cfgTwoRanges "wg0") "10.0.1.0/24" [] _
            eq_refl eq_refl eq_refl eq_refl _).
  repeat (apply Forall_cons; [reflexivity|]). apply Forall_nil.
Defined.

(** A range written as a single address, without a prefix length, passes
    the check of the range, and on Windows is then refused as no CIDR after
    the listing has been run and before any route command; on the other
    platforms it is handed to the route command as it is. *)
Theorem windows_route_refuses_plain_address (L : Lib) (env : Env)
    (m : Manager) (ip : string) (t : Trace) (output : string) :
  GOOS env = "windows" ->
  ParseCIDR ip = None ->
  ParseIP ip <> None ->
  isValidInterfaceName (interfaceName m) = true ->
  Exec_result env t ["netsh"; "interface"; "ipv4"; "show"; "interfaces"]
  = (output, None) ->
  findIndex (Split output LF) (interfaceName m) <> "" ->
  addRoutes_body env m ip t
  = (Val (Some ("invalid CIDR format: " ++ cidrError ip)),
     (t ++ [EvExec ["netsh"; "interface"; "ipv4"; "show"; "interfaces"]])%list)
  /\ forall env' : Env,
       GOOS env' = "linux" ->
       snd (addRoutes_body env' m ip t)
       = (t ++ [EvExec ["ip"; "route"; "add"; ip; "dev"; interfaceName m]])%list.
Proof.
  intros Hos Hcidr Hip Hname Hexec Hidx. split.
  - unfold addRoutes_body, isValidIP. rewrite Hcidr, Hname, Hos.
    destruct (ParseIP ip); [|contradiction]. cbn [negb].
    change (String.eqb "windows" "darwin") with false.
    change (String.eqb "windows" "linux") with false.
    change (String.eqb "windows" "windows") with true. cbv iota.
    cbv beta iota delta [bind exec]. rewrite Hexec. cbv beta iota.
    apply String.eqb_neq in Hidx. rewrite Hidx. reflexivity.
  - intros env' Hos'.
    unfold addRoutes_body, isValidIP. rewrite Hcidr, Hname, Hos'.
    destruct (ParseIP ip); [|contradiction]. cbn [negb].
    change (String.eqb "linux" "darwin") with false.
    change (String.eqb "linux" "linux") with true. cbv iota.
    unfold bind, exec.
    destruct (Exec_result env' t _) as [out [e|]]; reflexivity.
Qed.

Lemma windows_route_refuses_plain_address_witness :
  @addRoutes_body IPv4.lib MoreExamples.envWindows
    (Examples.mgrUp Examples.cfgTwoRanges "wg0") "10.0.1.7" []
  = (Val (Some "invalid CIDR format: invalid CIDR address: 10.0.1.7"),
     [EvExec ["netsh"; "interface"; "ipv4"; "show"; "interfaces"]]).
Proof.
  refine (proj1 (windows_route_refuses_plain_address IPv4.lib
            MoreExamples.envWindows
            (Examples.mgrUp Examples.cfgTwoRanges "wg0") "10.0.1.7" [] _
            eq_refl eq_refl _ eq_refl eq_refl _)).
  - discriminate.
  - discriminate.
Defined.
